(** * echo-binder: a shallow embedding of the binder and its presence table

    The development follows the package file by file: [lookup.go] (the
    presence table), [utils.go] (coercion of one string into one slot),
    [errors.go], [consts.go] and [binder.go] (the flattener, the five source
    binders and [Bind]).  The sources hold three revisions of [binder.go];
    the one embedded here is the latest, the revision that [binder_test.go],
    [consts.go] and the lower-case [errors.go] belong to (it follows the
    README text in [src/README.md]): it has the sent-fields slot, the
    fallback to echo's default binder and the exclusion tag, which the two
    older revisions ([src/binder/binder.go] and the first part of
    [src/unnamed/part_001]) do not have.

    Go's [reflect] is modelled by a small universe of types ([type]) and of
    values ([value]); a [reflect.Value] that points into the record being
    bound is a path of field indices from the section ([Slot]).  Mutation is
    explicit state passing: every operation returns the new value of what it
    was allowed to write.  A Go panic is the outcome [Panic].

    External collaborators (strconv's float parser, encoding/json,
    encoding/xml) are the fields of [Externals]; the validator and echo's
    default binder are fields of [Binder], as in the source. *)

From Stdlib Require Import ZArith Ascii Floats.SpecFloat.
From stdpp Require Import gmap strings list fin_maps.

Set Warnings "-register-all".
Set Default Proof Using "Type".

Open Scope Z_scope.

(** ** strings *)

Module strings.

(** [strings.Split(s, ".")]: the substrings between the occurrences of the
    separator; never empty ([Split("", ".")] is [[""]]). *)
Fixpoint Split (s : string) (sep : ascii) : list string :=
  match s with
  | EmptyString => [EmptyString]
  | String c rest =>
      if Ascii.eqb c sep then EmptyString :: Split rest sep
      else match Split rest sep with
           | [] => [String c EmptyString]
           | h :: t => String c h :: t
           end
  end.

(** [strings.Join(elems, ".")]. *)
Fixpoint Join (elems : list string) (sep : ascii) : string :=
  match elems with
  | [] => EmptyString
  | [e] => e
  | e :: rest => e +:+ String sep (Join rest sep)
  end.

(** [strings.HasPrefix(s, prefix)]. *)
Definition HasPrefix (s prefix : string) : bool := String.prefix prefix s.

Fixpoint contains (sep : ascii) (s : string) : bool :=
  match s with
  | EmptyString => false
  | String c rest => Ascii.eqb c sep || contains sep rest
  end.

End strings.

(** ** errors.go *)

Inductive NumErrorKind := ErrSyntax | ErrRange.

(** The errors of the package, one constructor per constructor function of
    [errors.go]; [HTTPError] is echo's, built by [badRequestError] and
    [internalServerError], which keep the wrapped error as [Internal]. *)
Inductive error :=
| errorInvalidType
| errorInvalidAnonymousField
| getInvalidTypeAtLocationError (location requiredType : string)
| getMissingParamAtLocationError (location param : string)
| getNotSettableParamAtLocationError (location param : string)
| getUnsupportedHttpMethodError (location method : string)
| getInvalidAnonymousFieldError (location : string)
| unknownTypeError
| NumError (Func Num : string) (Err : NumErrorKind)
| ExternalError (msg : string)
| HTTPError (Code : Z) (Internal : error).

Definition StatusBadRequest : Z := 400.
Definition StatusInternalServerError : Z := 500.

Definition badRequestError (err : error) : error := HTTPError StatusBadRequest err.
Definition internalServerError (err : error) : error :=
  HTTPError StatusInternalServerError err.

(** What a call leaves behind: [nil], an error, or a panic. *)
Inductive outcome :=
| Nil
| Failed (err : error)
| Panic.

(** A value or an error or a panic, for the calls that return [(x, error)]. *)
Inductive result (A : Type) :=
| Ok (x : A)
| Err (err : error)
| Panicked.
Arguments Ok {A} x.
Arguments Err {A} err.
Arguments Panicked {A}.

(** ** consts.go *)

Definition pathField : string := "Path".
Definition queryField : string := "Query".
Definition bodyField : string := "Body".
Definition formField : string := "Form".
Definition headerField : string := "Header".
Definition bodySentFields : string := "BodySentFields".
Definition TagIdentifier : string := "binder".
Definition structTypeString : string := "struct".
Definition lookupTypeString : string := "echo_binder.RecursiveLookupTable".

(** ** strconv *)

Module strconv.

Definition digit (c : ascii) : option Z :=
  let n := Z.of_N (N_of_ascii c) in
  if (48 <=? n) && (n <=? 57) then Some (n - 48) else None.

(** The digit loop of [ParseUint] in base 10: a byte that is not a digit is a
    syntax error, a value past [maxVal] a range error, whichever comes
    first. *)
Fixpoint parseDigits (s : string) (n maxVal : Z) : NumErrorKind + Z :=
  match s with
  | EmptyString => inr n
  | String c rest =>
      match digit c with
      | None => inl ErrSyntax
      | Some d =>
          if maxVal <? n * 10 + d then inl ErrRange
          else parseDigits rest (n * 10 + d) maxVal
      end
  end.

(** [IntSize] on the 64-bit platforms. *)
Definition IntSize : Z := 64.

Definition bits (bitSize : Z) : Z := if bitSize =? 0 then IntSize else bitSize.

(** [strconv.ParseUint(s, 10, bitSize)]. *)
Definition ParseUint (s : string) (bitSize : Z) : error + Z :=
  match s with
  | EmptyString => inl (NumError "ParseUint" s ErrSyntax)
  | _ =>
      match parseDigits s 0 (2 ^ bits bitSize - 1) with
      | inl k => inl (NumError "ParseUint" s k)
      | inr n => inr n
      end
  end.

(** [strconv.ParseInt(s, 10, bitSize)]: an optional sign, then the digits;
    the magnitude must fit the signed width. *)
Definition ParseInt (s : string) (bitSize : Z) : error + Z :=
  match s with
  | EmptyString => inl (NumError "ParseInt" s ErrSyntax)
  | String c rest =>
      let neg := Ascii.eqb c "-" in
      let body := if Ascii.eqb c "+" || neg then rest else s in
      let cutoff := 2 ^ (bits bitSize - 1) in
      match body with
      | EmptyString => inl (NumError "ParseInt" s ErrSyntax)
      | _ =>
          match parseDigits body 0 (2 ^ bits bitSize - 1) with
          | inl k => inl (NumError "ParseInt" s k)
          | inr un =>
              if negb neg && (cutoff <=? un) then inl (NumError "ParseInt" s ErrRange)
              else if neg && (cutoff <? un) then inl (NumError "ParseInt" s ErrRange)
              else inr (if neg then - un else un)
          end
      end
  end.

(** [strconv.ParseBool(str)]. *)
Definition ParseBool (str : string) : error + bool :=
  if bool_decide (str ∈ ["1"; "t"; "T"; "TRUE"; "true"; "True"]) then inr true
  else if bool_decide (str ∈ ["0"; "f"; "F"; "FALSE"; "false"; "False"]) then inr false
  else inl (NumError "ParseBool" str ErrSyntax).

End strconv.

(** ** lookup.go *)

(** What [encoding/json] stores in an [interface{}]: [nil], [bool],
    [float64] (kept as the number's text), [string], [[]interface{}] and
    [map[string]interface{}]. *)
Inductive jvalue :=
| JNull
| JBool (b : bool)
| JNumber (n : string)
| JString (s : string)
| JArray (l : list jvalue)
| JObject (m : gmap string jvalue).

(** [type lookupTable map[string]interface{}] *)
Abbreviation lookupTable := (gmap string jvalue).

(** [type RecursiveLookupTable map[string]RecursiveLookupTable] *)
Inductive RecursiveLookupTable :=
| RLT (m : gmap string RecursiveLookupTable).

Definition entries (l : RecursiveLookupTable) : gmap string RecursiveLookupTable :=
  match l with RLT m => m end.

(** [json.Marshal(&v)] followed by [json.Unmarshal(data, &lut)] with [lut] an
    empty [lookupTable]: an object comes back as it was, [null] leaves [lut]
    empty and returns no error, every other JSON value is a type error. *)
Definition remarshal (v : jvalue) : option lookupTable :=
  match v with
  | JObject m => Some m
  | JNull => Some ∅
  | _ => None
  end.

(** The body of the loop of [lookupTable.IntoRecursiveLookupTable] for one
    [value].  No value stored by the decoder has the dynamic type
    [lookupTable], so the first arm of the type switch is never taken and
    every value goes through the marshal/unmarshal arm; the three results of
    that arm are written out so that the recursion is structural
    ([IntoRecursiveLookupTable_value_remarshal] relates it to [remarshal]). *)
Fixpoint IntoRecursiveLookupTable_value (value : jvalue) : RecursiveLookupTable :=
  match value with
  | JObject lut => RLT (IntoRecursiveLookupTable_value <$> lut)
  | JNull => RLT ∅
  | _ => RLT ∅
  end.

(** [func (l *lookupTable) IntoRecursiveLookupTable() RecursiveLookupTable] *)
Definition IntoRecursiveLookupTable (l : lookupTable) : RecursiveLookupTable :=
  RLT (IntoRecursiveLookupTable_value <$> l).

(** [func (l *RecursiveLookupTable) FieldExists(key string) bool].  The
    source recurses on the re-joined tail of the key; [fuel] bounds that
    recursion and [FieldExists] starts it with more than the key can use. *)
Fixpoint FieldExists_fuel (fuel : nat) (l : RecursiveLookupTable) (key : string) : bool :=
  match fuel with
  | O => false
  | S fuel =>
      let keys := strings.Split key "." in
      match keys with
      | [] => false
      | k0 :: tail =>
          match entries l !! k0 with
          | None => false
          | Some data =>
              if bool_decide (length keys = 1%nat) then true
              else FieldExists_fuel fuel data (strings.Join tail ".")
          end
      end
  end.

Definition FieldExists (l : RecursiveLookupTable) (key : string) : bool :=
  FieldExists_fuel (S (String.length key)) l key.

(** [func (l *lookupTable) FieldExists(key string) bool], the same query on
    the decoded payload itself.  The first arm of its type switch calls
    [l.FieldExists] (the receiver, not the sub-table); it is never taken for
    decoded payloads, see [IntoRecursiveLookupTable_value]. *)
Fixpoint lookupTable_FieldExists_fuel (fuel : nat) (l : lookupTable) (key : string) : bool :=
  match fuel with
  | O => false
  | S fuel =>
      let keys := strings.Split key "." in
      match keys with
      | [] => false
      | k0 :: tail =>
          match l !! k0 with
          | None => false
          | Some data =>
              if bool_decide (length keys = 1%nat) then true
              else match remarshal data with
                   | None => false
                   | Some lut => lookupTable_FieldExists_fuel fuel lut (strings.Join tail ".")
                   end
          end
      end
  end.

Definition lookupTable_FieldExists (l : lookupTable) (key : string) : bool :=
  lookupTable_FieldExists_fuel (S (String.length key)) l key.

(** The reading of the specification: the payload has an object at the first
    segment, which has an object at the second, and so on, and the last
    segment is a key of the innermost one. *)
Fixpoint present (keys : list string) (payload : lookupTable) : Prop :=
  match keys with
  | [] => False
  | [k] => is_Some (payload !! k)
  | k :: rest => ∃ m, payload !! k = Some (JObject m) ∧ present rest m
  end.

(** ** reflect *)

Module reflect.

(** [reflect.Kind] *)
Inductive Kind :=
| Invalid | Bool
| Int | Int8 | Int16 | Int32 | Int64
| Uint | Uint8 | Uint16 | Uint32 | Uint64 | Uintptr
| Float32 | Float64 | Complex64 | Complex128
| Array | Chan | Func | Interface | Map | Ptr | Slice | String | Struct
| UnsafePointer.

#[global] Instance Kind_eq_dec : EqDecision Kind.
Proof. solve_decision. Defined.

End reflect.

(** Go values, as far as the binder looks into them.  Signed and unsigned
    integers of every width are [VInt] and [VUint]; a pointer is [nil] or
    owns its target (bind targets are trees: [getStructFields] allocates
    every struct it walks through a pointer); a map-typed slot holds [nil]
    or a presence table; values of the kinds the binder has no case for are
    [VOpaque]. *)
Inductive value :=
| VBool (b : bool)
| VInt (n : Z)
| VUint (n : Z)
| VFloat (f : spec_float)
| VString (s : string)
| VPtr (target : option value)
| VSlice (elems : list value)
| VStruct (fields : list value)
| VMap (table : option RecursiveLookupTable)
| VOpaque.

(** [echo.BindUnmarshaler.UnmarshalParam] and
    [encoding.TextUnmarshaler.UnmarshalText] on a pointer receiver: the new
    state of the receiver and the error returned. *)
Definition unmarshaler : Type := string → value → value * option error.

(** The part of a type's method set that [unmarshalFieldNonPtr] asks for. *)
Record MethodSet := {
  UnmarshalParam : option unmarshaler;
  UnmarshalText : option unmarshaler;
}.

Definition noMethods : MethodSet :=
  {| UnmarshalParam := None; UnmarshalText := None |}.

(** [reflect.Type] with [reflect.StructField].  [TBasic k] stands for the
    types of a kind [k] that has no element or field the binder visits
    (booleans, numbers, strings, and arrays, channels, functions, interfaces
    and maps other than the presence table); pointer types have no methods
    of their own.

    A [type] is a finite tree, so it stands for a Go type that does not
    contain itself.  A struct type that refers to itself through a pointer
    ([type Node struct { Next *Node }]) has no counterpart here: on the zero
    value of such a type the recursion of [getStructFields], which allocates
    every nil pointer to a struct that it meets, has no end, and nothing
    below is stated about it. *)
Inductive type :=
| TBasic (k : reflect.Kind) (ms : MethodSet)
| TPtr (elem : type)
| TSlice (elem : type) (ms : MethodSet)
| TStruct (fields : list StructField) (ms : MethodSet)
| TRecursiveLookupTable
with StructField :=
| mkStructField (Name : string) (Typ : type) (Tag : list (string * string))
    (Anonymous : bool).

Definition Name (f : StructField) : string :=
  match f with mkStructField n _ _ _ => n end.
Definition Typ (f : StructField) : type :=
  match f with mkStructField _ t _ _ => t end.
Definition Tag (f : StructField) : list (string * string) :=
  match f with mkStructField _ _ t _ => t end.
Definition Anonymous (f : StructField) : bool :=
  match f with mkStructField _ _ _ a => a end.

(** [Type.Kind()] *)
Definition Kind (t : type) : reflect.Kind :=
  match t with
  | TBasic k _ => k
  | TPtr _ => reflect.Ptr
  | TSlice _ _ => reflect.Slice
  | TStruct _ _ => reflect.Struct
  | TRecursiveLookupTable => reflect.Map
  end.

(** The kind the binder works with: [t.Kind()], or [t.Elem().Kind()] when
    [t] is a pointer type. *)
Definition indirectKind (t : type) : reflect.Kind :=
  match t with
  | TPtr elem => Kind elem
  | _ => Kind t
  end.

Definition methods (t : type) : MethodSet :=
  match t with
  | TBasic _ ms | TSlice _ ms | TStruct _ ms => ms
  | TPtr _ | TRecursiveLookupTable => noMethods
  end.

(** [StructTag.Get(key)]: the value of the key, or the empty string. *)
Fixpoint Tag_Get (tag : list (string * string)) (key : string) : string :=
  match tag with
  | [] => ""
  | (k, v) :: rest => if String.eqb k key then v else Tag_Get rest key
  end.

(** [StructField.IsExported()] for a name whose first character is ASCII:
    the name starts with an upper-case letter.  Go decides by the first
    rune, so a name that starts with an upper-case letter beyond ASCII is
    exported in Go and not here; [asciiInitial] below marks the names on
    which the two agree. *)
Definition IsExported (name : string) : bool :=
  match name with
  | EmptyString => false
  | String c _ =>
      let n := Z.of_N (N_of_ascii c) in (65 <=? n) && (n <=? 90)
  end.

(** [Type.FieldByName(name)] among the struct's own fields.  This is the
    quick check at the head of reflect's [FieldByName], which returns an own
    field of that name before it searches the embedded structs: it is the
    whole answer when the struct has an own field of that name or embeds
    nothing ([ownFieldLookup] below).  A field promoted from an embedded
    struct is not found here. *)
Fixpoint FieldByName_from (fs : list StructField) (i : nat) (name : string)
  : option (nat * StructField) :=
  match fs with
  | [] => None
  | f :: rest =>
      if String.eqb (Name f) name then Some (i, f)
      else FieldByName_from rest (S i) name
  end.

Definition structFields (t : type) : list StructField :=
  match t with
  | TStruct fs _ => fs
  | _ => []
  end.

Definition FieldByName (t : type) (name : string) : option (nat * StructField) :=
  FieldByName_from (structFields t) 0 name.

(** [reflect.Zero(t)] *)
Fixpoint Zero (t : type) : value :=
  match t with
  | TBasic k _ =>
      match k with
      | reflect.Bool => VBool false
      | reflect.Int | reflect.Int8 | reflect.Int16 | reflect.Int32 | reflect.Int64 =>
          VInt 0
      | reflect.Uint | reflect.Uint8 | reflect.Uint16 | reflect.Uint32
      | reflect.Uint64 | reflect.Uintptr => VUint 0
      | reflect.Float32 | reflect.Float64 => VFloat (S754_zero false)
      | reflect.String => VString ""
      | reflect.Map => VMap None
      | _ => VOpaque
      end
  | TPtr _ => VPtr None
  | TSlice _ _ => VSlice []
  | TStruct fs _ =>
      VStruct ((fix zeros (fs : list StructField) : list value :=
                  match fs with
                  | [] => []
                  | f :: rest => Zero (Typ f) :: zeros rest
                  end) fs)
  | TRecursiveLookupTable => VMap None
  end.

(** The read-only flags of a [reflect.Value]: [flagStickyRO] (reached through
    an unexported, non-embedded field) and [flagEmbedRO] (is an unexported
    embedded field).  Every value the binder handles is addressable. *)
Record flag := {
  flagStickyRO : bool;
  flagEmbedRO : bool;
}.

Definition flagNone : flag := {| flagStickyRO := false; flagEmbedRO := false |}.

(** The flags of [v.Field(i)]: [flagStickyRO] is inherited, [flagEmbedRO] is
    not; an unexported field sets one or the other. *)
Definition Field_flag (fl : flag) (f : StructField) : flag :=
  if IsExported (Name f) then
    {| flagStickyRO := flagStickyRO fl; flagEmbedRO := false |}
  else if Anonymous f then
    {| flagStickyRO := flagStickyRO fl; flagEmbedRO := true |}
  else
    {| flagStickyRO := true; flagEmbedRO := false |}.

(** [Value.CanSet()] *)
Definition CanSet_flag (fl : flag) : bool :=
  negb (flagStickyRO fl || flagEmbedRO fl).

(** A [reflect.Value] for a field somewhere below a section: the indices of
    the fields that lead to it (a pointer on the way is followed), its type
    and its flags. *)
Record Slot := {
  slot_path : list nat;
  slot_type : type;
  slot_flag : flag;
}.

Definition CanSet (s : Slot) : bool := CanSet_flag (slot_flag s).

(** [type structFieldData struct { FieldName string; Value *reflect.Value }] *)
Record structFieldData := {
  FieldName : string;
  Value : Slot;
}.

Definition deref (v : value) : value :=
  match v with
  | VPtr (Some target) => target
  | _ => v
  end.

(** [Value.Field(i)] of a struct value. *)
Definition Field (v : value) (i : nat) : option value :=
  match v with
  | VStruct vs => vs !! i
  | _ => None
  end.

(** Assignment to field [i] of a struct value. *)
Definition SetField (v : value) (i : nat) (x : value) : value :=
  match v with
  | VStruct vs => VStruct (<[i := x]> vs)
  | _ => v
  end.

(** The value a slot refers to. *)
Fixpoint get_at (p : list nat) (v : value) : option value :=
  match p with
  | [] => Some v
  | i :: rest =>
      match Field (deref v) i with
      | Some x => get_at rest x
      | None => None
      end
  end.

(** Assignment through a slot. *)
Fixpoint set_at (p : list nat) (x : value) (v : value) : value :=
  match p with
  | [] => x
  | i :: rest =>
      match v with
      | VStruct vs => VStruct (alter (set_at rest x) i vs)
      | VPtr (Some (VStruct vs)) => VPtr (Some (VStruct (alter (set_at rest x) i vs)))
      | _ => v
      end
  end.

(** ** External collaborators *)

(** The library calls whose results the package only passes on:
    [strconv.ParseFloat(s, bitSize)], [json.Unmarshal] and [xml.Unmarshal]
    into the Body section (the decoded section and the error), and
    [json.Unmarshal] of the same bytes into an empty [lookupTable]. *)
Record Externals := {
  ParseFloat : string → Z → error + spec_float;
  json_Unmarshal : string → type → value → value * option error;
  xml_Unmarshal : string → type → value → value * option error;
  json_Unmarshal_lookupTable : string → error + lookupTable;
}.

(** ** utils.go *)

Section utils.
Context (ext : Externals).

(** [unmarshalFieldNonPtr(value, field)] for a field of type [T]: whether a
    hook was found, the field afterwards and the hook's error. *)
Definition unmarshalFieldNonPtr (val : string) (T : type) (field : value)
  : bool * value * option error :=
  match UnmarshalParam (methods T) with
  | Some unmarshaler => let '(field, err) := unmarshaler val field in (true, field, err)
  | None =>
      match UnmarshalText (methods T) with
      | Some unmarshaler => let '(field, err) := unmarshaler val field in (true, field, err)
      | None => (false, field, None)
      end
  end.

(** [field.Elem()] once [field] is known not to be nil: of a nil pointer,
    the zero value that [field.Set(reflect.New(field.Type().Elem()))] has
    just stored. *)
Definition Elem_or_New (elem : type) (field : value) : value :=
  match field with
  | VPtr (Some target) => target
  | _ => Zero elem
  end.

(** [unmarshalFieldPtr(value, field)] for a field of type [*elem]. *)
Definition unmarshalFieldPtr (val : string) (elem : type) (field : value)
  : bool * value * option error :=
  let '(ok, target, err) := unmarshalFieldNonPtr val elem (Elem_or_New elem field) in
  (ok, VPtr (Some target), err).

(** [unmarshalField(valueKind, val, field)] *)
Definition unmarshalField (val : string) (T : type) (field : value)
  : bool * value * option error :=
  match T with
  | TPtr elem => unmarshalFieldPtr val elem field
  | _ => unmarshalFieldNonPtr val T field
  end.

Definition normalize (val default : string) : string :=
  if String.eqb val "" then default else val.

(** [setIntField(value, bitSize, field)] *)
Definition setIntField (val : string) (bitSize : Z) (field : value)
  : value * option error :=
  match strconv.ParseInt (normalize val "0") bitSize with
  | inr intVal => (VInt intVal, None)
  | inl err => (field, Some err)
  end.

(** [setUintField(value, bitSize, field)] *)
Definition setUintField (val : string) (bitSize : Z) (field : value)
  : value * option error :=
  match strconv.ParseUint (normalize val "0") bitSize with
  | inr uintVal => (VUint uintVal, None)
  | inl err => (field, Some err)
  end.

(** [setBoolField(value, field)] *)
Definition setBoolField (val : string) (field : value) : value * option error :=
  match strconv.ParseBool (normalize val "false") with
  | inr boolVal => (VBool boolVal, None)
  | inl err => (field, Some err)
  end.

(** [setFloatField(value, bitSize, field)] *)
Definition setFloatField (val : string) (bitSize : Z) (field : value)
  : value * option error :=
  match ParseFloat ext (normalize val "0.0") bitSize with
  | inr floatVal => (VFloat floatVal, None)
  | inl err => (field, Some err)
  end.

(** [setWithProperType(valueKind, val, structField)].  Every call in the
    package passes the kind of [structField] itself as [valueKind], so the
    model takes the type [T] of [structField] and switches on [Kind T].  The
    result is the slot afterwards and the error returned. *)
Fixpoint setWithProperType (T : type) (val : string) (structField : value)
  : value * option error :=
  let '(ok, structField, err) := unmarshalField val T structField in
  if ok then (structField, err)
  else
    match T with
    | TPtr elem =>
        let '(target, err) := setWithProperType elem val (Elem_or_New elem structField) in
        (VPtr (Some target), err)
    | _ =>
        match Kind T with
        | reflect.Int => setIntField val 0 structField
        | reflect.Int8 => setIntField val 8 structField
        | reflect.Int16 => setIntField val 16 structField
        | reflect.Int32 => setIntField val 32 structField
        | reflect.Int64 => setIntField val 64 structField
        | reflect.Uint => setUintField val 0 structField
        | reflect.Uint8 => setUintField val 8 structField
        | reflect.Uint16 => setUintField val 16 structField
        | reflect.Uint32 => setUintField val 32 structField
        | reflect.Uint64 => setUintField val 64 structField
        | reflect.Bool => setBoolField val structField
        | reflect.Float32 => setFloatField val 32 structField
        | reflect.Float64 => setFloatField val 64 structField
        | reflect.String => (VString val, None)
        | _ => (structField, Some unknownTypeError)
        end
    end.

End utils.

(** ** binder.go *)

(** What the binder reads from [echo.Context]: the request's method, its
    declared content length, its headers (through [Header.Get]), the result
    of reading its body, the path parameters, and the query and form
    parameters.  The two [url.Values] maps are given as the list of their
    entries in the order the [range] loop visits them. *)
Record Context := {
  Method : string;
  ContentLength : Z;
  Header_Get : string → string;
  Body : error + string;
  ParamNames : list string;
  ParamValues : list string;
  QueryParams : list (string * list string);
  FormParams : error + list (string * list string);
}.

Definition MethodGet : string := "GET".
Definition MethodHead : string := "HEAD".
Definition MethodDelete : string := "DELETE".
Definition HeaderContentType : string := "Content-Type".
Definition MIMEApplicationJSON : string := "application/json".
Definition MIMEApplicationXML : string := "application/xml".
Definition MIMETextXML : string := "text/xml".
Definition MIMEApplicationForm : string := "application/x-www-form-urlencoded".
Definition MIMEMultipartForm : string := "multipart/form-data".

(** An [interface{}] argument: untyped [nil], or a dynamic type with its
    value. *)
Inductive iface :=
| INil
| IVal (t : type) (v : value).

(** [type Binder struct]: [validator.Struct] as the error it returns for a
    target ([None] for a nil validator), the fallback switch, and
    [echo.DefaultBinder.Bind] as its outcome and the target afterwards. *)
Record Binder := {
  validator : option (iface → option error);
  callEchoDefaultBinderOnError : bool;
  defaultBinder : iface → Context → outcome * iface;
}.

(** [func New() *Binder], given the two collaborators it constructs. *)
Definition New (Struct : iface → option error)
    (defaultBinder : iface → Context → outcome * iface) : Binder :=
  {| validator := Some Struct;
     callEchoDefaultBinderOnError := false;
     defaultBinder := defaultBinder |}.

(** [func (binder *Binder) CallEchoDefaultBinderOnError(value bool)] *)
Definition CallEchoDefaultBinderOnError (binder : Binder) (value : bool) : Binder :=
  {| validator := validator binder;
     callEchoDefaultBinderOnError := value;
     defaultBinder := defaultBinder binder |}.

Abbreviation fieldMap := (gmap string structFieldData).

Section binder.
Context (ext : Externals).

(** The loop of [getStructFields] from field [i] on; [rec] is
    [getStructFields] itself, [fl] and [p] are the flags and the path of
    [structField], and the struct comes back with the pointers the loop has
    allocated. *)
Fixpoint getStructFields_loop
    (rec : type → flag → list nat → value → result fieldMap * value)
    (fs : list StructField) (i : nat) (fl : flag) (p : list nat)
    (fields : fieldMap) (structField : value) : result fieldMap * value :=
  match fs with
  | [] => (Ok fields, structField)
  | fieldType :: rest =>
      match Field structField i with
      | None => (Panicked, structField)
      | Some fieldStruct =>
          let kind := indirectKind (Typ fieldType) in
          if Anonymous fieldType && negb (bool_decide (kind = reflect.Struct)) then
            (Err errorInvalidAnonymousField, structField)
          else if bool_decide (kind = reflect.Struct) then
            let merge (r : result fieldMap * value) (store : value → value) :=
              let structField := SetField structField i (store r.2) in
              match r.1 with
              | Ok tempFields =>
                  getStructFields_loop rec rest (S i) fl p (tempFields ∪ fields) structField
              | Err err => (Err err, structField)
              | Panicked => (Panicked, structField)
              end in
            match Typ fieldType, fieldStruct with
            | TPtr elem, VPtr None =>
                if CanSet_flag (Field_flag fl fieldType) then
                  merge (rec elem (Field_flag fl fieldType) (p ++ [i]) (Zero elem))
                        (λ target, VPtr (Some target))
                else (Panicked, structField)
            | _, _ =>
                merge (rec (Typ fieldType) (Field_flag fl fieldType) (p ++ [i]) fieldStruct)
                      (λ fieldStruct, fieldStruct)
            end
          else
            let identifier := Tag_Get (Tag fieldType) TagIdentifier in
            if String.eqb identifier "" then
              getStructFields_loop rec rest (S i) fl p
                (<[Name fieldType :=
                     {| FieldName := Name fieldType;
                        Value := {| slot_path := p ++ [i]; slot_type := Typ fieldType;
                                    slot_flag := Field_flag fl fieldType |} |}]> fields)
                structField
            else if String.eqb identifier "-" then
              getStructFields_loop rec rest (S i) fl p fields structField
            else
              getStructFields_loop rec rest (S i) fl p
                (<[identifier :=
                     {| FieldName := Name fieldType;
                        Value := {| slot_path := p ++ [i]; slot_type := Typ fieldType;
                                    slot_flag := Field_flag fl fieldType |} |}]> fields)
                structField
      end
  end.

(** [getStructFields(structField)] for a [structField] of type [T]:
    [structField.Type().NumField()] panics unless [T] is a struct type. *)
Fixpoint getStructFields (T : type) (fl : flag) (p : list nat) (structField : value)
  {struct T} : result fieldMap * value :=
  match T with
  | TStruct fs _ => getStructFields_loop getStructFields fs 0 fl p ∅ structField
  | _ => (Panicked, structField)
  end.

(** [setWithProperType(field.Value.Kind(), val, field.Value)] on the section
    [sv] the slot points into: the section afterwards and the error, or
    nothing when the slot does not lead to a field of [sv]. *)
Definition setSlot (field : Slot) (val : string) (sv : value)
  : option (value * option error) :=
  match get_at (slot_path field) sv with
  | Some structField =>
      let '(structField, err) := setWithProperType ext (slot_type field) val structField in
      Some (set_at (slot_path field) structField sv, err)
  | None => None
  end.

(** The loop of [bindPath] from the parameter [i] on. *)
Fixpoint bindPath_loop (fields : fieldMap) (names values : list string) (i : nat)
    (sv : value) : outcome * value :=
  match names with
  | [] => (Nil, sv)
  | name :: rest =>
      match fields !! name with
      | None =>
          (Failed (badRequestError (getMissingParamAtLocationError pathField name)), sv)
      | Some field =>
          if negb (CanSet (Value field)) then
            (Failed (badRequestError (getNotSettableParamAtLocationError pathField name)), sv)
          else
            match values !! i with
            | None => (Panic, sv)
            | Some val =>
                match setSlot (Value field) val sv with
                | None => (Panic, sv)
                | Some (sv, Some err) => (Failed (badRequestError err), sv)
                | Some (sv, None) => bindPath_loop fields rest values (S i) sv
                end
            end
      end
  end.

(** [bindPath] on a section [structField] of type [T] with flags [fl]. *)
Definition bindPath (c : Context) (T : type) (fl : flag) (structField : value)
  : outcome * value :=
  match getStructFields T fl [] structField with
  | (Err err, sv) => (Failed (badRequestError err), sv)
  | (Panicked, sv) => (Panic, sv)
  | (Ok fields, sv) => bindPath_loop fields (ParamNames c) (ParamValues c) 0 sv
  end.

(** The loop that fills a fresh slice from the values of one key. *)
Fixpoint bindSlice (elem : type) (values : list string) (i : nat) (slice : list value)
  : result (list value) :=
  match values with
  | [] => Ok slice
  | val :: rest =>
      match slice !! i with
      | None => Panicked
      | Some value =>
          match setWithProperType ext elem val value with
          | (_, Some err) => Err (badRequestError err)
          | (value, None) => bindSlice elem rest (S i) (<[i := value]> slice)
          end
      end
  end.

(** [reflect.MakeSlice(typ, len, len)] *)
Definition MakeSlice (elem : type) (len : nat) : list value := replicate len (Zero elem).

(** The body of the [range] loop of [bindQuery] and of [bindForm] (the two
    loops differ in the [location] of one error only): [None] when the loop
    goes on to the next key. *)
Definition bindValues (location : string) (fields : fieldMap) (name : string)
    (values : list string) (sv : value) : option outcome * value :=
  match fields !! name with
  | None => (None, sv)
  | Some field =>
      if negb (CanSet (Value field)) then
        (Some (Failed (badRequestError (getNotSettableParamAtLocationError location name))), sv)
      else
        match slot_type (Value field) with
        | TSlice elem _ =>
            match bindSlice elem values 0 (MakeSlice elem (length values)) with
            | Ok slice => (None, set_at (slot_path (Value field)) (VSlice slice) sv)
            | Err err => (Some (Failed err), sv)
            | Panicked => (Some Panic, sv)
            end
        | _ =>
            match values with
            | [] => (Some Panic, sv)
            | val :: _ =>
                match setSlot (Value field) val sv with
                | None => (Some Panic, sv)
                | Some (sv, Some err) => (Some (Failed (badRequestError err)), sv)
                | Some (sv, None) => (None, sv)
                end
            end
        end
  end.

Fixpoint bindValues_loop (location : string) (fields : fieldMap)
    (params : list (string * list string)) (sv : value) : outcome * value :=
  match params with
  | [] => (Nil, sv)
  | (name, values) :: rest =>
      match bindValues location fields name values sv with
      | (Some o, sv) => (o, sv)
      | (None, sv) => bindValues_loop location fields rest sv
      end
  end.

(** [bindQuery] *)
Definition bindQuery (c : Context) (T : type) (fl : flag) (structField : value)
  : outcome * value :=
  let method := Method c in
  if negb (String.eqb method MethodGet) && negb (String.eqb method MethodDelete)
     && negb (String.eqb method MethodHead) then
    (Failed (badRequestError (getUnsupportedHttpMethodError queryField method)), structField)
  else
    match getStructFields T fl [] structField with
    | (Err err, sv) => (Failed (badRequestError (getInvalidAnonymousFieldError pathField)), sv)
    | (Panicked, sv) => (Panic, sv)
    | (Ok fields, sv) => bindValues_loop queryField fields (QueryParams c) sv
    end.

(** [bindForm] *)
Definition bindForm (c : Context) (T : type) (fl : flag) (structField : value)
  : outcome * value :=
  if String.eqb (Method c) MethodGet then
    (Failed (badRequestError (getUnsupportedHttpMethodError bodyField (Method c))), structField)
  else if ContentLength c =? 0 then (Nil, structField)
  else
    let contentType := Header_Get c HeaderContentType in
    if negb (strings.HasPrefix contentType MIMEApplicationForm)
       && negb (strings.HasPrefix contentType MIMEMultipartForm) then (Nil, structField)
    else
      match getStructFields T fl [] structField with
      | (Err err, sv) => (Failed (badRequestError (getInvalidAnonymousFieldError formField)), sv)
      | (Panicked, sv) => (Panic, sv)
      | (Ok fields, sv) =>
          match FormParams c with
          | inl err => (Failed (badRequestError err), sv)
          | inr values => bindValues_loop formField fields values sv
          end
      end.

(** The loop of [bindHeader] over the entries of [fields]. *)
Fixpoint bindHeader_loop (c : Context) (entries : list (string * structFieldData))
    (sv : value) : outcome * value :=
  match entries with
  | [] => (Nil, sv)
  | (name, field) :: rest =>
      let headerValue := Header_Get c name in
      if String.eqb headerValue "" then bindHeader_loop c rest sv
      else if negb (CanSet (Value field)) then
        (Failed (badRequestError
                   (getNotSettableParamAtLocationError headerField (FieldName field))), sv)
      else
        match setSlot (Value field) headerValue sv with
        | None => (Panic, sv)
        | Some (sv, Some err) => (Failed (badRequestError err), sv)
        | Some (sv, None) => bindHeader_loop c rest sv
        end
  end.

(** [bindHeader]; the [range] over [fields] is taken in the order of
    [map_to_list]. *)
Definition bindHeader (c : Context) (T : type) (fl : flag) (structField : value)
  : outcome * value :=
  match getStructFields T fl [] structField with
  | (Err err, sv) => (Failed (badRequestError (getInvalidAnonymousFieldError headerField)), sv)
  | (Panicked, sv) => (Panic, sv)
  | (Ok fields, sv) => bindHeader_loop c (map_to_list fields) sv
  end.

(** The signature of the entries of [fieldHandlers]: the context, the
    target's struct type and value, and the section as the index and the
    type of its field; the result is the outcome and the target's struct
    value afterwards. *)
Definition handler : Type := Context → type → value → nat → StructField → outcome * value.

(** The four binders that only write below their own section. *)
Definition onSection (bind : Context → type → flag → value → outcome * value) : handler :=
  λ c structType structValue i typeField,
    match Field structValue i with
    | None => (Panic, structValue)
    | Some structField =>
        let '(o, structField) :=
          bind c (Typ typeField) (Field_flag flagNone typeField) structField in
        (o, SetField structValue i structField)
    end.

(** [bindBody].  The not-settable error names the target's type; the model
    has no type names and gives the empty string there (the branch needs an
    unexported field name, which [bodySentFields] is not). *)
Definition bindBody : handler :=
  λ c structType structValue i typeField,
    if String.eqb (Method c) MethodGet then
      (Failed (badRequestError (getUnsupportedHttpMethodError bodyField (Method c))),
       structValue)
    else if ContentLength c =? 0 then (Nil, structValue)
    else
      let contentType := Header_Get c HeaderContentType in
      match Body c, Field structValue i with
      | inl err, _ => (Failed (internalServerError err), structValue)
      | inr body, None => (Panic, structValue)
      | inr body, Some structField =>
          let decoded :=
            if strings.HasPrefix contentType MIMEApplicationJSON then
              json_Unmarshal ext body (Typ typeField) structField
            else if strings.HasPrefix contentType MIMEApplicationXML
                    || strings.HasPrefix contentType MIMETextXML then
              xml_Unmarshal ext body (Typ typeField) structField
            else (structField, None) in
          let structValue := SetField structValue i decoded.1 in
          match decoded.2 with
          | Some err => (Failed (badRequestError err), structValue)
          | None =>
              if negb (bool_decide (Kind (Typ typeField) = reflect.Struct)) then
                (Nil, structValue)
              else
                match FieldByName structType bodySentFields with
                | None => (Nil, structValue)
                | Some (j, field) =>
                    if negb (bool_decide (Kind (Typ field) = reflect.Map)) then
                      (Failed (badRequestError
                                 (getInvalidTypeAtLocationError bodySentFields lookupTypeString)),
                       structValue)
                    else if negb (CanSet_flag (Field_flag flagNone field)) then
                      (Failed (badRequestError
                                 (getNotSettableParamAtLocationError "" bodySentFields)),
                       structValue)
                    else
                      match json_Unmarshal_lookupTable ext body with
                      | inl err => (Failed (badRequestError err), structValue)
                      | inr data =>
                          match Typ field with
                          | TRecursiveLookupTable =>
                              (Nil, SetField structValue j
                                      (VMap (Some (IntoRecursiveLookupTable data))))
                          | _ => (Panic, structValue)
                          end
                      end
                end
          end
      end.

(** [var fieldHandlers = map[string]func(...) error{...}] *)
Definition fieldHandlers (name : string) : option handler :=
  if String.eqb name pathField then Some (onSection bindPath)
  else if String.eqb name queryField then Some (onSection bindQuery)
  else if String.eqb name bodyField then Some bindBody
  else if String.eqb name formField then Some (onSection bindForm)
  else if String.eqb name headerField then Some (onSection bindHeader)
  else None.

(** The state of the loop of [Bind]: [calledHandler] and the target's struct
    value ([None] is the zero [reflect.Value] that [Elem] gives for a nil
    pointer). *)
Definition loopState : Type := bool * option value.

(** The loop of [Bind] from field [i] on: [Some o] when the loop returns
    [o].  Inside the loop the name [i] is the loop counter, so the fallback
    there hands the counter (an [int]) to the default binder. *)
Fixpoint Bind_loop (binder : Binder) (c : Context) (structType : type)
    (fs : list StructField) (i : nat) (st : loopState) : option outcome * loopState :=
  match fs with
  | [] => (None, st)
  | typeField :: rest =>
      match fieldHandlers (Name typeField) with
      | None => Bind_loop binder c structType rest (S i) st
      | Some handler =>
          let kind := indirectKind (Typ typeField) in
          if negb (bool_decide (kind = reflect.Struct))
             && negb (String.eqb (Name typeField) bodyField) then
            if callEchoDefaultBinderOnError binder then
              (Some (defaultBinder binder
                       (IVal (TBasic reflect.Int noMethods) (VInt (Z.of_nat i))) c).1, st)
            else
              (Some (Failed (badRequestError
                               (getInvalidTypeAtLocationError (Name typeField) structTypeString))),
               st)
          else
            match st.2 with
            | None => (Some Panic, st)
            | Some structValue =>
                match Field structValue i with
                | None => (Some Panic, st)
                | Some _ =>
                    match handler c structType structValue i typeField with
                    | (Nil, structValue) =>
                        Bind_loop binder c structType rest (S i) (true, Some structValue)
                    | (Failed err, structValue) =>
                        (Some (Failed (badRequestError err)), (true, Some structValue))
                    | (Panic, structValue) => (Some Panic, (true, Some structValue))
                    end
                end
            end
      end
  end.

(** [func (binder Binder) Bind(i interface{}, c echo.Context) error]: the
    outcome and the target afterwards. *)
Definition Bind (binder : Binder) (i : iface) (c : Context) : outcome * iface :=
  match i with
  | INil => (Panic, i)
  | IVal structType v =>
      match structType with
      | TPtr elem =>
          match elem with
          | TStruct fs _ =>
              let structValue := match v with VPtr target => target | _ => None end in
              match Bind_loop binder c elem fs 0 (false, structValue) with
              | (Some o, st) => (o, IVal structType (VPtr st.2))
              | (None, (calledHandler, structValue)) =>
                  let i := IVal structType (VPtr structValue) in
                  if negb calledHandler && callEchoDefaultBinderOnError binder then
                    defaultBinder binder i c
                  else
                    match validator binder with
                    | Some Struct =>
                        match Struct i with
                        | Some err => (Failed (badRequestError err), i)
                        | None => (Nil, i)
                        end
                    | None => (Nil, i)
                    end
              end
          | _ =>
              if callEchoDefaultBinderOnError binder then defaultBinder binder i c
              else (Failed (badRequestError errorInvalidType), i)
          end
      | _ => (Failed (badRequestError errorInvalidType), i)
      end
  end.

End binder.

(** ** Specification-side definitions *)

(** The recursion of [FieldExists] read on the list of segments. *)
Fixpoint existsKeys (l : RecursiveLookupTable) (keys : list string) : bool :=
  match keys with
  | [] => false
  | k0 :: tail =>
      match entries l !! k0 with
      | None => false
      | Some data => match tail with [] => true | _ => existsKeys data tail end
      end
  end.

(** A segment of a dotted path. *)
Definition dotFree (k : string) : Prop := strings.contains "." k = false.

Definition firstSegment (key : string) : string :=
  default "" (head (strings.Split key ".")).

(** The identifier of a leaf field: its binding tag, its name when the tag is
    empty, none when the tag is the exclusion sentinel. *)
Definition identifier (f : StructField) : option string :=
  let tag := Tag_Get (Tag f) TagIdentifier in
  if String.eqb tag "" then Some (Name f)
  else if String.eqb tag "-" then None
  else Some tag.

(** A field the flattener descends into, and a field it maps. *)
Definition isRecord (f : StructField) : Prop := indirectKind (Typ f) = reflect.Struct.
Definition isLeaf (f : StructField) : Prop := indirectKind (Typ f) ≠ reflect.Struct.

Definition derefType (t : type) : type :=
  match t with
  | TPtr elem => elem
  | _ => t
  end.

(** The field that a path of indices names below a section of type [T]. *)
Fixpoint field_at (q : list nat) (T : type) : option StructField :=
  match q with
  | [] => None
  | i :: rest =>
      match structFields (derefType T) !! i with
      | Some f => match rest with [] => Some f | _ => field_at rest (Typ f) end
      | None => None
      end
  end.

(** The field reached after the first index of a path. *)
Definition subField (f : StructField) (rest : list nat) : option StructField :=
  match rest with
  | [] => Some f
  | _ => field_at rest (Typ f)
  end.

Definition mkData (f : StructField) (fl : flag) (p : list nat) : structFieldData :=
  {| FieldName := Name f;
     Value := {| slot_path := p; slot_type := Typ f; slot_flag := Field_flag fl f |} |}.

(** The slots of a section in declaration order, as the specification
    describes flattening: the fields are visited in order, a sub-record is
    expanded in place, a leaf contributes its identifier unless it is
    excluded. *)
Fixpoint declared_loop (rec : type → flag → list nat → list (string * structFieldData))
    (fs : list StructField) (i : nat) (fl : flag) (p : list nat)
  : list (string * structFieldData) :=
  match fs with
  | [] => []
  | f :: rest =>
      (if bool_decide (indirectKind (Typ f) = reflect.Struct) then
         match Typ f with
         | TPtr elem => rec elem (Field_flag fl f) (p ++ [i])
         | _ => rec (Typ f) (Field_flag fl f) (p ++ [i])
         end
       else
         match identifier f with
         | Some id => [(id, mkData f fl (p ++ [i]))]
         | None => []
         end)
      ++ declared_loop rec rest (S i) fl p
  end.

Fixpoint declared (T : type) (fl : flag) (p : list nat) {struct T}
  : list (string * structFieldData) :=
  match T with
  | TStruct fs _ => declared_loop declared fs 0 fl p
  | _ => []
  end.

(** A bind target as the specification asks for it. *)
Definition nonNilPointerToRecord (i : iface) : Prop :=
  ∃ fs ms structValue, i = IVal (TPtr (TStruct fs ms)) (VPtr (Some structValue)).

Definition withQueryParams (c : Context) (params : list (string * list string)) : Context :=
  {| Method := Method c; ContentLength := ContentLength c; Header_Get := Header_Get c;
     Body := Body c; ParamNames := ParamNames c; ParamValues := ParamValues c;
     QueryParams := params; FormParams := FormParams c |}.

Definition withFormParams (c : Context) (params : list (string * list string)) : Context :=
  {| Method := Method c; ContentLength := ContentLength c; Header_Get := Header_Get c;
     Body := Body c; ParamNames := ParamNames c; ParamValues := ParamValues c;
     QueryParams := QueryParams c; FormParams := inr params |}.


(** Neither path runs through the other. *)
Definition incomparable (q q' : list nat) : Prop :=
  ¬ q `prefix_of` q' ∧ ¬ q' `prefix_of` q.

(** No slot of the map leads to, or through, [q]. *)
Definition clearOf (fields : fieldMap) (q : list nat) : Prop :=
  ∀ id d, fields !! id = Some d → incomparable (slot_path (Value d)) q.

(** The field is a nil pointer the flattener allocates. *)
Definition isNilPtr (T : type) (x : value) : option type :=
  match T, x with
  | TPtr elem, VPtr None => Some elem
  | _, _ => None
  end.

(** What a run of the flattener on a section of type [T] guarantees: the
    section is still a struct, its leaves keep their values, the only error
    is the one for an embedded non-record, and on success the map is the
    declaration list read from the end and every declared field exists. *)
Definition flattenSpec (T : type) : Prop :=
  ∀ fl p v r v', getStructFields T fl p v = (r, v') →
    (deref v = v → deref v' = v')
    ∧ (∀ q f x, field_at q T = Some f → isLeaf f → get_at q v = Some x → get_at q v' = Some x)
    ∧ (∀ e, r = Err e → e = errorInvalidAnonymousField)
    ∧ (∀ fields, r = Ok fields →
         fields = list_to_map (reverse (declared T fl p))
         ∧ ∀ q f, field_at q T = Some f → is_Some (get_at q v')).

(** The same for the loop from field [i] on, started with the map [acc]. *)
Definition loopPost (fs : list StructField) (i : nat) (fl : flag) (p : list nat)
    (acc : fieldMap) (v : value) (r : result fieldMap) (v' : value) : Prop :=
  (deref v = v → deref v' = v')
  ∧ (∀ j, (j < i ∨ i + length fs ≤ j)%nat → Field v' j = Field v j)
  ∧ (∀ k f rest g x, fs !! k = Some f → subField f rest = Some g → isLeaf g →
       get_at ((i + k)%nat :: rest) v = Some x → get_at ((i + k)%nat :: rest) v' = Some x)
  ∧ (∀ e, r = Err e → e = errorInvalidAnonymousField)
  ∧ (∀ fields, r = Ok fields →
       fields = list_to_map (reverse (declared_loop declared fs i fl p)) ∪ acc
       ∧ ∀ k f rest g, fs !! k = Some f → subField f rest = Some g →
           is_Some (get_at ((i + k)%nat :: rest) v')).

Definition loopSpec (fs : list StructField) : Prop :=
  ∀ i fl p acc v r v',
    getStructFields_loop getStructFields fs i fl p acc v = (r, v') →
    loopPost fs i fl p acc v r v'.

(** Every declared slot is a leaf field of the section, under its
    identifier. *)
Definition declaredSpec (T : type) : Prop :=
  ∀ fl p id d, (id, d) ∈ declared T fl p →
    ∃ q f, slot_path (Value d) = p ++ q ∧ field_at q T = Some f ∧ isLeaf f
           ∧ identifier f = Some id ∧ slot_type (Value d) = Typ f ∧ FieldName d = Name f.

(** What a successful run leaves in a slice-typed slot for the [values] of
    its key: a slice of as many elements, element [i] the coercion of value
    [i] into a zero element. *)
Definition sliceBound (ext : Externals) (elem : type) (values : list string)
    (stored : option value) : Prop :=
  ∃ slice, stored = Some (VSlice slice) ∧ length slice = length values
    ∧ ∀ i val, values !! i = Some val →
        ∃ x, setWithProperType ext elem val (Zero elem) = (x, None) ∧ slice !! i = Some x.

(** The request is one whose form [bindForm] reads. *)
Definition isFormRequest (c : Context) : Prop :=
  ContentLength c ≠ 0
  ∧ (strings.HasPrefix (Header_Get c HeaderContentType) MIMEApplicationForm = true
     ∨ strings.HasPrefix (Header_Get c HeaderContentType) MIMEMultipartForm = true).

(** *** Definitions for the further properties *)

(** The width in bits of the integers of a kind, as [setWithProperType]
    should respect it ([int] and [uint] are 64 bits wide, see
    [strconv.IntSize]). *)
Definition intWidth (k : reflect.Kind) : option Z :=
  match k with
  | reflect.Int8 => Some 8
  | reflect.Int16 => Some 16
  | reflect.Int32 => Some 32
  | reflect.Int | reflect.Int64 => Some 64
  | _ => None
  end.

Definition uintWidth (k : reflect.Kind) : option Z :=
  match k with
  | reflect.Uint8 => Some 8
  | reflect.Uint16 => Some 16
  | reflect.Uint32 => Some 32
  | reflect.Uint | reflect.Uint64 => Some 64
  | _ => None
  end.

(** The kinds whose parser is part of the package or of [strconv]'s integer
    and boolean functions. *)
Definition parsedKinds : list reflect.Kind :=
  [reflect.Bool; reflect.Int; reflect.Int8; reflect.Int16; reflect.Int32; reflect.Int64;
   reflect.Uint; reflect.Uint8; reflect.Uint16; reflect.Uint32; reflect.Uint64;
   reflect.String].

(** The slots of different identifiers lie apart, and every slot leads to a
    field of the section: what the loops of the binders rely on, and what a
    successful run of the flattener provides. *)
Definition slotsApart (fields : fieldMap) : Prop :=
  ∀ id d id' d', fields !! id = Some d → fields !! id' = Some d' → id' ≠ id →
    incomparable (slot_path (Value d')) (slot_path (Value d)).

Definition slotsValid (fields : fieldMap) (sv : value) : Prop :=
  ∀ id d, fields !! id = Some d → is_Some (get_at (slot_path (Value d)) sv).

(** The keys of a request that match a slot. *)
Definition matched (fields : fieldMap) (params : list (string * list string))
  : list (string * list string) :=
  filter (λ kv, is_Some (fields !! kv.1)) params.

Definition withDefaultBinder (binder : Binder)
    (defaultBinder : iface → Context → outcome * iface) : Binder :=
  {| validator := validator binder;
     callEchoDefaultBinderOnError := callEchoDefaultBinderOnError binder;
     defaultBinder := defaultBinder |}.

(** What the last lines of [Bind] return for the target [i]: the verdict of
    the validator, when there is one. *)
Definition validated (binder : Binder) (i : iface) : outcome :=
  match validator binder with
  | Some Struct =>
      match Struct i with
      | Some err => Failed (badRequestError err)
      | None => Nil
      end
  | None => Nil
  end.

(** A field of the target that [Bind] does not dispatch. *)
Definition unrecognised (ext : Externals) (g : StructField) : Prop :=
  fieldHandlers ext (Name g) = None.

(** Whether the flattener can walk a fresh value of a record type: every
    pointer to a record on the way can be set (the flattener allocates it),
    and every field of struct kind is a record of the same sort. *)
Fixpoint allocatable_loop (rec : type → flag → bool) (fs : list StructField) (fl : flag)
  : bool :=
  match fs with
  | [] => true
  | f :: rest =>
      (if bool_decide (indirectKind (Typ f) = reflect.Struct) then
         match Typ f with
         | TPtr elem => CanSet_flag (Field_flag fl f) && rec elem (Field_flag fl f)
         | _ => rec (Typ f) (Field_flag fl f)
         end
       else true)
      && allocatable_loop rec rest fl
  end.

Fixpoint allocatable (T : type) (fl : flag) {struct T} : bool :=
  match T with
  | TStruct fs _ => allocatable_loop allocatable fs fl
  | _ => false
  end.

(** Every key comes with at least one value, as in a parsed [url.Values]. *)
Definition haveValues (params : list (string * list string)) : Prop :=
  ∀ name values, (name, values) ∈ params → values ≠ [].

(** A request as echo hands it over: a value for every path parameter name
    and at least one value for every key of the query and of the form. *)
Definition wellFormedRequest (c : Context) : Prop :=
  (length (ParamNames c) ≤ length (ParamValues c))%nat
  ∧ haveValues (QueryParams c)
  ∧ ∀ params, FormParams c = inr params → haveValues params.

(** A field of the target that [Bind] can handle on a fresh target: a field
    it does not dispatch, a Body section, a section that is not of struct
    kind (which it rejects), or a section that is a record the flattener
    can walk. *)
Definition plainSection (ext : Externals) (g : StructField) : Prop :=
  unrecognised ext g
  ∨ Name g = bodyField
  ∨ indirectKind (Typ g) ≠ reflect.Struct
  ∨ allocatable (Typ g) (Field_flag flagNone g) = true.

(** The sent-fields slot, when the target has a field of that name and of
    map kind, is of the presence-table type. *)
Definition sentFieldsTyped (T : type) : Prop :=
  ∀ j g, FieldByName T bodySentFields = Some (j, g) →
         Kind (Typ g) = reflect.Map → Typ g = TRecursiveLookupTable.

(** The name starts with an ASCII character, as every field name of this
    package, of its tests and of its README does.  For such a name
    [IsExported] is what Go answers. *)
Definition asciiInitial (name : string) : bool :=
  match name with
  | EmptyString => false
  | String c _ => (N_of_ascii c <? 128)%N
  end.

(** A lookup by [name] in a struct with the fields [fs] is settled among its
    own fields: the struct has an own field of that name, or none of its
    fields is embedded.  Then [FieldByName] above is what reflect's
    [Type.FieldByName] answers, and [Value.FieldByName] follows no embedded
    pointer. *)
Definition ownFieldLookup (fs : list StructField) (name : string) : Prop :=
  name ∈ Name <$> fs ∨ Forall (λ g, Anonymous g = false) fs.

(** ** Example data: the records and requests of binder_test.go *)

Definition tString : type := TBasic reflect.String noMethods.
Definition tInt : type := TBasic reflect.Int noMethods.
Definition tBool : type := TBasic reflect.Bool noMethods.

Definition field (name : string) (t : type) : StructField := mkStructField name t [] false.
Definition tagged (name : string) (t : type) (tag : string) : StructField :=
  mkStructField name t [(TagIdentifier, tag)] false.
Definition embedded (name : string) (t : type) : StructField := mkStructField name t [] true.
Definition record (fs : list StructField) : type := TStruct fs noMethods.

(** A request with nothing in it. *)
Definition request (method : string) : Context :=
  {| Method := method; ContentLength := 0; Header_Get := λ _, ""; Body := inr "";
     ParamNames := []; ParamValues := []; QueryParams := []; FormParams := inr [] |}.

Definition withParams (c : Context) (names values : list string) : Context :=
  {| Method := Method c; ContentLength := ContentLength c; Header_Get := Header_Get c;
     Body := Body c; ParamNames := names; ParamValues := values;
     QueryParams := QueryParams c; FormParams := FormParams c |}.

Definition withHeaders (c : Context) (headers : list (string * string)) : Context :=
  {| Method := Method c; ContentLength := ContentLength c;
     Header_Get := λ name, Tag_Get headers name;
     Body := Body c; ParamNames := ParamNames c; ParamValues := ParamValues c;
     QueryParams := QueryParams c; FormParams := FormParams c |}.

Definition withBody (c : Context) (contentType body : string) : Context :=
  {| Method := Method c; ContentLength := Z.of_nat (String.length body);
     Header_Get := λ name, if String.eqb name HeaderContentType then contentType else "";
     Body := inr body; ParamNames := ParamNames c; ParamValues := ParamValues c;
     QueryParams := QueryParams c; FormParams := FormParams c |}.

Definition target (T : type) : iface := IVal (TPtr T) (VPtr (Some (Zero T))).

(** [type pathNormalTester struct { Path struct { Name string; Id int; Unused *string } }] *)
Definition pathNormalTester : type :=
  record [field "Path" (record [field "Name" tString; field "Id" tInt;
                                field "Unused" (TPtr tString)])].

(** [type validEmbedded struct], with its excluded field [Unbind]. *)
Definition validEmbedded : type :=
  record [tagged "Key1" tString "key1"; tagged "Key2" tInt "key2";
          tagged "Unbind" tString "-"].

Definition unbindField : StructField := tagged "Unbind" tString "-".

(** The sections of [pathValidEmbeddedTester] and [queryValidEmbeddedTester]. *)
Definition validEmbeddedSection : type := record [embedded "validEmbedded" validEmbedded].

(** The section after the test has stored ["BLABLA"] in [Unbind]. *)
Definition validEmbeddedValue : value :=
  VStruct [VStruct [VString ""; VInt 0; VString "BLABLA"]].

(** [type queryTester struct { Query struct { ...; OtherData []int } }], its last field. *)
Definition dataSection : type := record [field "Data" (TSlice tInt noMethods)].

Definition dataSlot : structFieldData :=
  mkData (field "Data" (TSlice tInt noMethods)) flagNone [0%nat].

(** A section with a scalar field for the key ["k"]. *)
Definition scalarSection : type := record [tagged "K" tInt "k"].

Definition scalarSlot : structFieldData := mkData (tagged "K" tInt "k") flagNone [0%nat].

(** Two embedded records that declare the same identifier. *)
Definition collidingSection : type :=
  record [embedded "First" (record [tagged "A" tString "id"]);
          embedded "Second" (record [tagged "B" tInt "id"])].

(** [type headerTester struct], whose [*AnotherEmbeddedHeader] starts nil. *)
Definition headerTester : type :=
  record [field "Header"
            (record [embedded "embeddedHeader" (record [tagged "Omer" tString "harari"]);
                     embedded "AnotherEmbeddedHeader"
                       (TPtr (record [tagged "Yaeli" tString "yerushalmi"]));
                     field "Name" tString;
                     tagged "Build" tInt "custom"])].

(** The body of [TestBodySentFieldsBinder]. *)
Definition quoted (s : string) : string :=
  String (ascii_of_nat 34) (s +:+ String (ascii_of_nat 34) "").

Definition sentFieldsBody : string :=
  "{" +:+ quoted "name" +:+ ":" +:+ quoted "Omri" +:+ "," +:+ quoted "age" +:+ ":15,"
  +:+ quoted "nested" +:+ ":{" +:+ quoted "field" +:+ ":true," +:+ quoted "nested"
  +:+ ":{" +:+ quoted "field" +:+ ":false}}}".

Definition sentFieldsTable : lookupTable :=
  {[ "name" := JString "Omri"; "age" := JNumber "15";
     "nested" := JObject {[ "field" := JBool true;
                            "nested" := JObject {[ "field" := JBool false ]} ]} ]}.

(** [type bodySentFieldsTester struct] and the fields of its Body section. *)
Definition sentFieldsBodyFields : list StructField :=
  [field "Name" tString; field "Age" tInt;
   field "Nested" (record [field "Field" tBool;
                           field "AnotherNested" (record [field "Field" tBool])])].

Definition sentFieldsFields : list StructField :=
  [field "Body" (record sentFieldsBodyFields);
   field "BodySentFields" TRecursiveLookupTable].

Definition bodySentFieldsTester : type := record sentFieldsFields.

Definition sentFieldsDecoded : value :=
  VStruct [VString "Omri"; VInt 15; VStruct [VBool true; VStruct [VBool false]]].

(** [type bodyDifferentType struct { Body []int }] with a sent-fields slot. *)
Definition bodySliceTester : type :=
  record [field "Body" (TSlice tInt noMethods); field "BodySentFields" TRecursiveLookupTable].

(** A record whose Path section is not a record, before a Body section. *)
Definition badPathTester : type :=
  record [field "Path" tInt; field "Body" (record []);
          field "BodySentFields" TRecursiveLookupTable].

(** The external functions on the inputs of the examples: the decoders know
    the two bodies used below, the float parser knows nothing. *)
Definition exampleExternals : Externals :=
  {| ParseFloat := λ s _, inl (NumError "ParseFloat" s ErrSyntax);
     json_Unmarshal := λ body T v,
       if String.eqb body sentFieldsBody then (sentFieldsDecoded, None)
       else if String.eqb body "[1,2]" then (VSlice [VInt 1; VInt 2], None)
       else (v, Some (ExternalError "json: cannot unmarshal"));
     xml_Unmarshal := λ body T v, (v, Some (ExternalError "xml: cannot unmarshal"));
     json_Unmarshal_lookupTable := λ body,
       if String.eqb body sentFieldsBody then inr sentFieldsTable
       else inl (ExternalError "json: cannot unmarshal") |}.

(** A binder as [New()] makes it, with a validator that accepts and a default
    binder that does nothing, and the same with the fallback switched on. *)
Definition exampleBinder : Binder := New (λ _, None) (λ i _, (Nil, i)).
Definition fallbackBinder : Binder := CallEchoDefaultBinderOnError exampleBinder true.

Definition MethodPost : string := "POST".

(** *** Further example data *)

(** The Path section of [pathNormalTester]. *)
Definition pathSection : type :=
  record [field "Name" tString; field "Id" tInt; field "Unused" (TPtr tString)].

(** The map of the section of the embedded testers. *)
Definition validEmbeddedFields : fieldMap :=
  list_to_map (reverse (declared validEmbeddedSection flagNone [])).

Definition key2Field : StructField := tagged "Key2" tInt "key2".

(** A section with an unexported leaf. *)
Definition unexportedSection : type := record [tagged "secret" tString "s"].

Definition unexportedSlot : structFieldData :=
  mkData (tagged "secret" tString "s") flagNone [0%nat].

(** A request whose body cannot be read. *)
Definition unreadableBody : Context :=
  {| Method := MethodPost; ContentLength := 5; Header_Get := λ _, "";
     Body := inl (ExternalError "unexpected EOF");
     ParamNames := []; ParamValues := []; QueryParams := []; FormParams := inr [] |}.

(** A record whose Path section is a pointer to a record. *)
Definition pointerPathTester : type :=
  record [field "Path" (TPtr (record [field "Name" tString]))].

(** A record with a Query section and a field that is no section. *)
Definition queryWithOther : type := record [field "Query" scalarSection; field "Other" tInt].

(** [type unhandledStructsTester struct] *)
Definition unhandledStructsTester : type :=
  record [field "ShouldNotBeHandled" (record [field "Id" tInt]);
          field "ShouldNotBeHandled2" (record [field "Name" tString])].

(** The Header section of [headerTester]. *)
Definition headerSection : type :=
  record [embedded "embeddedHeader" (record [tagged "Omer" tString "harari"]);
          embedded "AnotherEmbeddedHeader" (TPtr (record [tagged "Yaeli" tString "yerushalmi"]));
          field "Name" tString;
          tagged "Build" tInt "custom"].

(** * Properties *)

(** ** strconv on the numbers of the tests *)

Example ParseInt_150 : strconv.ParseInt "150" 0 = inr 150.
Proof. reflexivity. Qed.

Example ParseInt_int8_overflow :
  strconv.ParseInt "150" 8 = inl (NumError "ParseInt" "150" ErrRange).
Proof. reflexivity. Qed.

Example ParseInt_int8_min : strconv.ParseInt "-128" 8 = inr (-128).
Proof. reflexivity. Qed.

Example ParseUint_sign : strconv.ParseUint "+1" 8 = inl (NumError "ParseUint" "+1" ErrSyntax).
Proof. reflexivity. Qed.

Section properties.
Context (ext : Externals).

(** ** The presence table *)

Lemma Split_dotFree k : dotFree k → strings.Split k "." = [k].
Proof.
  unfold dotFree. induction k as [|c k IH]; simpl; [done|].
  intros [Hc Hk]%orb_false_iff. rewrite Hc, (IH Hk). done.
Qed.

Lemma Split_append k s :
  dotFree k → strings.Split (k +:+ String "." s) "." = k :: strings.Split s ".".
Proof.
  unfold dotFree. induction k as [|c k IH]; simpl; [done|].
  intros [Hc Hk]%orb_false_iff. rewrite Hc, (IH Hk). done.
Qed.

Lemma Split_Join keys :
  keys ≠ [] → Forall dotFree keys → strings.Split (strings.Join keys ".") "." = keys.
Proof.
  induction keys as [|k keys IH]; [done|]. intros _ Hall.
  apply Forall_cons in Hall as [Hk Hall].
  destruct keys as [|k' keys]; simpl.
  - by apply Split_dotFree.
  - rewrite Split_append by done. f_equal. by apply IH.
Qed.

Lemma FieldExists_fuel_keys fuel l keys :
  keys ≠ [] → Forall dotFree keys → (length keys ≤ fuel)%nat →
  FieldExists_fuel fuel l (strings.Join keys ".") = existsKeys l keys.
Proof.
  revert l keys. induction fuel as [|fuel IH]; intros l keys Hne Hall Hlen.
  - destruct keys; [done|]. simpl in Hlen. lia.
  - cbn [FieldExists_fuel]. rewrite Split_Join by done.
    destruct keys as [|k0 tail]; [done|]. cbn [existsKeys].
    destruct (entries l !! k0) as [data|]; [|done].
    destruct tail as [|k1 tail].
    + done.
    + rewrite bool_decide_eq_false_2 by (simpl; lia).
      apply Forall_cons in Hall as [_ Hall].
      apply IH; [done|done|]. simpl in *. lia.
Qed.

Lemma String_length_app s1 s2 :
  String.length (s1 +:+ s2) = (String.length s1 + String.length s2)%nat.
Proof. induction s1 as [|c s1 IH]; simpl; [done|]. by rewrite IH. Qed.

Lemma Join_length keys : (length keys ≤ S (String.length (strings.Join keys ".")))%nat.
Proof.
  induction keys as [|k keys IH]; simpl; [lia|].
  destruct keys as [|k' keys]; [simpl; lia|].
  rewrite String_length_app. cbn [String.length length] in *. lia.
Qed.

Lemma FieldExists_keys l keys :
  keys ≠ [] → Forall dotFree keys →
  FieldExists l (strings.Join keys ".") = existsKeys l keys.
Proof.
  intros. apply FieldExists_fuel_keys; [done|done|]. apply Join_length.
Qed.

Lemma entries_Into_lookup (payload : lookupTable) k :
  entries (IntoRecursiveLookupTable payload) !! k
  = IntoRecursiveLookupTable_value <$> payload !! k.
Proof. unfold IntoRecursiveLookupTable. simpl. apply lookup_fmap. Qed.

Lemma IntoRecursiveLookupTable_value_remarshal v :
  IntoRecursiveLookupTable_value v
  = match remarshal v with
    | Some lut => IntoRecursiveLookupTable lut
    | None => RLT ∅
    end.
Proof.
  destruct v; simpl; done || (unfold IntoRecursiveLookupTable; by rewrite fmap_empty).
Qed.

Lemma existsKeys_value_not_object v keys :
  (∀ m, v ≠ JObject m) → existsKeys (IntoRecursiveLookupTable_value v) keys = false.
Proof.
  intros Hv. destruct keys as [|k keys]; [done|].
  destruct v; simpl; try done. by destruct (Hv m).
Qed.

Lemma existsKeys_present (payload : lookupTable) keys :
  existsKeys (IntoRecursiveLookupTable payload) keys = true ↔ present keys payload.
Proof.
  revert payload. induction keys as [|k0 tail IH]; intros payload; [done|].
  cbn [existsKeys present]. rewrite entries_Into_lookup.
  destruct tail as [|k1 tail].
  - destruct (payload !! k0); simpl; split; (done || by intros [??] || eauto).
  - destruct (payload !! k0) as [v|] eqn:Hv; cbn -[existsKeys present].
    + destruct v as [|b|n|s|l|m];
        try (rewrite existsKeys_value_not_object by done;
             split; [done|]; by intros (m' & [=] & _)).
      change (IntoRecursiveLookupTable_value (JObject m)) with (IntoRecursiveLookupTable m).
      rewrite IH. split; [eauto|]. by intros (m' & [= <-] & ?).
    + split; [done|]. by intros (m & ? & _).
Qed.

Lemma FieldExists_first_segment (payload : lookupTable) key :
  payload !! firstSegment key = None →
  FieldExists (IntoRecursiveLookupTable payload) key = false.
Proof.
  unfold FieldExists, firstSegment. cbn [FieldExists_fuel].
  destruct (strings.Split key ".") as [|k0 tail]; [done|]. simpl.
  intros Hk0. by rewrite lookup_fmap, Hk0.
Qed.

(** C7: on the presence table built from a decoded payload, the query
    ["a.b.c"] (three segments without dots) is true exactly when the payload
    has an object at ["a"] that has an object at ["b"] that has a key
    ["c"]; and a query whose first segment is no key of the payload is
    false. *)
Theorem FieldExists_dotted_path (payload : lookupTable) a b c :
  dotFree a → dotFree b → dotFree c →
  (FieldExists (IntoRecursiveLookupTable payload) (strings.Join [a; b; c] ".") = true
   ↔ ∃ ma mb, payload !! a = Some (JObject ma) ∧ ma !! b = Some (JObject mb)
              ∧ is_Some (mb !! c))
  ∧ (∀ key, payload !! firstSegment key = None →
            FieldExists (IntoRecursiveLookupTable payload) key = false).
Proof.
  intros Ha Hb Hc. split; [|apply FieldExists_first_segment].
  rewrite FieldExists_keys, existsKeys_present by (done || by repeat constructor).
  simpl. split.
  - intros (ma & Hma & mb & Hmb & Hmc). eauto.
  - intros (ma & mb & Hma & Hmb & Hmc). eauto.
Qed.

(** ** Induction on types

    [type] is nested through the list of fields of a struct; the induction
    principle gives the property for the type of every field. *)
Lemma type_nested_ind (P : type → Prop) :
  (∀ k ms, P (TBasic k ms)) →
  (∀ elem, P elem → P (TPtr elem)) →
  (∀ elem ms, P elem → P (TSlice elem ms)) →
  (∀ fs ms, Forall (λ f, P (Typ f)) fs → P (TStruct fs ms)) →
  P TRecursiveLookupTable →
  ∀ t, P t.
Proof.
  intros HBasic HPtr HSlice HStruct HLookup. fix IH 1. intros [k ms|elem|elem ms|fs ms|].
  - apply HBasic.
  - apply HPtr, IH.
  - apply HSlice, IH.
  - apply HStruct. induction fs as [|f rest IHfs]; constructor; [|apply IHfs].
    destruct f as [n t tg a]. apply IH.
  - apply HLookup.
Qed.

(** Induction that also gives the property for the target of a pointer. *)
Lemma type_deref_ind (P : type → Prop) :
  (∀ k ms, P (TBasic k ms)) →
  (∀ elem, P elem → P (TPtr elem)) →
  (∀ elem ms, P elem → P (TSlice elem ms)) →
  (∀ fs ms, Forall (λ f, P (Typ f) ∧ P (derefType (Typ f))) fs → P (TStruct fs ms)) →
  P TRecursiveLookupTable →
  ∀ t, P t.
Proof.
  intros HB HP HS HT HL t.
  cut (P t ∧ P (derefType t)); [tauto|].
  induction t using type_nested_ind; simpl; intuition auto.
Qed.


(** One step of the loop, case by case. *)
Lemma getStructFields_loop_nil rec i fl p fields v :
  getStructFields_loop rec [] i fl p fields v = (Ok fields, v).
Proof. done. Qed.

Lemma getStructFields_loop_none rec f rest i fl p fields v :
  Field v i = None →
  getStructFields_loop rec (f :: rest) i fl p fields v = (Panicked, v).
Proof. intros Hx. cbn [getStructFields_loop]. by rewrite Hx. Qed.

Lemma getStructFields_loop_anonymous_leaf rec f rest i fl p fields v x :
  Field v i = Some x → isLeaf f → Anonymous f = true →
  getStructFields_loop rec (f :: rest) i fl p fields v
  = (Err errorInvalidAnonymousField, v).
Proof.
  intros Hx Hleaf Hanon. cbn [getStructFields_loop]. rewrite Hx, Hanon.
  unfold isLeaf in Hleaf. by rewrite (bool_decide_eq_false_2 _ Hleaf).
Qed.

Lemma getStructFields_loop_leaf rec f rest i fl p fields v x :
  Field v i = Some x → isLeaf f → Anonymous f = false →
  getStructFields_loop rec (f :: rest) i fl p fields v
  = getStructFields_loop rec rest (S i) fl p
      (match identifier f with
       | Some id => <[id := mkData f fl (p ++ [i])]> fields
       | None => fields
       end) v.
Proof.
  intros Hx Hleaf Hanon. cbn [getStructFields_loop]. rewrite Hx, Hanon.
  unfold isLeaf in Hleaf. rewrite (bool_decide_eq_false_2 _ Hleaf).
  cbn [andb]. unfold identifier, mkData.
  destruct (String.eqb (Tag_Get (Tag f) TagIdentifier) ""); [done|].
  destruct (String.eqb (Tag_Get (Tag f) TagIdentifier) "-"); done.
Qed.

Lemma getStructFields_loop_record rec f rest i fl p fields v x :
  Field v i = Some x → isRecord f →
  getStructFields_loop rec (f :: rest) i fl p fields v
  = match Typ f, x with
    | TPtr elem, VPtr None =>
        if CanSet_flag (Field_flag fl f) then
          let r := rec elem (Field_flag fl f) (p ++ [i]) (Zero elem) in
          let v := SetField v i (VPtr (Some r.2)) in
          match r.1 with
          | Ok tempFields => getStructFields_loop rec rest (S i) fl p (tempFields ∪ fields) v
          | Err err => (Err err, v)
          | Panicked => (Panicked, v)
          end
        else (Panicked, v)
    | _, _ =>
        let r := rec (Typ f) (Field_flag fl f) (p ++ [i]) x in
        let v := SetField v i r.2 in
        match r.1 with
        | Ok tempFields => getStructFields_loop rec rest (S i) fl p (tempFields ∪ fields) v
        | Err err => (Err err, v)
        | Panicked => (Panicked, v)
        end
    end.
Proof.
  intros Hx Hrec. cbn [getStructFields_loop]. rewrite Hx.
  unfold isRecord in Hrec. rewrite (bool_decide_eq_true_2 _ Hrec).
  rewrite andb_false_r. destruct (Typ f); try done.
Qed.

(** *** Fields and paths *)

Lemma Field_Some_struct v i x : Field v i = Some x → ∃ vs, v = VStruct vs ∧ vs !! i = Some x.
Proof. destruct v; try done. eauto. Qed.

Lemma Field_SetField_eq v i x y : Field v i = Some x → Field (SetField v i y) i = Some y.
Proof.
  intros (vs & -> & Hx)%Field_Some_struct. simpl.
  apply list_lookup_insert_eq. by eapply lookup_lt_Some.
Qed.

Lemma Field_SetField_ne v i j y : i ≠ j → Field (SetField v i y) j = Field v j.
Proof. intros Hne. destruct v; try done. simpl. by apply list_lookup_insert_ne. Qed.

Lemma SetField_id v i x : Field v i = Some x → SetField v i x = v.
Proof. intros (vs & -> & Hx)%Field_Some_struct. simpl. f_equal. by apply list_insert_id. Qed.

Lemma get_at_cons i rest v :
  get_at (i :: rest) v = Field (deref v) i ≫= get_at rest.
Proof. simpl. by destruct (Field (deref v) i). Qed.

Lemma get_at_struct i rest vs :
  get_at (i :: rest) (VStruct vs) = vs !! i ≫= get_at rest.
Proof. by rewrite get_at_cons. Qed.

Lemma get_at_ptr_Some q y :
  q ≠ [] → deref y = y → get_at q (VPtr (Some y)) = get_at q y.
Proof.
  destruct q as [|i rest]; [done|]. intros _ Hy. rewrite !get_at_cons. by rewrite Hy.
Qed.

Lemma get_at_ptr_None q : q ≠ [] → get_at q (VPtr None) = None.
Proof. by destruct q. Qed.

Lemma field_at_cons i rest T :
  field_at (i :: rest) T = structFields (derefType T) !! i ≫= λ f, subField f rest.
Proof. simpl. destruct (structFields (derefType T) !! i); [|done]. by destruct rest. Qed.

Lemma field_at_isRecord q T f : q ≠ [] → field_at q T = Some f → indirectKind T = reflect.Struct.
Proof.
  destruct q as [|i rest]; [done|]. intros _. rewrite field_at_cons.
  destruct T as [k ms|elem|elem ms|fs ms|]; simpl; try done.
  destruct elem; simpl; try done.
Qed.

Lemma field_at_ptr q elem : Kind elem = reflect.Struct → field_at q (TPtr elem) = field_at q elem.
Proof.
  intros Hk. destruct q as [|i rest]; [done|]. rewrite !field_at_cons. simpl.
  destruct elem; try done.
Qed.

(** *** The flattener against the declaration list *)

Lemma subField_leaf f rest g : isLeaf f → subField f rest = Some g → rest = [] ∧ g = f.
Proof.
  intros Hleaf. destruct rest as [|j rest]; simpl; [by intros [= ->]|].
  intros Hg. destruct Hleaf. by eapply (field_at_isRecord (j :: rest)).
Qed.

Lemma declared_loop_cons rec f rest i fl p :
  declared_loop rec (f :: rest) i fl p
  = (if bool_decide (indirectKind (Typ f) = reflect.Struct) then
       match Typ f with
       | TPtr elem => rec elem (Field_flag fl f) (p ++ [i])
       | _ => rec (Typ f) (Field_flag fl f) (p ++ [i])
       end
     else match identifier f with
          | Some id => [(id, mkData f fl (p ++ [i]))]
          | None => []
          end) ++ declared_loop rec rest (S i) fl p.
Proof. done. Qed.

Lemma list_to_map_reverse_app (l1 l2 : list (string * structFieldData)) (acc : fieldMap) :
  list_to_map (reverse (l1 ++ l2)) ∪ acc
  = list_to_map (reverse l2) ∪ (list_to_map (reverse l1) ∪ acc).
Proof. by rewrite reverse_app, list_to_map_app, (assoc_L (∪)). Qed.

(** The loop carries on after field [i] has been dealt with. *)
Lemma loopSpec_continue f rest i fl p acc acc1 v v1 r v' :
  loopSpec rest →
  getStructFields_loop getStructFields rest (S i) fl p acc1 v1 = (r, v') →
  deref v = v →
  deref v1 = v1 →
  (∀ j, j ≠ i → Field v1 j = Field v j) →
  (∀ rest' g x, subField f rest' = Some g → isLeaf g →
     get_at (i :: rest') v = Some x → get_at (i :: rest') v1 = Some x) →
  ((∃ fields, r = Ok fields) →
     acc1 = list_to_map
              (reverse (if bool_decide (indirectKind (Typ f) = reflect.Struct) then
                          match Typ f with
                          | TPtr elem => declared elem (Field_flag fl f) (p ++ [i])
                          | _ => declared (Typ f) (Field_flag fl f) (p ++ [i])
                          end
                        else match identifier f with
                             | Some id => [(id, mkData f fl (p ++ [i]))]
                             | None => []
                             end)) ∪ acc
     ∧ ∀ rest' g, subField f rest' = Some g → is_Some (get_at (i :: rest') v1)) →
  loopPost (f :: rest) i fl p acc v r v'.
Proof.
  intros IH Hrun Hv Hv1 Hframe HD HA.
  destruct (IH _ _ _ _ _ _ _ Hrun) as (IHs & IHB & IHD & IHE & IHA).
  assert (Hi : Field v' i = Field v1 i) by (apply IHB; lia).
  assert (Hpath : ∀ q, get_at (i :: q) v' = get_at (i :: q) v1).
  { intros q. rewrite !get_at_cons, IHs, Hv1 by done. by rewrite Hi. }
  split; [auto|]. split.
  { intros j Hji. simpl in Hji. rewrite IHB by lia. apply Hframe. lia. }
  split.
  { intros [|k] f' rest' g x Hk Hg Hleaf Hx.
    - injection Hk as <-. rewrite Nat.add_0_r in *. rewrite Hpath. eauto.
    - simpl in Hk. replace (i + S k)%nat with (S i + k)%nat in * by lia.
      eapply IHD; [done..|].
      rewrite get_at_cons, Hv1, Hframe by lia. by rewrite get_at_cons, Hv in Hx. }
  split; [done|].
  intros fields ->. destruct (IHA _ eq_refl) as [-> IHC].
  destruct HA as [-> HC]; [eauto|]. split.
  { by rewrite declared_loop_cons, list_to_map_reverse_app. }
  intros [|k] f' rest' g Hk Hg.
  - injection Hk as <-. rewrite Nat.add_0_r. rewrite Hpath. eauto.
  - simpl in Hk. replace (i + S k)%nat with (S i + k)%nat by lia. eauto.
Qed.

(** The loop returns at field [i]. *)
Lemma loopSpec_stop f rest i fl p acc v v1 r :
  (∀ fields, r ≠ Ok fields) →
  (∀ e, r = Err e → e = errorInvalidAnonymousField) →
  deref v = v →
  deref v1 = v1 →
  (∀ j, j ≠ i → Field v1 j = Field v j) →
  (∀ rest' g x, subField f rest' = Some g → isLeaf g →
     get_at (i :: rest') v = Some x → get_at (i :: rest') v1 = Some x) →
  loopPost (f :: rest) i fl p acc v r v1.
Proof.
  intros Hr HE Hv Hv1 Hframe HD. split; [done|]. split.
  { intros j Hji. simpl in Hji. apply Hframe. lia. }
  split.
  { intros [|k] f' rest' g x Hk Hg Hleaf Hx.
    - injection Hk as <-. rewrite Nat.add_0_r in *. eauto.
    - rewrite get_at_cons, Hv1, Hframe by lia. by rewrite get_at_cons, Hv in Hx. }
  split; [done|]. intros fields ->. by destruct (Hr fields).
Qed.

Lemma loopPost_refl fs i fl p acc v r :
  (∀ fields, r ≠ Ok fields) →
  (∀ e, r = Err e → e = errorInvalidAnonymousField) →
  loopPost fs i fl p acc v r v.
Proof.
  intros Hr HE. split; [done|]. split; [done|]. split; [done|]. split; [done|].
  intros m ->. by destruct (Hr m).
Qed.

Lemma isNilPtr_Some T x elem : isNilPtr T x = Some elem → T = TPtr elem ∧ x = VPtr None.
Proof. destruct T; try done. destruct x as [| | | | |[?|]| | | |]; try done. by intros [= ->]. Qed.

Lemma getStructFields_loop_record' rec f rest i fl p fields v x :
  Field v i = Some x → isRecord f →
  getStructFields_loop rec (f :: rest) i fl p fields v
  = match isNilPtr (Typ f) x with
    | Some elem =>
        if CanSet_flag (Field_flag fl f) then
          let r := rec elem (Field_flag fl f) (p ++ [i]) (Zero elem) in
          let v := SetField v i (VPtr (Some r.2)) in
          match r.1 with
          | Ok tempFields => getStructFields_loop rec rest (S i) fl p (tempFields ∪ fields) v
          | Err err => (Err err, v)
          | Panicked => (Panicked, v)
          end
        else (Panicked, v)
    | None =>
        let r := rec (Typ f) (Field_flag fl f) (p ++ [i]) x in
        let v := SetField v i r.2 in
        match r.1 with
        | Ok tempFields => getStructFields_loop rec rest (S i) fl p (tempFields ∪ fields) v
        | Err err => (Err err, v)
        | Panicked => (Panicked, v)
        end
    end.
Proof.
  intros Hx Hrec. rewrite (getStructFields_loop_record _ _ _ _ _ _ _ _ _ Hx Hrec).
  destruct (Typ f); try done. destruct x as [| | | | |[?|]| | | |]; done.
Qed.

Lemma getStructFields_Ok_struct T fl p v fields v' :
  getStructFields T fl p v = (Ok fields, v') → ∃ fs ms, T = TStruct fs ms.
Proof. destruct T; try done. eauto. Qed.

Lemma deref_SetField v i y : is_Some (Field v i) → deref (SetField v i y) = SetField v i y.
Proof. intros [x (vs & -> & _)%Field_Some_struct]. done. Qed.

Lemma deref_Zero_record elem : Kind elem = reflect.Struct → deref (Zero elem) = Zero elem.
Proof. destruct elem as [[] ?| | | |]; done. Qed.

Lemma loopSpec_fields fs :
  Forall (λ f, flattenSpec (Typ f) ∧ flattenSpec (derefType (Typ f))) fs → loopSpec fs.
Proof.
  induction 1 as [|f rest [IHf IHelem] _ IH]; intros i fl p acc v r v' Hrun.
  { injection Hrun as <- <-. split; [done|]. split; [done|]. split; [done|]. split; [done|].
    intros m [= <-]. split; [|done]. cbn. by rewrite (left_id_L ∅ (∪)). }
  destruct (Field v i) as [x|] eqn:Hx.
  2: { rewrite getStructFields_loop_none in Hrun by done. injection Hrun as <- <-.
       by apply loopPost_refl. }
  assert (Hv : deref v = v) by (by apply Field_Some_struct in Hx as (vs & -> & _)).
  destruct (decide (isRecord f)) as [Hrec|Hleaf].
  - rewrite (getStructFields_loop_record' _ _ _ _ _ _ _ _ _ Hx Hrec) in Hrun.
    assert (Hnotleaf :
      ∀ rest' g, subField f rest' = Some g → isLeaf g → rest' ≠ []).
    { intros rest' g Hg Hleaf ->. injection Hg as <-. by destruct Hleaf. }
    destruct (isNilPtr (Typ f) x) as [elem|] eqn:Hnil.
    + apply isNilPtr_Some in Hnil as [HT ->].
      destruct (CanSet_flag (Field_flag fl f)).
      2: { injection Hrun as <- <-. by apply loopPost_refl. }
      cbn zeta in Hrun.
      destruct (getStructFields elem (Field_flag fl f) (p ++ [i]) (Zero elem))
        as [r1 y] eqn:Hsub.
      rewrite HT in IHelem. simpl in IHelem.
      assert (Hkind : Kind elem = reflect.Struct).
      { unfold isRecord in Hrec. by rewrite HT in Hrec. }
      destruct (IHelem _ _ _ _ _ Hsub) as (Hshape & _ & HE & HA).
      specialize (Hshape (deref_Zero_record _ Hkind)).
      assert (HD : ∀ rest' g x', subField f rest' = Some g → isLeaf g →
                get_at (i :: rest') v = Some x' →
                get_at (i :: rest') (SetField v i (VPtr (Some y))) = Some x').
      { intros rest' g x' Hg Hleaf. rewrite get_at_cons, Hv, Hx. simpl.
        rewrite get_at_ptr_None; [done|]. eauto. }
      simpl in Hrun. destruct r1 as [tmp|e|].
      * eapply loopSpec_continue; eauto using deref_SetField, Field_SetField_ne.
        intros _. destruct (HA _ eq_refl) as [-> HC].
        unfold isRecord in Hrec. rewrite (bool_decide_eq_true_2 _ Hrec), HT. split; [done|].
        intros rest' g Hg. rewrite get_at_cons, deref_SetField by eauto.
        erewrite Field_SetField_eq by done. simpl.
        destruct rest' as [|j rest']; [done|].
        rewrite get_at_ptr_Some by done. apply (HC _ g).
        cbn [subField] in Hg. by rewrite HT, field_at_ptr in Hg.
      * injection Hrun as <- <-.
        eapply loopSpec_stop; eauto using deref_SetField, Field_SetField_ne.
      * injection Hrun as <- <-.
        eapply loopSpec_stop; eauto using deref_SetField, Field_SetField_ne.
    + cbn zeta in Hrun.
      destruct (getStructFields (Typ f) (Field_flag fl f) (p ++ [i]) x) as [r1 y] eqn:Hsub.
      destruct (IHf _ _ _ _ _ Hsub) as (Hshape & HDf & HE & HA).
      assert (HD : ∀ rest' g x', subField f rest' = Some g → isLeaf g →
                get_at (i :: rest') v = Some x' →
                get_at (i :: rest') (SetField v i y) = Some x').
      { intros rest' g x' Hg Hleaf. rewrite !get_at_cons, Hv, Hx, deref_SetField by eauto.
        erewrite Field_SetField_eq by done. simpl.
        destruct rest' as [|j rest']; [by destruct (Hnotleaf [] g)|].
        cbn [subField] in Hg. apply (HDf _ _ _ Hg Hleaf). }
      simpl in Hrun. destruct r1 as [tmp|e|].
      * eapply loopSpec_continue; eauto using deref_SetField, Field_SetField_ne.
        intros _. destruct (HA _ eq_refl) as [-> HC].
        apply getStructFields_Ok_struct in Hsub as (fs' & ms' & HT).
        unfold isRecord in Hrec. rewrite (bool_decide_eq_true_2 _ Hrec), HT. split; [done|].
        intros rest' g Hg. rewrite get_at_cons, deref_SetField by eauto.
        erewrite Field_SetField_eq by done. simpl.
        destruct rest' as [|j rest']; [done|]. apply (HC _ g). exact Hg.
      * injection Hrun as <- <-.
        eapply loopSpec_stop; eauto using deref_SetField, Field_SetField_ne.
      * injection Hrun as <- <-.
        eapply loopSpec_stop; eauto using deref_SetField, Field_SetField_ne.
  - destruct (Anonymous f) eqn:Hanon.
    { rewrite (getStructFields_loop_anonymous_leaf _ _ _ _ _ _ _ _ _ Hx Hleaf Hanon) in Hrun.
      injection Hrun as <- <-. apply loopPost_refl; [done|]. by intros e [= <-]. }
    rewrite (getStructFields_loop_leaf _ _ _ _ _ _ _ _ _ Hx Hleaf Hanon) in Hrun.
    eapply loopSpec_continue; eauto.
    intros _. unfold isLeaf in Hleaf. rewrite (bool_decide_eq_false_2 _ Hleaf). split.
    + destruct (identifier f) as [id|]; cbn.
      * by rewrite insert_union_singleton_l, insert_empty.
      * by rewrite (left_id_L ∅ (∪)).
    + intros rest' g Hg. apply subField_leaf in Hg as [-> ->]; [|done].
      rewrite get_at_cons, Hv, Hx. done.
Qed.

Lemma getStructFields_flattenSpec T : flattenSpec T.
Proof.
  induction T as [k ms|elem _|elem ms _|fs ms IH|] using type_deref_ind;
    intros fl p v r v' Hrun;
    try (injection Hrun as <- <-; repeat split; done).
  apply (loopSpec_fields _ IH) in Hrun as (Hshape & _ & HD & HE & HA).
  split; [done|]. split.
  { intros [|k rest] f x Hf Hleaf Hx; [done|].
    rewrite field_at_cons in Hf. simpl in Hf.
    destruct (fs !! k) as [f'|] eqn:Hk; [|done]. by apply (HD k f' rest f x). }
  split; [done|]. intros fields ->. destruct (HA _ eq_refl) as [-> HC]. split.
  { by rewrite (right_id_L ∅ (∪)). }
  intros [|k rest] f Hf; [done|].
  rewrite field_at_cons in Hf. simpl in Hf.
  destruct (fs !! k) as [f'|] eqn:Hk; [|done]. by apply (HC k f' rest f).
Qed.

(** The flattener's map is the declaration list read from the end, and every
    declared field is there in the section it returns. *)
Lemma getStructFields_declared T fl p v fields v' :
  getStructFields T fl p v = (Ok fields, v') →
  fields = list_to_map (reverse (declared T fl p)).
Proof.
  intros Hrun. apply getStructFields_flattenSpec in Hrun as (_ & _ & _ & HA).
  by destruct (HA _ eq_refl).
Qed.

Lemma getStructFields_valid T fl p v fields v' q f :
  getStructFields T fl p v = (Ok fields, v') →
  field_at q T = Some f → is_Some (get_at q v').
Proof.
  intros Hrun. apply getStructFields_flattenSpec in Hrun as (_ & _ & _ & HA).
  destruct (HA _ eq_refl) as [_ HC]. apply HC.
Qed.

Lemma getStructFields_keeps_leaf T fl p v r v' q f x :
  getStructFields T fl p v = (r, v') →
  field_at q T = Some f → isLeaf f → get_at q v = Some x → get_at q v' = Some x.
Proof. intros Hrun. apply getStructFields_flattenSpec in Hrun as (_ & HD & _). apply HD. Qed.

Lemma getStructFields_error T fl p v e v' :
  getStructFields T fl p v = (Err e, v') → e = errorInvalidAnonymousField.
Proof. intros Hrun. apply getStructFields_flattenSpec in Hrun as (_ & _ & HE & _). by apply HE. Qed.

(** *** The declaration list *)

Lemma declared_loop_spec fs :
  Forall (λ f, declaredSpec (Typ f) ∧ declaredSpec (derefType (Typ f))) fs →
  ∀ i fl p id d, (id, d) ∈ declared_loop declared fs i fl p →
    ∃ k f rest g, fs !! k = Some f ∧ subField f rest = Some g
      ∧ slot_path (Value d) = p ++ (i + k)%nat :: rest ∧ isLeaf g
      ∧ identifier g = Some id ∧ slot_type (Value d) = Typ g ∧ FieldName d = Name g.
Proof.
  induction 1 as [|f fs [IHf IHelem] _ IH]; intros i fl p id d Hin; [by apply elem_of_nil in Hin|].
  rewrite declared_loop_cons in Hin. apply elem_of_app in Hin as [Hin|Hin].
  2: { apply IH in Hin as (k & f' & rest & g & Hk & Hg & Hp & Hrest).
       exists (S k), f', rest, g. replace (i + S k)%nat with (S i + k)%nat by lia. done. }
  case_bool_decide as Hkind.
  - assert (∃ T', declaredSpec T' ∧ (id, d) ∈ declared T' (Field_flag fl f) (p ++ [i])
                  ∧ ∀ q, q ≠ [] → field_at q T' = field_at q (Typ f))
      as (T' & HT' & Hin' & Hq).
    { destruct (Typ f) as [k ms|elem|elem ms|fs' ms|] eqn:HT; try (eexists; split_and!; done).
      exists elem. split_and!; [done..|]. intros q _. symmetry. by apply field_at_ptr. }
    apply HT' in Hin' as (q & g & Hp & Hg & Hleaf & Hid & Hty & Hname).
    assert (q ≠ []) by (by destruct q).
    exists 0%nat, f, q, g. rewrite Nat.add_0_r. split_and!; try done.
    + destruct q; [done|]. cbn [subField]. by rewrite <- Hq.
    + by rewrite Hp, <- (assoc_L (++)).
  - destruct (identifier f) as [id'|] eqn:Hid; [|by apply elem_of_nil in Hin].
    apply list_elem_of_singleton in Hin as [= -> ->].
    exists 0%nat, f, [], f. rewrite Nat.add_0_r. done.
Qed.

Lemma declared_declaredSpec T : declaredSpec T.
Proof.
  induction T as [k ms|elem _|elem ms _|fs ms IH|] using type_deref_ind;
    intros fl p id d Hin; try (by apply elem_of_nil in Hin).
  apply (declared_loop_spec _ IH) in Hin as (k & f & rest & g & Hk & Hg & Hp & Hrest).
  exists (k :: rest), g. split; [done|]. split; [|done].
  rewrite field_at_cons. simpl. by rewrite Hk.
Qed.

(** *** Reading and writing through paths *)

Lemma incomparable_cons i q q' : incomparable (i :: q) (i :: q') → incomparable q q'.
Proof.
  intros [H1 H2]. split; intros [r ->]; [apply H1|apply H2]; by exists r.
Qed.

Lemma get_at_set_at_eq q x v y : get_at q v = Some y → get_at q (set_at q x v) = Some x.
Proof.
  revert v. induction q as [|i rest IH]; intros v; [done|].
  rewrite get_at_cons. intros Hy.
  destruct (Field (deref v) i) as [z|] eqn:Hz; [|done]. simpl in Hy.
  apply Field_Some_struct in Hz as (vs & Hv & Hz).
  assert (get_at (i :: rest) (VStruct (alter (set_at rest x) i vs)) = Some x) as Hgoal.
  { rewrite get_at_struct, list_lookup_alter_eq, Hz. simpl. by apply IH. }
  destruct v as [| | | | |[t|]| | | |]; simpl in Hv; try done.
  - subst t. cbn [set_at]. by rewrite get_at_ptr_Some.
  - injection Hv as ->. done.
Qed.

Lemma get_at_set_at_ne q q' x v :
  incomparable q q' → get_at q' (set_at q x v) = get_at q' v.
Proof.
  revert q' v. induction q as [|i rest IH]; intros q' v Hinc.
  { destruct Hinc as [[] _]. apply prefix_nil. }
  destruct q' as [|j rest']. { destruct Hinc as [_ []]. apply prefix_nil. }
  assert (∀ vs, get_at (j :: rest') (VStruct (alter (set_at rest x) i vs))
                = get_at (j :: rest') (VStruct vs)) as Hgoal.
  { intros vs. rewrite !get_at_struct. destruct (decide (i = j)) as [<-|Hne].
    - rewrite list_lookup_alter_eq. destruct (vs !! i); [|done]. simpl.
      apply IH. by eapply incomparable_cons.
    - by rewrite list_lookup_alter_ne. }
  destruct v as [| | | | |[t|]| | | |]; try done.
  - destruct t; try done. cbn [set_at]. by rewrite !get_at_ptr_Some.
  - apply Hgoal.
Qed.

Lemma field_at_app q r T :
  q ≠ [] → r ≠ [] → field_at (q ++ r) T = field_at q T ≫= λ f, field_at r (Typ f).
Proof.
  revert T. induction q as [|i rest IH]; intros T Hq Hr; [done|].
  rewrite <- app_comm_cons, !field_at_cons.
  destruct (structFields (derefType T) !! i) as [f|]; [|done]. simpl.
  destruct rest as [|j rest].
  - simpl. by destruct r.
  - cbn [subField]. rewrite <- app_comm_cons. by apply IH.
Qed.

(** Two different leaves of one section: neither path runs through the
    other. *)
Lemma leaf_paths_incomparable T q q' f f' :
  field_at q T = Some f → isLeaf f → field_at q' T = Some f' → isLeaf f' →
  q ≠ q' → incomparable q q'.
Proof.
  assert (∀ q q' f f', field_at q T = Some f → isLeaf f → field_at q' T = Some f' →
                       q ≠ q' → ¬ q `prefix_of` q') as Hone.
  { clear. intros q q' f f' Hf Hleaf Hf' Hne [r ->].
    assert (r ≠ []) by (intros ->; by rewrite app_nil_r in Hne).
    assert (q ≠ []) by (by destruct q).
    rewrite field_at_app, Hf in Hf' by done. simpl in Hf'.
    destruct Hleaf. by apply (field_at_isRecord r _ f'). }
  intros Hf Hleaf Hf' Hleaf' Hne. split; [by eapply Hone|].
  eapply Hone; [exact Hf'|done|exact Hf|done].
Qed.

(** *** What the source binders write *)

Lemma getStructFields_slot T fl v fields v' id d :
  getStructFields T fl [] v = (Ok fields, v') → fields !! id = Some d →
  ∃ f, field_at (slot_path (Value d)) T = Some f ∧ isLeaf f ∧ identifier f = Some id
       ∧ slot_type (Value d) = Typ f ∧ FieldName d = Name f
       ∧ is_Some (get_at (slot_path (Value d)) v').
Proof.
  intros Hrun Hd. rewrite (getStructFields_declared _ _ _ _ _ _ Hrun) in Hd.
  apply elem_of_list_to_map_2, elem_of_reverse, declared_declaredSpec in Hd
    as (q & f & Hp & Hf & Hleaf & Hid & Hty & Hname).
  simpl in Hp. subst q. exists f. split_and!; try done.
  by eapply getStructFields_valid.
Qed.

Lemma getStructFields_clearOf T fl v fields v' q f :
  getStructFields T fl [] v = (Ok fields, v') →
  field_at q T = Some f → isLeaf f →
  (∀ id d, fields !! id = Some d → identifier f ≠ Some id) →
  clearOf fields q.
Proof.
  intros Hrun Hf Hleaf Hid id d Hd.
  destruct (getStructFields_slot _ _ _ _ _ _ _ Hrun Hd) as (f' & Hf' & Hleaf' & Hid' & _).
  eapply leaf_paths_incomparable; eauto.
  intros Heq. rewrite Heq, Hf in Hf'. injection Hf' as <-. by eapply Hid.
Qed.

Lemma setSlot_frame s val sv sv' err q :
  setSlot ext s val sv = Some (sv', err) → incomparable (slot_path s) q →
  get_at q sv' = get_at q sv.
Proof.
  unfold setSlot. destruct (get_at (slot_path s) sv); [|done].
  destruct (setWithProperType _ _ _ _) as [x e]. intros [= <- <-] Hinc.
  by apply get_at_set_at_ne.
Qed.

Lemma bindPath_loop_frame fields names values i sv o sv' q :
  clearOf fields q → bindPath_loop ext fields names values i sv = (o, sv') →
  get_at q sv' = get_at q sv.
Proof.
  intros Hclear. revert i sv. induction names as [|name rest IH]; intros i sv Hrun; simpl in Hrun.
  { by injection Hrun as <- <-. }
  destruct (fields !! name) as [d|] eqn:Hd; [|by injection Hrun as <- <-].
  destruct (CanSet (Value d)); simpl in Hrun; [|by injection Hrun as <- <-].
  destruct (values !! i); [|by injection Hrun as <- <-].
  destruct (setSlot ext (Value d) s sv) as [[sv1 [e|]]|] eqn:Hset.
  - injection Hrun as <- <-. eapply setSlot_frame; eauto.
  - rewrite (IH _ _ Hrun). eapply setSlot_frame; eauto.
  - by injection Hrun as <- <-.
Qed.

Lemma bindValues_frame location fields name values sv o sv' q :
  (∀ d, fields !! name = Some d → incomparable (slot_path (Value d)) q) →
  bindValues ext location fields name values sv = (o, sv') →
  get_at q sv' = get_at q sv.
Proof.
  intros Hclear. unfold bindValues.
  destruct (fields !! name) as [d|] eqn:Hd; [|by intros [= <- <-]].
  specialize (Hclear d eq_refl).
  destruct (CanSet (Value d)); simpl; [|by intros [= <- <-]].
  assert (match values with
          | [] => (Some Panic, sv)
          | val :: _ =>
              match setSlot ext (Value d) val sv with
              | Some (sv0, Some err) => (Some (Failed (badRequestError err)), sv0)
              | Some (sv0, None) => (None, sv0)
              | None => (Some Panic, sv)
              end
          end = (o, sv') → get_at q sv' = get_at q sv) as Hscalar.
  { destruct values as [|val ?]; [by intros [= <- <-]|].
    destruct (setSlot ext (Value d) val sv) as [[sv1 [e|]]|] eqn:Hset;
      intros [= <- <-]; try done; eapply setSlot_frame; eauto. }
  destruct (slot_type (Value d)); try done.
  destruct (bindSlice _ _ _ _ _); intros [= <- <-]; try done.
  by apply get_at_set_at_ne.
Qed.

Lemma bindValues_loop_frame location fields params sv o sv' q :
  (∀ name d, name ∈ params.*1 → fields !! name = Some d →
             incomparable (slot_path (Value d)) q) →
  bindValues_loop ext location fields params sv = (o, sv') →
  get_at q sv' = get_at q sv.
Proof.
  revert sv. induction params as [|[name values] rest IH]; intros sv Hclear Hrun; simpl in Hrun.
  { by injection Hrun as <- <-. }
  destruct (bindValues ext location fields name values sv) as [[o1|] sv1] eqn:Hstep.
  - injection Hrun as <- <-. eapply bindValues_frame; [|done].
    intros d. apply Hclear. simpl. left.
  - rewrite (IH sv1); [|intros n d Hn; apply Hclear; simpl; by right|done].
    eapply bindValues_frame; [|done]. intros d. apply Hclear. simpl. left.
Qed.

Lemma bindHeader_loop_frame c fields entries sv o sv' q :
  clearOf fields q → (∀ name d, (name, d) ∈ entries → fields !! name = Some d) →
  bindHeader_loop ext c entries sv = (o, sv') →
  get_at q sv' = get_at q sv.
Proof.
  intros Hclear. revert sv. induction entries as [|[name d] rest IH]; intros sv Hin Hrun;
    simpl in Hrun.
  { by injection Hrun as <- <-. }
  assert (Hrest : ∀ name d, (name, d) ∈ rest → fields !! name = Some d).
  { intros n d' Hn. apply Hin. by right. }
  destruct (String.eqb (Header_Get c name) ""); [by apply IH|].
  destruct (CanSet (Value d)); simpl in Hrun; [|by injection Hrun as <- <-].
  assert (incomparable (slot_path (Value d)) q).
  { eapply Hclear, Hin. left. }
  destruct (setSlot ext (Value d) (Header_Get c name) sv) as [[sv1 [e|]]|] eqn:Hset.
  - injection Hrun as <- <-. eapply setSlot_frame; eauto.
  - rewrite (IH _ Hrest Hrun). eapply setSlot_frame; eauto.
  - by injection Hrun as <- <-.
Qed.

(** Each map-based binder leaves a leaf that no slot leads to as it found
    it or as the flattener, which reads no source, left it. *)
Lemma binders_frame c T fl sv q bind o sv' :
  bind ∈ [bindPath ext; bindQuery ext; bindForm ext; bindHeader ext] →
  (∀ fields sv1, getStructFields T fl [] sv = (Ok fields, sv1) → clearOf fields q) →
  bind c T fl sv = (o, sv') →
  get_at q sv' = get_at q sv ∨ get_at q sv' = get_at q (getStructFields T fl [] sv).2.
Proof.
  intros Hbind Hclear Hrun.
  destruct (getStructFields T fl [] sv) as [r sv1] eqn:Hflat. simpl.
  repeat (apply elem_of_cons in Hbind as [->|Hbind]); [| | | |by apply elem_of_nil in Hbind].
  - right. unfold bindPath in Hrun. rewrite Hflat in Hrun.
    destruct r as [fields| |]; [|by injection Hrun as <- <-..].
    eapply bindPath_loop_frame; eauto.
  - unfold bindQuery in Hrun. rewrite Hflat in Hrun.
    destruct (_ && _); [left; by injection Hrun as <- <-|]. right.
    destruct r as [fields| |]; [|by injection Hrun as <- <-..].
    eapply bindValues_loop_frame; eauto. intros n d _. by eapply Hclear.
  - unfold bindForm in Hrun. rewrite Hflat in Hrun.
    destruct (String.eqb _ _); [left; by injection Hrun as <- <-|].
    destruct (_ =? _); [left; by injection Hrun as <- <-|].
    destruct (_ && _); [left; by injection Hrun as <- <-|]. right.
    destruct r as [fields| |]; [|by injection Hrun as <- <-..].
    destruct (FormParams c); [by injection Hrun as <- <-|].
    eapply bindValues_loop_frame; eauto. intros n d _. by eapply Hclear.
  - right. unfold bindHeader in Hrun. rewrite Hflat in Hrun.
    destruct r as [fields| |]; [|by injection Hrun as <- <-..].
    eapply bindHeader_loop_frame; eauto.
    intros n d. apply elem_of_map_to_list.
Qed.

Lemma bindPath_loop_app fields pre rest values i sv :
  bindPath_loop ext fields (pre ++ rest) values i sv
  = match bindPath_loop ext fields pre values i sv with
    | (Nil, sv2) => bindPath_loop ext fields rest values (i + length pre) sv2
    | r => r
    end.
Proof.
  revert i sv. induction pre as [|name pre IH]; intros i sv; simpl.
  { by rewrite Nat.add_0_r. }
  destruct (fields !! name) as [d|]; [|done].
  destruct (CanSet (Value d)); simpl; [|done].
  destruct (values !! i); [|done].
  destruct (setSlot ext (Value d) s sv) as [[sv1 [e|]]|]; try done.
  rewrite IH. by replace (S i + length pre)%nat with (i + S (length pre))%nat by lia.
Qed.

Lemma identifier_excluded f : Tag_Get (Tag f) TagIdentifier = "-" → identifier f = None.
Proof. unfold identifier. by intros ->. Qed.

(** C2: a leaf field of a section whose binding tag is the exclusion
    sentinel is dropped from the flattener's map (no slot of the map is that
    field); whatever the request holds, each of the path, query, form and
    header binders leaves the field as the section had it, or as the
    flattener, which reads no source, left it, and a value the section had
    there stays; and a path parameter that only such a field could have
    matched (no leaf of the section has it as identifier: the sentinel
    itself, which is no Go field name, or the field's own name) is reported
    as a missing param once the parameters before it are bound. *)
Theorem excluded_field_never_bound c T fl sv q f :
  field_at q T = Some f → isLeaf f → Tag_Get (Tag f) TagIdentifier = "-" →
  (∀ fields sv1 id d,
     getStructFields T fl [] sv = (Ok fields, sv1) → fields !! id = Some d →
     slot_path (Value d) ≠ q)
  ∧ (∀ bind o sv',
       bind ∈ [bindPath ext; bindQuery ext; bindForm ext; bindHeader ext] →
       bind c T fl sv = (o, sv') →
       (get_at q sv' = get_at q sv ∨ get_at q sv' = get_at q (getStructFields T fl [] sv).2)
       ∧ ∀ x, get_at q sv = Some x → get_at q sv' = Some x)
  ∧ (∀ fields sv1 name pre post sv2,
       getStructFields T fl [] sv = (Ok fields, sv1) →
       (∀ q' f', field_at q' T = Some f' → isLeaf f' → identifier f' ≠ Some name) →
       ParamNames c = pre ++ name :: post →
       bindPath_loop ext fields pre (ParamValues c) 0 sv1 = (Nil, sv2) →
       bindPath ext c T fl sv
       = (Failed (badRequestError (getMissingParamAtLocationError pathField name)), sv2)).
Proof.
  intros Hf Hleaf Htag. apply identifier_excluded in Htag.
  split_and!.
  - intros fields sv1 id d Hrun Hd Hq.
    destruct (getStructFields_slot _ _ _ _ _ _ _ Hrun Hd) as (f' & Hf' & _ & Hid & _).
    rewrite Hq, Hf in Hf'. injection Hf' as <-. by rewrite Htag in Hid.
  - intros bind o sv' Hbind Hrun.
    assert (Hframe : get_at q sv' = get_at q sv
                     ∨ get_at q sv' = get_at q (getStructFields T fl [] sv).2).
    { eapply binders_frame; eauto. intros fields sv1 Hflat.
      eapply getStructFields_clearOf; eauto. intros id d _. by rewrite Htag. }
    split; [done|]. intros x Hx. destruct Hframe as [->| ->]; [done|].
    destruct (getStructFields T fl [] sv) as [r sv1] eqn:Hflat.
    by eapply getStructFields_keeps_leaf.
  - intros fields sv1 name pre post sv2 Hflat Hname Hnames Hpre.
    unfold bindPath. rewrite Hflat, Hnames, bindPath_loop_app, Hpre. simpl.
    destruct (fields !! name) as [d|] eqn:Hd; [|done].
    destruct (getStructFields_slot _ _ _ _ _ _ _ Hflat Hd) as (f' & Hf' & Hleaf' & Hid & _).
    by destruct (Hname _ _ Hf' Hleaf').
Qed.

(** *** Slices and scalars from multi-valued keys *)

Lemma bindSlice_Ok elem values i pre slice :
  length pre = i →
  bindSlice ext elem values i (pre ++ MakeSlice elem (length values)) = Ok slice →
  ∃ xs, slice = pre ++ xs
        ∧ Forall2 (λ val x, setWithProperType ext elem val (Zero elem) = (x, None)) values xs.
Proof.
  revert i pre. induction values as [|val rest IH]; intros i pre Hlen; simpl.
  { intros [= <-]. exists []. split; [done|constructor]. }
  unfold MakeSlice. cbn [length replicate].
  rewrite lookup_app_r, Hlen, Nat.sub_diag by lia. simpl.
  destruct (setWithProperType ext elem val (Zero elem)) as [x [e|]] eqn:Hset; [done|].
  replace (<[i:=x]> (pre ++ Zero elem :: replicate (length rest) (Zero elem)))
    with ((pre ++ [x]) ++ MakeSlice elem (length rest)).
  2: { rewrite <- (assoc_L (++)). simpl. rewrite insert_app_r_alt by lia.
       by rewrite Hlen, Nat.sub_diag. }
  intros Hrun. apply IH in Hrun as (xs & -> & Hall); [|rewrite length_app; simpl; lia].
  exists (x :: xs). rewrite <- (assoc_L (++)). split; [done|]. by constructor.
Qed.

Lemma bindValues_slice location fields name values sv sv' d elem ms :
  fields !! name = Some d → slot_type (Value d) = TSlice elem ms →
  is_Some (get_at (slot_path (Value d)) sv) →
  bindValues ext location fields name values sv = (None, sv') →
  sliceBound ext elem values (get_at (slot_path (Value d)) sv').
Proof.
  intros Hd Hty [cur Hcur]. unfold bindValues. rewrite Hd, Hty.
  destruct (CanSet (Value d)); [|done]. simpl.
  destruct (bindSlice _ _ _ _ _) as [slice| |] eqn:Hslice; try done.
  intros [= <-]. apply (bindSlice_Ok _ _ _ []) in Hslice as (xs & -> & Hall); [|done].
  exists xs. split_and!.
  - by erewrite get_at_set_at_eq.
  - symmetry. by eapply Forall2_length.
  - intros i val Hval.
    destruct (Forall2_lookup_l _ _ _ _ _ Hall Hval) as (x & Hx & Hset). eauto.
Qed.

Lemma bindValues_returns location fields name values sv o sv' :
  bindValues ext location fields name values sv = (Some o, sv') → o ≠ Nil.
Proof.
  unfold bindValues. destruct (fields !! name) as [d|]; [|done].
  destruct (CanSet (Value d)); simpl; [|by intros [= <- _]].
  assert (match values with
          | [] => (Some Panic, sv)
          | val :: _ =>
              match setSlot ext (Value d) val sv with
              | Some (sv0, Some err) => (Some (Failed (badRequestError err)), sv0)
              | Some (sv0, None) => (None, sv0)
              | None => (Some Panic, sv)
              end
          end = (Some o, sv') → o ≠ Nil) as Hscalar.
  { destruct values as [|val ?]; [by intros [= <- _]|].
    by destruct (setSlot ext (Value d) val sv) as [[sv1 [e|]]|]; intros [= <- _]. }
  destruct (slot_type (Value d)); try done.
  by destruct (bindSlice _ _ _ _ _); intros [= <- _].
Qed.

Lemma bindValues_loop_slice location fields params sv o sv' name values d elem ms :
  (∀ id' d', id' ≠ name → fields !! id' = Some d' →
             incomparable (slot_path (Value d')) (slot_path (Value d))) →
  fields !! name = Some d → slot_type (Value d) = TSlice elem ms →
  is_Some (get_at (slot_path (Value d)) sv) →
  NoDup params.*1 → (name, values) ∈ params →
  bindValues_loop ext location fields params sv = (o, sv') → o = Nil →
  sliceBound ext elem values (get_at (slot_path (Value d)) sv').
Proof.
  intros Hclear Hd Hty. revert sv.
  induction params as [|[n vs] rest IH]; intros sv Hvalid Hnodup Hin Hrun ->.
  { by apply elem_of_nil in Hin. }
  simpl in Hrun. apply NoDup_cons in Hnodup as [Hfresh Hnodup]. simpl in Hfresh.
  destruct (bindValues ext location fields n vs sv) as [[o1|] sv1] eqn:Hstep.
  { injection Hrun as -> _. by apply bindValues_returns in Hstep. }
  apply elem_of_cons in Hin as [[= <- <-]|Hin].
  - erewrite bindValues_loop_frame; [by eapply bindValues_slice| |done].
    intros n' d' Hn Hd'. apply (Hclear n' d'); [|done]. by intros ->.
  - assert (n ≠ name).
    { intros ->. apply Hfresh. apply list_elem_of_fmap. by exists (name, values). }
    apply (IH sv1); [|done..].
    erewrite bindValues_frame; [done| |done]. intros d' Hd'. by apply (Hclear n d').
Qed.

Lemma sliceBound_all elem values stored i val x err :
  sliceBound ext elem values stored → values !! i = Some val →
  setWithProperType ext elem val (Zero elem) = (x, Some err) → False.
Proof.
  intros (slice & _ & _ & Hall) Hval Hset.
  destruct (Hall _ _ Hval) as (x' & Hset' & _). congruence.
Qed.

Lemma getStructFields_slots_apart T fl v fields v' id d id' d' :
  getStructFields T fl [] v = (Ok fields, v') →
  fields !! id = Some d → fields !! id' = Some d' → id' ≠ id →
  incomparable (slot_path (Value d')) (slot_path (Value d)).
Proof.
  intros Hrun Hd Hd' Hne.
  destruct (getStructFields_slot _ _ _ _ _ _ _ Hrun Hd) as (f & Hf & Hleaf & Hid & _).
  destruct (getStructFields_slot _ _ _ _ _ _ _ Hrun Hd') as (f' & Hf' & Hleaf' & Hid' & _).
  eapply leaf_paths_incomparable; eauto.
  intros Heq. rewrite Heq, Hf in Hf'. injection Hf' as <-. congruence.
Qed.

(** C5: for a key of the query or of the form that matches a slice-typed
    slot, a run of the binder that returns nil leaves in the slot a slice of
    exactly as many elements as the key has values, element [i] being the
    coercion of value [i] (each into a fresh zero element, in input order);
    and when the coercion of some value fails the binder does not return
    nil.  For the form the request is one whose form the binder reads. *)
Theorem slice_slot_bound_in_order c T fl sv fields sv1 name values d elem ms :
  getStructFields T fl [] sv = (Ok fields, sv1) →
  fields !! name = Some d → slot_type (Value d) = TSlice elem ms →
  (∀ o sv2,
     NoDup (QueryParams c).*1 → (name, values) ∈ QueryParams c →
     bindQuery ext c T fl sv = (o, sv2) →
     (o = Nil → sliceBound ext elem values (get_at (slot_path (Value d)) sv2))
     ∧ ((∃ i val x err, values !! i = Some val
          ∧ setWithProperType ext elem val (Zero elem) = (x, Some err)) → o ≠ Nil))
  ∧ (∀ params o sv2,
       isFormRequest c → FormParams c = inr params →
       NoDup params.*1 → (name, values) ∈ params →
       bindForm ext c T fl sv = (o, sv2) →
       (o = Nil → sliceBound ext elem values (get_at (slot_path (Value d)) sv2))
       ∧ ((∃ i val x err, values !! i = Some val
            ∧ setWithProperType ext elem val (Zero elem) = (x, Some err)) → o ≠ Nil)).
Proof.
  intros Hflat Hd Hty.
  assert (Hvalid : is_Some (get_at (slot_path (Value d)) sv1)).
  { by destruct (getStructFields_slot _ _ _ _ _ _ _ Hflat Hd) as (f & _ & _ & _ & _ & _ & ?). }
  assert (Hloop : ∀ location params o sv2,
            NoDup params.*1 → (name, values) ∈ params →
            bindValues_loop ext location fields params sv1 = (o, sv2) → o = Nil →
            sliceBound ext elem values (get_at (slot_path (Value d)) sv2)).
  { intros location params o sv2 Hnodup Hin Hrun Ho.
    eapply bindValues_loop_slice; eauto.
    intros id' d' Hne Hd'. by eapply getStructFields_slots_apart. }
  assert (Hfail : ∀ o stored,
            (o = Nil → sliceBound ext elem values stored) →
            (∃ i val x err, values !! i = Some val
               ∧ setWithProperType ext elem val (Zero elem) = (x, Some err)) → o ≠ Nil).
  { intros o stored Hok (i & val & x & err & Hval & Hset) Ho.
    eapply sliceBound_all; eauto. }
  split.
  - intros o sv2 Hnodup Hin Hrun.
    assert (o = Nil → sliceBound ext elem values (get_at (slot_path (Value d)) sv2)); [|eauto].
    unfold bindQuery in Hrun. rewrite Hflat in Hrun.
    destruct (_ && _); [by injection Hrun as <- _|]. eauto.
  - intros params o sv2 [Hlen Hct] Hparams Hnodup Hin Hrun.
    assert (o = Nil → sliceBound ext elem values (get_at (slot_path (Value d)) sv2)); [|eauto].
    unfold bindForm in Hrun. rewrite Hflat, Hparams in Hrun.
    destruct (String.eqb _ _); [by injection Hrun as <- _|].
    rewrite (proj2 (Z.eqb_neq _ _) Hlen) in Hrun.
    destruct Hct as [Hct|Hct]; rewrite Hct in Hrun; simpl in Hrun;
      rewrite ?andb_false_r in Hrun; eauto.
Qed.

Lemma bindValues_scalar_first location fields name v0 more sv :
  (∀ d, fields !! name = Some d → Kind (slot_type (Value d)) ≠ reflect.Slice) →
  bindValues ext location fields name (v0 :: more) sv
  = bindValues ext location fields name [v0] sv.
Proof.
  intros Hscalar. unfold bindValues. destruct (fields !! name) as [d|]; [|done].
  specialize (Hscalar d eq_refl). destruct (CanSet (Value d)); [|done]. simpl.
  by destruct (slot_type (Value d)).
Qed.

Lemma bindValues_loop_scalar_first location fields pre name v0 more post sv :
  (∀ d, fields !! name = Some d → Kind (slot_type (Value d)) ≠ reflect.Slice) →
  bindValues_loop ext location fields (pre ++ (name, v0 :: more) :: post) sv
  = bindValues_loop ext location fields (pre ++ (name, [v0]) :: post) sv.
Proof.
  intros Hscalar. revert sv. induction pre as [|[n vs] pre IH]; intros sv; simpl.
  - by rewrite bindValues_scalar_first.
  - destruct (bindValues ext location fields n vs sv) as [[o|] sv1]; [done|]. apply IH.
Qed.

(** C6: for a key of the query or of the form that matches a slot that is
    not a slice, the values after the first change nothing: the binder
    returns the same outcome and the same section as for a request that
    supplies the first value only, and the step for the key coerces the
    first value into the slot. *)
Theorem scalar_slot_takes_first_value c T fl sv fields sv1 name d v0 more pre post :
  getStructFields T fl [] sv = (Ok fields, sv1) →
  fields !! name = Some d → Kind (slot_type (Value d)) ≠ reflect.Slice →
  (QueryParams c = pre ++ (name, v0 :: more) :: post →
   bindQuery ext c T fl sv
   = bindQuery ext (withQueryParams c (pre ++ (name, [v0]) :: post)) T fl sv)
  ∧ (FormParams c = inr (pre ++ (name, v0 :: more) :: post) →
     bindForm ext c T fl sv
     = bindForm ext (withFormParams c (pre ++ (name, [v0]) :: post)) T fl sv)
  ∧ (∀ location sv2 cur,
       CanSet (Value d) = true → get_at (slot_path (Value d)) sv2 = Some cur →
       bindValues ext location fields name (v0 :: more) sv2
       = (match (setWithProperType ext (slot_type (Value d)) v0 cur).2 with
          | Some err => Some (Failed (badRequestError err))
          | None => None
          end,
          set_at (slot_path (Value d))
            (setWithProperType ext (slot_type (Value d)) v0 cur).1 sv2)).
Proof.
  intros Hflat Hd Hscalar.
  assert (Hd' : ∀ d', fields !! name = Some d' →
                      Kind (slot_type (Value d')) ≠ reflect.Slice) by congruence.
  split_and!.
  - intros Hparams. unfold bindQuery. rewrite Hflat, Hparams. simpl.
    destruct (_ && _); [done|]. by apply bindValues_loop_scalar_first.
  - intros Hparams. unfold bindForm. rewrite Hflat, Hparams. simpl.
    repeat (destruct (_ : bool); [done|]). by apply bindValues_loop_scalar_first.
  - intros location sv2 cur Hset Hcur. unfold bindValues, setSlot. rewrite Hd, Hset, Hcur.
    simpl. destruct (setWithProperType _ _ _ _) as [x [e|]]; by destruct (slot_type (Value d)).
Qed.

(** *** Collisions *)

Lemma list_to_map_reverse_lookup (l : list (string * structFieldData)) id d :
  (list_to_map (reverse l) : fieldMap) !! id = Some d
  ↔ ∃ before after, l = before ++ (id, d) :: after ∧ id ∉ after.*1.
Proof.
  induction l as [|[k x] l IH].
  { split; [done|]. intros (before & after & Heq & _). by destruct before. }
  rewrite reverse_cons, list_to_map_app, lookup_union_Some_raw, IH.
  assert ((list_to_map (reverse l) : fieldMap) !! id = None ↔ id ∉ l.*1) as Hnone.
  { rewrite <- not_elem_of_list_to_map, fmap_reverse. by rewrite elem_of_reverse. }
  rewrite Hnone. cbn. rewrite insert_empty, lookup_singleton_Some. split.
  - intros [(before & after & -> & Hafter)|[Hfresh [-> ->]]].
    + by exists ((k, x) :: before), after.
    + by exists [], l.
  - intros (before & after & Heq & Hafter). destruct before as [|e before].
    + injection Heq as -> -> <-. by right.
    + injection Heq as <- ->. left. eauto.
Qed.

(** *** Coercion into a nil pointer *)

Lemma setWithProperType_basic_error k ms val cur x err :
  UnmarshalParam ms = None → UnmarshalText ms = None →
  setWithProperType ext (TBasic k ms) val cur = (x, Some err) → x = cur.
Proof.
  intros Hp Ht. cbn [setWithProperType unmarshalField]. unfold unmarshalFieldNonPtr.
  cbn [methods]. rewrite Hp, Ht. cbn [Kind].
  unfold setIntField, setUintField, setBoolField, setFloatField.
  destruct k; repeat case_match; by intros [= <- ?].
Qed.

(** C10: coercing a string into a nil pointer to a basic type without
    unmarshal hooks: the hook probe ([unmarshalField]) allocates the zero
    value and finds no hook, and when parsing the string into the pointed-to
    type fails with [err], [setWithProperType] returns [err] and leaves the
    slot pointing at that zero value. *)
Theorem nil_pointer_stays_allocated k ms val x err :
  UnmarshalParam ms = None → UnmarshalText ms = None →
  setWithProperType ext (TBasic k ms) val (Zero (TBasic k ms)) = (x, Some err) →
  unmarshalField val (TPtr (TBasic k ms)) (VPtr None)
  = (false, VPtr (Some (Zero (TBasic k ms))), None)
  ∧ setWithProperType ext (TPtr (TBasic k ms)) val (VPtr None)
    = (VPtr (Some (Zero (TBasic k ms))), Some err).
Proof.
  intros Hp Ht Hset.
  assert (Hprobe : unmarshalField val (TPtr (TBasic k ms)) (VPtr None)
                   = (false, VPtr (Some (Zero (TBasic k ms))), None)).
  { unfold unmarshalField, unmarshalFieldPtr, unmarshalFieldNonPtr. cbn [methods].
    by rewrite Hp, Ht. }
  split; [done|].
  rewrite (setWithProperType_basic_error _ _ _ _ _ _ Hp Ht Hset) in Hset.
  change (setWithProperType ext (TPtr (TBasic k ms)) val (VPtr None))
    with (let '(ok, structField, err) := unmarshalField val (TPtr (TBasic k ms)) (VPtr None) in
          if ok then (structField, err)
          else let '(target, err) :=
                 setWithProperType ext (TBasic k ms) val
                   (Elem_or_New (TBasic k ms) structField) in
               (VPtr (Some target), err)).
  rewrite Hprobe. cbn [Elem_or_New]. by rewrite Hset.
Qed.

(** *** The orchestrator *)

Lemma Field_SetField_is_Some v i x j : is_Some (Field (SetField v i x) j) ↔ is_Some (Field v j).
Proof.
  destruct v; try done. simpl. rewrite !lookup_lt_is_Some. by rewrite length_insert.
Qed.

Lemma FieldByName_from_Some fs i name j g :
  FieldByName_from fs i name = Some (j, g) →
  ∃ k, j = (i + k)%nat ∧ fs !! k = Some g ∧ Name g = name.
Proof.
  revert i. induction fs as [|f fs IH]; intros i; simpl; [done|].
  destruct (String.eqb (Name f) name) eqn:Heq.
  - intros [= <- <-]. exists 0%nat. rewrite Nat.add_0_r. by apply String.eqb_eq in Heq.
  - intros (k & -> & Hk & Hname)%IH. exists (S k). split; [lia|done].
Qed.

Lemma FieldByName_Some T name j g :
  FieldByName T name = Some (j, g) → structFields T !! j = Some g ∧ Name g = name.
Proof. intros (k & -> & Hk & Hname)%FieldByName_from_Some. done. Qed.

Lemma FieldByName_from_NoDup fs i name k g :
  NoDup (Name <$> fs) → fs !! k = Some g → Name g = name →
  FieldByName_from fs i name = Some ((i + k)%nat, g).
Proof.
  revert i k. induction fs as [|f fs IH]; intros i k Hnodup Hk Hname; [done|].
  rewrite fmap_cons in Hnodup. apply NoDup_cons in Hnodup as [Hfresh Hnodup]. simpl.
  destruct k as [|k].
  - injection Hk as ->. rewrite Hname, String.eqb_refl. by rewrite Nat.add_0_r.
  - simpl in Hk. destruct (String.eqb (Name f) name) eqn:Heq.
    + apply String.eqb_eq in Heq. destruct Hfresh. rewrite Heq, <- Hname.
      apply list_elem_of_fmap. exists g. split; [done|]. by eapply list_elem_of_lookup_2.
    + rewrite (IH (S i) k) by done. do 2 f_equal. lia.
Qed.

Lemma FieldByName_NoDup fs ms name k g :
  NoDup (Name <$> fs) → fs !! k = Some g → Name g = name →
  FieldByName (TStruct fs ms) name = Some (k, g).
Proof. intros. unfold FieldByName. simpl. by erewrite FieldByName_from_NoDup. Qed.

Lemma onSection_frame bind c T sv i f o sv' j :
  onSection bind c T sv i f = (o, sv') → j ≠ i → Field sv' j = Field sv j.
Proof.
  unfold onSection. destruct (Field sv i); [|by intros [= <- <-]].
  destruct (bind _ _ _ _) as [o1 x]. intros [= <- <-] Hne. by apply Field_SetField_ne.
Qed.

Lemma onSection_shape bind c T sv i f o sv' j :
  onSection bind c T sv i f = (o, sv') → is_Some (Field sv' j) ↔ is_Some (Field sv j).
Proof.
  unfold onSection. destruct (Field sv i); [|by intros [= <- <-]].
  destruct (bind _ _ _ _) as [o1 x]. intros [= <- <-]. apply Field_SetField_is_Some.
Qed.

(** What [bindBody] has done when it returns [nil]. *)
Lemma bindBody_Nil c T sv i f sv' :
  bindBody ext c T sv i f = (Nil, sv') →
  ContentLength c = 0 ∧ sv' = sv
  ∨ ∃ body structField decoded,
      Body c = inr body ∧ Field sv i = Some structField
      ∧ (Kind (Typ f) ≠ reflect.Struct ∧ sv' = SetField sv i decoded
         ∨ FieldByName T bodySentFields = None ∧ sv' = SetField sv i decoded
         ∨ ∃ j field data,
             Kind (Typ f) = reflect.Struct
             ∧ FieldByName T bodySentFields = Some (j, field)
             ∧ json_Unmarshal_lookupTable ext body = inr data
             ∧ sv' = SetField (SetField sv i decoded) j
                       (VMap (Some (IntoRecursiveLookupTable data)))).
Proof.
  unfold bindBody. destruct (String.eqb _ _); [done|].
  destruct (ContentLength c =? 0) eqn:Hlen.
  { intros [= <-]. left. split; [|done]. by apply Z.eqb_eq. }
  destruct (Body c) as [e|body]; [done|]. destruct (Field sv i) as [structField|]; [|done].
  set (decoded := if strings.HasPrefix _ _ then _ else _). clearbody decoded.
  cbn zeta. destruct decoded.2; [done|].
  intros Hrun. right. exists body, structField, decoded.1. split_and!; try done.
  case_bool_decide as Hkind; simpl in Hrun.
  2: { injection Hrun as <-. by left. }
  destruct (FieldByName T bodySentFields) as [[j field]|].
  2: { injection Hrun as <-. right. by left. }
  destruct (negb (bool_decide _)); [done|]. destruct (negb (CanSet_flag _)); [done|].
  destruct (json_Unmarshal_lookupTable ext body) as [e|data]; [done|].
  destruct (Typ field); try done. injection Hrun as <-.
  right. right. by exists j, field, data.
Qed.

Lemma bindBody_frame c T sv i f o sv' j :
  bindBody ext c T sv i f = (o, sv') → j ≠ i →
  (∀ g, FieldByName T bodySentFields ≠ Some (j, g)) →
  Field sv' j = Field sv j.
Proof.
  intros Hrun Hne Hsent. revert Hrun. unfold bindBody.
  repeat (case_match; try (by intros [= <- <-]);
          try (intros [= <- <-]; by rewrite ?Field_SetField_ne)).
  all: try (intros [= <- <-]; subst; rewrite !Field_SetField_ne; [done|done|];
            intros ->; by eapply Hsent).
Qed.

Lemma bindBody_shape c T sv i f o sv' j :
  bindBody ext c T sv i f = (o, sv') → is_Some (Field sv' j) ↔ is_Some (Field sv j).
Proof.
  unfold bindBody.
  repeat (case_match; try (by intros [= <- <-]);
          try (intros [= <- <-]; by rewrite ?Field_SetField_is_Some)).
Qed.

Lemma fieldHandlers_cases name h :
  fieldHandlers ext name = Some h →
  (name = bodyField ∧ h = bindBody ext) ∨ (name ≠ bodyField ∧ ∃ bind, h = onSection bind).
Proof.
  unfold fieldHandlers.
  destruct (String.eqb name pathField) eqn:H1.
  { apply String.eqb_eq in H1 as ->. intros [= <-]. right. split; [done|eauto]. }
  destruct (String.eqb name queryField) eqn:H2.
  { apply String.eqb_eq in H2 as ->. intros [= <-]. right. split; [done|eauto]. }
  destruct (String.eqb name bodyField) eqn:H3.
  { apply String.eqb_eq in H3 as ->. intros [= <-]. by left. }
  apply String.eqb_neq in H3.
  destruct (String.eqb name formField); [intros [= <-]; right; split; [done|eauto]|].
  destruct (String.eqb name headerField); [intros [= <-]; right; split; [done|eauto]|].
  done.
Qed.

Lemma handler_frame name h c T sv i f o sv' j :
  fieldHandlers ext name = Some h → h c T sv i f = (o, sv') → j ≠ i →
  (name ≠ bodyField ∨ ∀ g, FieldByName T bodySentFields ≠ Some (j, g)) →
  Field sv' j = Field sv j.
Proof.
  intros [[-> ->]|[Hname [bind ->]]]%fieldHandlers_cases Hrun Hne Hsent.
  - destruct Hsent as [?|Hsent]; [done|]. by eapply bindBody_frame.
  - by eapply onSection_frame.
Qed.

Lemma handler_shape name h c T sv i f o sv' j :
  fieldHandlers ext name = Some h → h c T sv i f = (o, sv') →
  is_Some (Field sv' j) ↔ is_Some (Field sv j).
Proof.
  intros [[-> ->]|[Hname [bind ->]]]%fieldHandlers_cases Hrun.
  - by eapply bindBody_shape.
  - by eapply onSection_shape.
Qed.

Lemma Bind_loop_app binder c T pre rest i st :
  Bind_loop ext binder c T (pre ++ rest) i st
  = match Bind_loop ext binder c T pre i st with
    | (None, st1) => Bind_loop ext binder c T rest (i + length pre) st1
    | r => r
    end.
Proof.
  revert i st. induction pre as [|f pre IH]; intros i st; simpl.
  { by rewrite Nat.add_0_r. }
  replace (i + S (length pre))%nat with (S i + length pre)%nat by lia.
  destruct (fieldHandlers ext (Name f)) as [h|]; [|apply IH].
  destruct (_ && _); [by destruct (callEchoDefaultBinderOnError binder)|].
  destruct st.2 as [sv|]; [|done]. destruct (Field sv i); [|done].
  by destruct (h c T sv i f) as [[| |] sv'].
Qed.


(** The loop keeps a struct value once it has one, never returns [nil]
    without the fallback, and leaves alone every field that is neither a
    recognised section of the fields it visits nor the sent-fields slot. *)
Lemma Bind_loop_spec binder c T fs i called sv r st :
  Bind_loop ext binder c T fs i (called, Some sv) = (r, st) →
  ∃ sv', st.2 = Some sv'
    ∧ (∀ j, is_Some (Field sv' j) ↔ is_Some (Field sv j))
    ∧ (callEchoDefaultBinderOnError binder = false → r ≠ Some Nil)
    ∧ (∀ j,
         (∀ k g, fs !! k = Some g → is_Some (fieldHandlers ext (Name g)) → j ≠ (i + k)%nat) →
         (bodyField ∉ Name <$> fs ∨ ∀ g, FieldByName T bodySentFields ≠ Some (j, g)) →
         Field sv' j = Field sv j).
Proof.
  revert i called sv. induction fs as [|f fs IH]; intros i called sv Hrun; simpl in Hrun.
  { injection Hrun as <- <-. exists sv. done. }
  assert (Hrest : ∀ called' sv1,
            (∀ j, is_Some (Field sv1 j) ↔ is_Some (Field sv j)) →
            (∀ j, (is_Some (fieldHandlers ext (Name f)) → j ≠ i) →
                  (Name f ≠ bodyField ∨ ∀ g, FieldByName T bodySentFields ≠ Some (j, g)) →
                  Field sv1 j = Field sv j) →
            Bind_loop ext binder c T fs (S i) (called', Some sv1) = (r, st) →
            ∃ sv', st.2 = Some sv'
              ∧ (∀ j, is_Some (Field sv' j) ↔ is_Some (Field sv j))
              ∧ (callEchoDefaultBinderOnError binder = false → r ≠ Some Nil)
              ∧ (∀ j,
                   (∀ k g, (f :: fs) !! k = Some g → is_Some (fieldHandlers ext (Name g)) →
                           j ≠ (i + k)%nat) →
                   (bodyField ∉ Name <$> f :: fs
                    ∨ ∀ g, FieldByName T bodySentFields ≠ Some (j, g)) →
                   Field sv' j = Field sv j)).
  { intros called' sv1 Hshape Hframe Hloop.
    apply IH in Hloop as (sv' & Hst & Hshape' & Hret & Hframe').
    exists sv'. split_and!; [done| |done|].
    - intros j. by rewrite Hshape'.
    - intros j Hj Hsent. rewrite Hframe'.
      + apply Hframe.
        * intros Hh. specialize (Hj 0%nat f eq_refl Hh). lia.
        * destruct Hsent as [Hsent|Hsent]; [|by right].
          left. intros Heq. apply Hsent. rewrite fmap_cons, Heq. left.
      + intros k g Hk Hg. replace (S i + k)%nat with (i + S k)%nat by lia.
        by apply (Hj (S k) g).
      + destruct Hsent as [Hsent|Hsent]; [|by right].
        left. intros Hin. apply Hsent. rewrite fmap_cons. by right. }
  assert (Hstop : ∀ o called' sv1,
            (∀ j, is_Some (Field sv1 j) ↔ is_Some (Field sv j)) →
            (∀ j, (is_Some (fieldHandlers ext (Name f)) → j ≠ i) →
                  (Name f ≠ bodyField ∨ ∀ g, FieldByName T bodySentFields ≠ Some (j, g)) →
                  Field sv1 j = Field sv j) →
            (callEchoDefaultBinderOnError binder = false → o ≠ Nil) →
            (Some o, (called', Some sv1)) = (r, st) →
            ∃ sv', st.2 = Some sv'
              ∧ (∀ j, is_Some (Field sv' j) ↔ is_Some (Field sv j))
              ∧ (callEchoDefaultBinderOnError binder = false → r ≠ Some Nil)
              ∧ (∀ j,
                   (∀ k g, (f :: fs) !! k = Some g → is_Some (fieldHandlers ext (Name g)) →
                           j ≠ (i + k)%nat) →
                   (bodyField ∉ Name <$> f :: fs
                    ∨ ∀ g, FieldByName T bodySentFields ≠ Some (j, g)) →
                   Field sv' j = Field sv j)).
  { intros o called' sv1 Hshape Hframe Ho [= <- <-]. exists sv1. split_and!; [done..| |].
    - intros Hfb [= ->]. by apply Ho.
    - intros j Hj Hsent. apply Hframe.
      + intros Hh. specialize (Hj 0%nat f eq_refl Hh). lia.
      + destruct Hsent as [Hsent|Hsent]; [|by right].
        left. intros Heq. apply Hsent. rewrite fmap_cons, Heq. left. }
  destruct (fieldHandlers ext (Name f)) as [h|] eqn:Hh; [|by eapply Hrest].
  destruct (_ && _).
  { destruct (callEchoDefaultBinderOnError binder) eqn:Hfb;
      (eapply Hstop; [done|done| |exact Hrun]); done. }
  simpl in Hrun. destruct (Field sv i) as [x|] eqn:Hx.
  2: { eapply Hstop; [done|done| |exact Hrun]; done. }
  destruct (h c T sv i f) as [o sv1] eqn:Hh1.
  assert (Hshape : ∀ j, is_Some (Field sv1 j) ↔ is_Some (Field sv j)).
  { intros j. by eapply handler_shape. }
  assert (Hframe : ∀ j, (is_Some (Some h) → j ≠ i) →
            (Name f ≠ bodyField ∨ ∀ g, FieldByName T bodySentFields ≠ Some (j, g)) →
            Field sv1 j = Field sv j).
  { intros j Hj Hsent. eapply handler_frame; eauto. }
  destruct o; [by eapply Hrest|..]; (eapply Hstop; [done|done| |exact Hrun]); done.
Qed.

Lemma recognised_not_sentFields name : is_Some (fieldHandlers ext name) → name ≠ bodySentFields.
Proof. intros [h Hh] ->. by vm_compute in Hh. Qed.


Lemma bindQuery_unsupported c T fl structField :
  Method c ≠ MethodGet → Method c ≠ MethodDelete → Method c ≠ MethodHead →
  bindQuery ext c T fl structField
  = (Failed (badRequestError (getUnsupportedHttpMethodError queryField (Method c))),
     structField).
Proof.
  intros Hg Hd Hh. unfold bindQuery.
  by rewrite (proj2 (String.eqb_neq _ _) Hg), (proj2 (String.eqb_neq _ _) Hd),
    (proj2 (String.eqb_neq _ _) Hh).
Qed.

(** C9: for a request whose method is not GET, DELETE or HEAD, [bindQuery]
    returns the unsupported-method error whatever the query parameters are,
    without touching the section; and [Bind] on a record that declares a
    Query section returns that error as soon as its loop reaches the
    section. *)
Theorem query_rejects_other_methods binder c :
  Method c ≠ MethodGet → Method c ≠ MethodDelete → Method c ≠ MethodHead →
  (∀ T fl structField params,
     bindQuery ext (withQueryParams c params) T fl structField
     = (Failed (badRequestError (getUnsupportedHttpMethodError queryField (Method c))),
        structField))
  ∧ (∀ fs ms sv pre typeField post called sv1,
       fs = pre ++ typeField :: post →
       Name typeField = queryField →
       indirectKind (Typ typeField) = reflect.Struct →
       Bind_loop ext binder c (TStruct fs ms) pre 0 (false, Some sv)
       = (None, (called, Some sv1)) →
       is_Some (Field sv1 (length pre)) →
       Bind ext binder (IVal (TPtr (TStruct fs ms)) (VPtr (Some sv))) c
       = (Failed (badRequestError (badRequestError
                    (getUnsupportedHttpMethodError queryField (Method c)))),
          IVal (TPtr (TStruct fs ms)) (VPtr (Some sv1)))).
Proof.
  intros Hg Hd Hh. split.
  - intros T fl structField params. by apply (bindQuery_unsupported (withQueryParams c params)).
  - intros fs ms sv pre typeField post called sv1 -> Hname Hkind Hpre [x Hx].
    unfold Bind. rewrite Bind_loop_app, Hpre. simpl. rewrite Hname. cbn [fieldHandlers].
    change (fieldHandlers ext queryField) with (Some (onSection (bindQuery ext))).
    rewrite (bool_decide_eq_true_2 _ Hkind), Hx. simpl.
    unfold onSection. rewrite Hx, bindQuery_unsupported by done.
    by rewrite (SetField_id _ _ _ Hx).
Qed.

(** The two checks that [Bind] makes on its target: a target whose dynamic
    type is not a pointer gets the invalid-type error; a target whose type
    is a pointer to something that is not a record gets the same error when
    the fallback is off and the outcome of echo's default binder when it is
    on. *)
Theorem invalid_target_type binder i c :
  (∀ T v, i = IVal T v → Kind T ≠ reflect.Ptr →
          Bind ext binder i c = (Failed (badRequestError errorInvalidType), i))
  ∧ (∀ elem v, i = IVal (TPtr elem) v → Kind elem ≠ reflect.Struct →
       Bind ext binder i c
       = if callEchoDefaultBinderOnError binder then defaultBinder binder i c
         else (Failed (badRequestError errorInvalidType), i)).
Proof.
  split.
  - intros T v -> HT. by destruct T.
  - intros elem v -> Helem. by destruct elem.
Qed.

(** C1, as amended: for a request with a non-zero declared content length
    and a record that declares a Body section that is itself a struct and a
    [BodySentFields] field of the presence-table type, when [Bind], with the
    fallback off, returns nil, the body was read, it decoded into a generic
    map, and the slot holds the presence table built from that map. *)
Theorem sent_fields_slot_filled binder c fs ms sv ib fb bfs bms isent fsent target' :
  NoDup (Name <$> fs) →
  fs !! ib = Some fb → Name fb = bodyField → Typ fb = TStruct bfs bms →
  fs !! isent = Some fsent → Name fsent = bodySentFields → Typ fsent = TRecursiveLookupTable →
  is_Some (Field sv isent) →
  ContentLength c ≠ 0 →
  callEchoDefaultBinderOnError binder = false →
  Bind ext binder (IVal (TPtr (TStruct fs ms)) (VPtr (Some sv))) c = (Nil, target') →
  ∃ body data sv',
    Body c = inr body ∧ json_Unmarshal_lookupTable ext body = inr data
    ∧ target' = IVal (TPtr (TStruct fs ms)) (VPtr (Some sv'))
    ∧ Field sv' isent = Some (VMap (Some (IntoRecursiveLookupTable data))).
Proof.
  intros Hnodup Hb Hbname Hbty Hs Hsname Hsty Hsv Hlen Hfb Hrun.
  unfold Bind in Hrun.
  destruct (Bind_loop _ _ _ _ _ _ _) as [r [called' st]] eqn:Hloop.
  pose proof Hloop as Hspec.
  apply Bind_loop_spec in Hspec as (sv' & Hst & _ & Hret & _). simpl in Hst. subst st.
  destruct r as [o|].
  { injection Hrun as Ho _. subst o. by destruct (Hret Hfb). }
  assert (target' = IVal (TPtr (TStruct fs ms)) (VPtr (Some sv'))) as ->.
  { rewrite Hfb, andb_false_r in Hrun. destruct (validator binder) as [Struct|].
    - destruct (Struct _); [done|]. by injection Hrun as <-.
    - by injection Hrun as <-. }
  clear Hrun Hret.
  pose proof (take_drop_middle _ _ _ Hb) as Hsplit.
  assert (Bind_loop ext binder c (TStruct fs ms) (take ib fs ++ fb :: drop (S ib) fs) 0
            (false, Some sv) = (None, (called', Some sv'))) as Hloop' by (by rewrite Hsplit).
  clear Hloop. rename Hloop' into Hloop. rewrite Bind_loop_app in Hloop.
  destruct (Bind_loop ext binder c (TStruct fs ms) (take ib fs) 0 (false, Some sv))
    as [r1 [called1 st1]] eqn:Hpre.
  pose proof Hpre as Hspec.
  apply Bind_loop_spec in Hspec as (sv1 & Hst1 & Hshape1 & _ & _). simpl in Hst1. subst st1.
  destruct r1; [discriminate Hloop|].
  assert (Hib : length (take ib fs) = ib).
  { apply length_take_le. apply lookup_lt_Some in Hb. lia. }
  rewrite Hib in Hloop. simpl in Hloop. rewrite Hbname in Hloop.
  change (fieldHandlers ext bodyField) with (Some (bindBody ext)) in Hloop.
  rewrite String.eqb_refl, andb_false_r in Hloop. simpl in Hloop.
  destruct (Field sv1 ib) as [x|] eqn:Hx; [|done].
  destruct (bindBody ext c (TStruct fs ms) sv1 ib fb) as [o sv2] eqn:Hbody.
  destruct o; try done.
  apply bindBody_Nil in Hbody as [[? _]|(body & structField & decoded & Hbodyc & _ & Hcases)];
    [done|].
  rewrite (FieldByName_NoDup _ _ _ _ _ Hnodup Hs Hsname), Hbty in Hcases.
  destruct Hcases as [[? _]|[[? _]|(j & field & data & _ & [= <- <-] & Hdata & ->)]]; try done.
  apply Bind_loop_spec in Hloop as (sv'' & [= <-] & _ & _ & Hframe).
  exists body, data, sv'. split_and!; try done.
  rewrite Hframe.
  - apply Field_SetField_eq with (x := default VOpaque (Field (SetField sv1 ib decoded) isent)).
    destruct (proj2 (Field_SetField_is_Some sv1 ib decoded isent)) as [y ->]; [|done].
    by apply Hshape1.
  - intros k g Hk Hrec Heq.
    assert (fs !! isent = Some g) as Hg.
    { rewrite <- Hsplit, Heq. rewrite lookup_app_r, Hib by lia.
      by replace (S ib + k - ib)%nat with (S k) by lia. }
    rewrite Hs in Hg. injection Hg as <-. rewrite Hsname in Hrec.
    by apply recognised_not_sentFields in Hrec.
  - left. intros Hin. apply list_elem_of_fmap in Hin as (g & Hname & Hg).
    apply list_elem_of_lookup in Hg as [k Hk].
    assert (fs !! (S ib + k)%nat = Some g) as Hg.
    { rewrite <- Hsplit. rewrite lookup_app_r, Hib by lia.
      by replace (S ib + k - ib)%nat with (S k) by lia. }
    assert (S ib + k = ib)%nat; [|lia].
    eapply NoDup_lookup; [exact Hnodup| |].
    + by rewrite list_lookup_fmap, Hg.
    + rewrite list_lookup_fmap, Hb. simpl. congruence.
Qed.

(** A nil pointer to a record: the loop skips the fields it does not
    recognise and panics at the first section it would dispatch. *)
Lemma Bind_loop_unrecognised binder c T pre i st :
  Forall (λ g, fieldHandlers ext (Name g) = None) pre →
  Bind_loop ext binder c T pre i st = (None, st).
Proof.
  intros Hpre. revert i. induction Hpre as [|g pre Hg _ IH]; intros i; simpl; [done|].
  by rewrite Hg.
Qed.

Lemma Bind_nil_pointer binder c fs ms pre f post h :
  fs = pre ++ f :: post →
  Forall (λ g, fieldHandlers ext (Name g) = None) pre →
  fieldHandlers ext (Name f) = Some h →
  indirectKind (Typ f) = reflect.Struct ∨ Name f = bodyField →
  Bind ext binder (IVal (TPtr (TStruct fs ms)) (VPtr None)) c
  = (Panic, IVal (TPtr (TStruct fs ms)) (VPtr None)).
Proof.
  intros -> Hpre Hh Hkind. unfold Bind.
  rewrite Bind_loop_app, Bind_loop_unrecognised by done. simpl. rewrite Hh.
  replace (negb (bool_decide (indirectKind (Typ f) = reflect.Struct))
           && negb (String.eqb (Name f) bodyField)) with false; [done|].
  destruct Hkind as [Hkind|Hkind].
  - by rewrite (bool_decide_eq_true_2 _ Hkind).
  - by rewrite Hkind, andb_false_r.
Qed.

(** C3 fails on a nil pointer: a nil pointer to a record is no non-nil
    pointer to a record, and [Bind] does not answer it with the invalid-type
    error.  It checks the type of the target only; at the first field that
    it dispatches to a section binder, [structValue.Field(i)] is called on
    the zero [reflect.Value] that [Elem] gives for a nil pointer, and
    panics.  (The checks on the type return the error, and the flattener
    allocates the nil pointers it meets inside a section.) *)
Theorem nil_pointer_target_panics binder c fs ms pre f post :
  fs = pre ++ f :: post →
  Forall (λ g, fieldHandlers ext (Name g) = None) pre →
  is_Some (fieldHandlers ext (Name f)) →
  indirectKind (Typ f) = reflect.Struct ∨ Name f = bodyField →
  ¬ nonNilPointerToRecord (IVal (TPtr (TStruct fs ms)) (VPtr None))
  ∧ Bind ext binder (IVal (TPtr (TStruct fs ms)) (VPtr None)) c
    = (Panic, IVal (TPtr (TStruct fs ms)) (VPtr None))
  ∧ (Bind ext binder (IVal (TPtr (TStruct fs ms)) (VPtr None)) c).1
    ≠ Failed (badRequestError errorInvalidType).
Proof.
  intros Hfs Hpre [h Hh] Hkind.
  pose proof (Bind_nil_pointer binder c fs ms pre f post h Hfs Hpre Hh Hkind) as Hrun.
  split_and!; [|done|by rewrite Hrun].
  by intros (fs' & ms' & structValue & [=]).
Qed.

End properties.

(** * Further properties of the code *)

Section further.
Context (ext : Externals).

(** ** More on the presence table *)

Lemma Split_not_nil s sep : strings.Split s sep ≠ [].
Proof. destruct s as [|c s]; simpl; [done|]. destruct (Ascii.eqb c sep); [done|]. by destruct (strings.Split s sep). Qed.

Lemma Split_all_dotFree s : Forall dotFree (strings.Split s ".").
Proof.
  induction s as [|c s IH]; simpl; [by repeat constructor|].
  destruct (Ascii.eqb c ".") eqn:Hc; [by constructor|].
  destruct (strings.Split s ".") as [|h t]; [by repeat constructor; unfold dotFree; simpl; rewrite Hc|].
  apply Forall_cons in IH as [Hh Ht]. constructor; [|done].
  unfold dotFree in *. simpl. by rewrite Hc, Hh.
Qed.

Lemma Join_Split s : strings.Join (strings.Split s ".") "." = s.
Proof.
  induction s as [|c s IH]; simpl; [done|].
  destruct (Ascii.eqb c ".") eqn:Hc.
  - apply Ascii.eqb_eq in Hc as ->.
    pose proof (Split_not_nil s ".") as Hne.
    destruct (strings.Split s ".") as [|h t]; [done|]. simpl in *. by rewrite IH.
  - pose proof (Split_not_nil s ".") as Hne.
    destruct (strings.Split s ".") as [|h t]; [done|].
    destruct t as [|h' t]; simpl in *; by rewrite <- IH.
Qed.

Lemma Split_app_dot p rest :
  strings.Split (p +:+ String "." rest) "." = strings.Split p "." ++ strings.Split rest ".".
Proof.
  induction p as [|c p IH]; simpl; [done|].
  destruct (Ascii.eqb c "."); rewrite IH; [done|].
  pose proof (Split_not_nil p ".") as Hne.
  by destruct (strings.Split p ".") as [|h t].
Qed.

Lemma FieldExists_Join_Split l key :
  FieldExists l (strings.Join (strings.Split key ".") ".")
  = existsKeys l (strings.Split key ".").
Proof. apply FieldExists_keys; [apply Split_not_nil|apply Split_all_dotFree]. Qed.

Lemma existsKeys_prefix l keys more :
  keys ≠ [] → existsKeys l (keys ++ more) = true → existsKeys l keys = true.
Proof.
  revert l. induction keys as [|k0 tail IH]; intros l Hne; [done|].
  rewrite <- app_comm_cons. cbn [existsKeys].
  destruct (entries l !! k0) as [data|]; [|done].
  destruct tail as [|k1 tail]; [by destruct more|].
  rewrite <- app_comm_cons. apply IH. done.
Qed.

(** X1: the query walks the table along the segments of the key: the
    recursion of [FieldExists] on the re-joined tail ends for every key, and
    its answer is that of the walk along [strings.Split(key, ".")]. *)
Theorem FieldExists_walks_segments l key :
  FieldExists l key = existsKeys l (strings.Split key ".").
Proof.
  rewrite <- (Join_Split key) at 1.
  apply FieldExists_keys; [apply Split_not_nil|apply Split_all_dotFree].
Qed.

(** X2: presence is closed under prefixes: when a dotted path is present, so
    is the path before any of its dots. *)
Theorem FieldExists_prefix_closed l p rest :
  FieldExists l (p +:+ String "." rest) = true → FieldExists l p = true.
Proof.
  rewrite <- (Join_Split (p +:+ String "." rest)), <- (Join_Split p).
  rewrite !FieldExists_Join_Split, !Join_Split, Split_app_dot.
  apply existsKeys_prefix, Split_not_nil.
Qed.

(** X3: on the table built from a decoded payload, a key is present exactly
    when the payload has objects nested along the segments of the key, the
    last segment being a key of the innermost one, whatever its value. *)
Theorem FieldExists_of_payload (payload : lookupTable) key :
  FieldExists (IntoRecursiveLookupTable payload) key = true
  ↔ present (strings.Split key ".") payload.
Proof.
  rewrite <- (Join_Split key), FieldExists_Join_Split, Join_Split. apply existsKeys_present.
Qed.

Lemma FieldExists_fuel_empty fuel key : FieldExists_fuel fuel (RLT ∅) key = false.
Proof.
  destruct fuel as [|fuel]; [done|]. cbn [FieldExists_fuel].
  destruct (strings.Split key ".") as [|k0 tail]; [done|]. simpl. by rewrite lookup_empty.
Qed.

(** X4: the two presence queries agree: asking the decoded payload itself
    ([lookupTable.FieldExists]) gives the answer of the table converted from
    it ([IntoRecursiveLookupTable] then [RecursiveLookupTable.FieldExists]),
    for every key. *)
Theorem lookupTable_FieldExists_agrees (l : lookupTable) key :
  lookupTable_FieldExists l key = FieldExists (IntoRecursiveLookupTable l) key.
Proof.
  unfold lookupTable_FieldExists, FieldExists. generalize (S (String.length key)).
  intros fuel. revert l key. induction fuel as [|fuel IH]; intros l key; [done|].
  cbn [lookupTable_FieldExists_fuel FieldExists_fuel].
  destruct (strings.Split key ".") as [|k0 tail]; [done|].
  rewrite entries_Into_lookup.
  destruct (l !! k0) as [data|]; [|done]. cbn [fmap option_fmap option_map].
  case_bool_decide; [done|].
  rewrite IntoRecursiveLookupTable_value_remarshal.
  destruct (remarshal data) as [lut|]; [apply IH|].
  by rewrite FieldExists_fuel_empty.
Qed.

(** ** More on coercion *)

Lemma digit_bound c d : strconv.digit c = Some d → 0 ≤ d ≤ 9.
Proof.
  unfold strconv.digit. destruct (_ && _) eqn:H; [|done].
  intros [= <-]. apply andb_true_iff in H as [?%Z.leb_le ?%Z.leb_le]. lia.
Qed.

Lemma parseDigits_bound s n maxVal m :
  strconv.parseDigits s n maxVal = inr m → 0 ≤ n ≤ maxVal → 0 ≤ m ≤ maxVal.
Proof.
  revert n. induction s as [|c s IH]; intros n; simpl.
  { by intros [= <-]. }
  destruct (strconv.digit c) as [d|] eqn:Hd; [|done].
  apply digit_bound in Hd.
  destruct (maxVal <? n * 10 + d) eqn:Hlt; [done|].
  apply Z.ltb_ge in Hlt. intros Hrun Hn. apply (IH _ Hrun). lia.
Qed.

Lemma ParseUint_range s bitSize n :
  0 ≤ strconv.bits bitSize →
  strconv.ParseUint s bitSize = inr n → 0 ≤ n < 2 ^ strconv.bits bitSize.
Proof.
  intros Hb. unfold strconv.ParseUint. destruct s as [|c s]; [done|].
  destruct (strconv.parseDigits _ _ _) as [k|m] eqn:Hrun; [done|].
  intros [= <-]. apply parseDigits_bound in Hrun; [lia|].
  assert (0 < 2 ^ strconv.bits bitSize); [|lia].
  by apply Z.pow_pos_nonneg.
Qed.

Lemma ParseInt_range s bitSize n :
  1 ≤ strconv.bits bitSize →
  strconv.ParseInt s bitSize = inr n →
  - 2 ^ (strconv.bits bitSize - 1) ≤ n < 2 ^ (strconv.bits bitSize - 1).
Proof.
  intros Hb. unfold strconv.ParseInt. destruct s as [|c s]; [done|].
  cbv zeta. generalize (if Ascii.eqb c "+" || Ascii.eqb c "-" then s else String c s).
  intros [|c' body']; [done|]. set (neg := Ascii.eqb c "-").
  destruct (strconv.parseDigits _ _ _) as [k|un] eqn:Hrun; [done|].
  assert (0 < 2 ^ strconv.bits bitSize) by (apply Z.pow_pos_nonneg; lia).
  assert (0 < 2 ^ (strconv.bits bitSize - 1)) by (apply Z.pow_pos_nonneg; lia).
  apply parseDigits_bound in Hrun; [|lia].
  destruct neg; simpl.
  - destruct (_ <? un) eqn:Hlt; [done|]. apply Z.ltb_ge in Hlt. intros [= <-]. lia.
  - destruct (_ <=? un) eqn:Hle; [done|]. apply Z.leb_gt in Hle. intros [= <-]. lia.
Qed.

Ltac no_hooks Hp Ht :=
  cbn [setWithProperType unmarshalField]; unfold unmarshalFieldNonPtr;
  cbn [methods]; rewrite Hp, Ht; cbn [Kind].

(** X5: an empty string binds the zero value: for a slot of boolean, integer
    or string kind (without unmarshal hooks), coercing [""] succeeds and
    stores the zero value of the type, whatever the slot held. *)
Theorem empty_string_binds_zero k ms cur :
  k ∈ parsedKinds → UnmarshalParam ms = None → UnmarshalText ms = None →
  setWithProperType ext (TBasic k ms) "" cur = (Zero (TBasic k ms), None).
Proof.
  intros Hk Hp Ht. no_hooks Hp Ht.
  unfold parsedKinds in Hk.
  repeat (apply elem_of_cons in Hk as [->|Hk]; [reflexivity|]).
  by apply elem_of_nil in Hk.
Qed.

(** X6: an integer that is stored fits its kind: when the coercion into a
    slot of a signed kind of width [w] succeeds, the slot holds an integer
    between [-2^(w-1)] and [2^(w-1) - 1]; for an unsigned kind, between [0]
    and [2^w - 1].  The bit size handed to [strconv] is that of the kind. *)
Theorem stored_integer_fits_kind k ms val cur x :
  UnmarshalParam ms = None → UnmarshalText ms = None →
  setWithProperType ext (TBasic k ms) val cur = (x, None) →
  (∀ w, intWidth k = Some w → ∃ n, x = VInt n ∧ - 2 ^ (w - 1) ≤ n < 2 ^ (w - 1))
  ∧ (∀ w, uintWidth k = Some w → ∃ n, x = VUint n ∧ 0 ≤ n < 2 ^ w).
Proof.
  intros Hp Ht. no_hooks Hp Ht.
  assert (Hint : ∀ bitSize w, strconv.bits bitSize = w → 1 ≤ w →
            setIntField val bitSize cur = (x, None) →
            ∃ n, x = VInt n ∧ - 2 ^ (w - 1) ≤ n < 2 ^ (w - 1)).
  { intros bitSize w <- Hw. unfold setIntField.
    destruct (strconv.ParseInt _ _) as [e|n] eqn:Hparse; [done|].
    intros [= <-]. exists n. split; [done|]. by eapply ParseInt_range. }
  assert (Huint : ∀ bitSize w, strconv.bits bitSize = w → 0 ≤ w →
            setUintField val bitSize cur = (x, None) →
            ∃ n, x = VUint n ∧ 0 ≤ n < 2 ^ w).
  { intros bitSize w <- Hw. unfold setUintField.
    destruct (strconv.ParseUint _ _) as [e|n] eqn:Hparse; [done|].
    intros [= <-]. exists n. split; [done|]. by eapply ParseUint_range. }
  intros Hset. split; intros w Hw; destruct k; try done; injection Hw as <-;
    (eapply Hint; [| |exact Hset]; [reflexivity|lia])
    || (eapply Huint; [| |exact Hset]; [reflexivity|lia]).
Qed.

Lemma set_at_get_at q v x : get_at q v = Some x → set_at q x v = v.
Proof.
  revert v. induction q as [|i rest IH]; intros v; [by intros [= ->]|].
  rewrite get_at_cons. intros Hx.
  destruct (Field (deref v) i) as [y|] eqn:Hy; [|done]. simpl in Hx.
  apply Field_Some_struct in Hy as (vs & Hv & Hy).
  assert (alter (set_at rest x) i vs = vs) as Halter.
  { apply list_eq. intros j. destruct (decide (i = j)) as [<-|Hne].
    - rewrite list_lookup_alter_eq, Hy. simpl. by rewrite IH.
    - by rewrite list_lookup_alter_ne. }
  destruct v as [| | | | |[t|]| | | |]; simpl in Hv; try done.
  - subst t. cbn [set_at]. by rewrite Halter.
  - injection Hv as ->. cbn [set_at]. by rewrite Halter.
Qed.

(** X7: a failed coercion leaves the section as it was: when the string does
    not parse into a slot of a basic type without unmarshal hooks, the
    error comes back and no field of the section has changed. *)
Theorem failed_coercion_keeps_section s val sv sv' err k ms :
  slot_type s = TBasic k ms → UnmarshalParam ms = None → UnmarshalText ms = None →
  setSlot ext s val sv = Some (sv', Some err) → sv' = sv.
Proof.
  intros Hty Hp Ht. unfold setSlot.
  destruct (get_at (slot_path s) sv) as [cur|] eqn:Hcur; [|done].
  rewrite Hty. destruct (setWithProperType _ _ _ _) as [x e] eqn:Hset.
  intros [= <- ->]. apply (setWithProperType_basic_error ext) in Hset; [|done..].
  subst x. by apply set_at_get_at.
Qed.

(** ** More on the flattener *)

(** Every leaf of a record type that has an identifier is in the declaration
    list, at its path. *)
Lemma declared_loop_complete fs :
  Forall (λ f, (∀ fl p q g id, Kind (Typ f) = reflect.Struct →
                  field_at q (Typ f) = Some g → isLeaf g → identifier g = Some id →
                  ∃ d, (id, d) ∈ declared (Typ f) fl p ∧ slot_path (Value d) = p ++ q)
               ∧ (∀ fl p q g id, Kind (derefType (Typ f)) = reflect.Struct →
                    field_at q (derefType (Typ f)) = Some g → isLeaf g →
                    identifier g = Some id →
                    ∃ d, (id, d) ∈ declared (derefType (Typ f)) fl p
                         ∧ slot_path (Value d) = p ++ q)) fs →
  ∀ i fl p k f rest g id,
    fs !! k = Some f → subField f rest = Some g → isLeaf g → identifier g = Some id →
    ∃ d, (id, d) ∈ declared_loop declared fs i fl p
         ∧ slot_path (Value d) = p ++ (i + k)%nat :: rest.
Proof.
  induction 1 as [|f0 fs [IHf IHelem] _ IH]; intros i fl p k f rest g id Hk Hg Hleaf Hid; [done|].
  rewrite declared_loop_cons. destruct k as [|k].
  2: { simpl in Hk. destruct (IH (S i) fl p k f rest g id) as (d & Hin & Hp); [done..|].
       exists d. split; [apply elem_of_app; by right|].
       by replace (i + S k)%nat with (S i + k)%nat by lia. }
  simpl in Hk. injection Hk as Heq. subst f0. rewrite Nat.add_0_r.
  destruct rest as [|j rest].
  - injection Hg as <-. unfold isLeaf in Hleaf.
    rewrite (bool_decide_eq_false_2 _ Hleaf), Hid.
    exists (mkData f fl (p ++ [i])). split; [apply elem_of_app; left; apply list_elem_of_singleton; done|done].
  - cbn [subField] in Hg.
    assert (indirectKind (Typ f) = reflect.Struct) as Hrec.
    { by apply (field_at_isRecord (j :: rest) _ g). }
    rewrite (bool_decide_eq_true_2 _ Hrec).
    assert (∃ d, (id, d) ∈ (match Typ f with
                            | TPtr elem => declared elem (Field_flag fl f) (p ++ [i])
                            | _ => declared (Typ f) (Field_flag fl f) (p ++ [i])
                            end)
                 ∧ slot_path (Value d) = (p ++ [i]) ++ j :: rest) as (d & Hin & Hp).
    { destruct (Typ f) as [k0 ms|elem|elem ms|fs' ms|] eqn:HT; try done.
      - simpl in Hrec, IHelem. apply (IHelem _ _ _ g); try done. by rewrite <- field_at_ptr.
      - by apply (IHf _ _ _ g). }
    exists d. split; [apply elem_of_app; by left|]. by rewrite Hp, <- (assoc_L (++)).
Qed.

Lemma declared_complete T fl p q g id :
  Kind T = reflect.Struct → field_at q T = Some g → isLeaf g → identifier g = Some id →
  ∃ d, (id, d) ∈ declared T fl p ∧ slot_path (Value d) = p ++ q.
Proof.
  revert fl p q g id.
  induction T as [k ms|elem _|elem ms _|fs ms IH|] using type_deref_ind;
    intros fl p q g id HT Hg Hleaf Hid; try done;
    (destruct q as [|i rest]; [done|]); rewrite field_at_cons in Hg; simpl in Hg; try done.
  destruct (fs !! i) as [f|] eqn:Hf; [|done]. simpl in Hg.
  destruct (declared_loop_complete fs IH 0%nat fl p i f rest g id) as (d & Hin & Hp); try done.
  by exists d.
Qed.

(** The flags of a declared slot are those of a field with the slot's name. *)
Lemma declared_loop_flag fs :
  Forall (λ f, (∀ fl p id d, (id, d) ∈ declared (Typ f) fl p →
                  ∃ fl' g, slot_flag (Value d) = Field_flag fl' g ∧ FieldName d = Name g)
               ∧ (∀ fl p id d, (id, d) ∈ declared (derefType (Typ f)) fl p →
                    ∃ fl' g, slot_flag (Value d) = Field_flag fl' g ∧ FieldName d = Name g)) fs →
  ∀ i fl p id d, (id, d) ∈ declared_loop declared fs i fl p →
    ∃ fl' g, slot_flag (Value d) = Field_flag fl' g ∧ FieldName d = Name g.
Proof.
  induction 1 as [|f fs [IHf IHelem] _ IH]; intros i fl p id d Hin; [by apply elem_of_nil in Hin|].
  rewrite declared_loop_cons in Hin. apply elem_of_app in Hin as [Hin|Hin]; [|by eapply IH].
  case_bool_decide as Hkind.
  - destruct (Typ f) as [k ms|elem|elem ms|fs' ms|] eqn:HT;
      try done; try (by apply elem_of_nil in Hin).
    + by eapply IHelem.
    + by eapply IHf.
  - destruct (identifier f) as [id'|]; [|by apply elem_of_nil in Hin].
    apply list_elem_of_singleton in Hin as [= -> ->]. by exists fl, f.
Qed.

Lemma declared_flag T fl p id d :
  (id, d) ∈ declared T fl p →
  ∃ fl' g, slot_flag (Value d) = Field_flag fl' g ∧ FieldName d = Name g.
Proof.
  revert fl p id d.
  induction T as [k ms|elem _|elem ms _|fs ms IH|] using type_deref_ind;
    intros fl p id d Hin; try (by apply elem_of_nil in Hin).
  by eapply (declared_loop_flag _ IH).
Qed.

Lemma Field_flag_unexported fl g : IsExported (Name g) = false → CanSet_flag (Field_flag fl g) = false.
Proof.
  intros Hg. unfold Field_flag, CanSet_flag. rewrite Hg.
  destruct (Anonymous g); simpl; [by rewrite orb_true_r|done].
Qed.

(** X8: the flattener maps exactly the identifiers of the leaves: after a
    successful run an identifier is a key of the map if and only if some
    leaf field of the section (at any depth, through records and pointers
    to records) has that identifier, and the slot stored under a key is a
    leaf with that identifier that exists in the section returned. *)
Theorem flattener_maps_the_leaves T fl sv fields sv1 :
  getStructFields T fl [] sv = (Ok fields, sv1) →
  (∀ id, is_Some (fields !! id)
         ↔ ∃ q f, field_at q T = Some f ∧ isLeaf f ∧ identifier f = Some id)
  ∧ (∀ id d, fields !! id = Some d →
       ∃ f, field_at (slot_path (Value d)) T = Some f ∧ isLeaf f
            ∧ identifier f = Some id ∧ slot_type (Value d) = Typ f
            ∧ FieldName d = Name f ∧ is_Some (get_at (slot_path (Value d)) sv1)).
Proof.
  intros Hrun. split; [|intros id d; by apply (getStructFields_slot _ _ _ _ _ _ _ Hrun)].
  intros id. split.
  - intros [d Hd]. destruct (getStructFields_slot _ _ _ _ _ _ _ Hrun Hd)
      as (f & Hf & Hleaf & Hid & _). eauto.
  - intros (q & f & Hf & Hleaf & Hid).
    destruct (getStructFields_Ok_struct _ _ _ _ _ _ Hrun) as (fs & ms & ->).
    destruct (declared_complete (TStruct fs ms) fl [] q f id) as (d & Hin & _); try done.
    rewrite (getStructFields_declared _ _ _ _ _ _ Hrun).
    apply not_eq_None_Some. rewrite <- not_elem_of_list_to_map, fmap_reverse, elem_of_reverse.
    intros Hnot. apply Hnot. apply list_elem_of_fmap. by exists (id, d).
Qed.

(** X9: a leaf with an unexported name (a name that starts with an ASCII
    character other than an upper-case letter) is mapped but cannot be set:
    its slot answers [CanSet] with false, so a query, form or path key that
    matches it makes the binder return the not-settable error (reflect
    would panic on the assignment) and leaves the section alone. *)
Theorem unexported_leaf_not_settable T fl sv fields sv1 id d :
  getStructFields T fl [] sv = (Ok fields, sv1) →
  fields !! id = Some d →
  asciiInitial (FieldName d) = true → IsExported (FieldName d) = false →
  CanSet (Value d) = false
  ∧ (∀ location values sv2,
       bindValues ext location fields id values sv2
       = (Some (Failed (badRequestError (getNotSettableParamAtLocationError location id))), sv2))
  ∧ (∀ names values i sv2,
       bindPath_loop ext fields (id :: names) values i sv2
       = (Failed (badRequestError (getNotSettableParamAtLocationError pathField id)), sv2)).
Proof.
  intros Hrun Hd _ Hname.
  assert (CanSet (Value d) = false) as Hset.
  { rewrite (getStructFields_declared _ _ _ _ _ _ Hrun) in Hd.
    apply elem_of_list_to_map_2, elem_of_reverse, declared_flag in Hd as (fl' & g & Hfl & Hg).
    unfold CanSet. rewrite Hfl. apply Field_flag_unexported. by rewrite <- Hg. }
  split_and!; [done|..].
  - intros location values sv2. unfold bindValues. by rewrite Hd, Hset.
  - intros names values i sv2. cbn [bindPath_loop]. by rewrite Hd, Hset.
Qed.

(** ** More on the loops of the source binders *)

Lemma set_at_comm q q' x y v :
  incomparable q q' → set_at q x (set_at q' y v) = set_at q' y (set_at q x v).
Proof.
  revert q' v. induction q as [|i r IH]; intros q' v Hinc.
  { destruct Hinc as [[] _]. apply prefix_nil. }
  destruct q' as [|j r']. { destruct Hinc as [_ []]. apply prefix_nil. }
  assert (∀ vs : list value, alter (set_at r x) i (alter (set_at r' y) j vs)
                = alter (set_at r' y) j (alter (set_at r x) i vs)) as Hvs.
  { intros vs. destruct (decide (i = j)) as [<-|Hne].
    - rewrite !list_alter_alter_eq. apply list_alter_ext; [|done].
      intros z _. simpl. apply IH. by eapply incomparable_cons.
    - by apply list_alter_alter_ne. }
  destruct v as [| | | | |[t|]| | | |]; try done.
  - destruct t; try done. cbn [set_at]. by rewrite Hvs.
  - cbn [set_at]. by rewrite Hvs.
Qed.

Lemma incomparable_sym q q' : incomparable q q' → incomparable q' q.
Proof. by intros [??]. Qed.

Lemma setSlot_inv s val sv sv' e :
  setSlot ext s val sv = Some (sv', e) →
  ∃ cur x, get_at (slot_path s) sv = Some cur
           ∧ setWithProperType ext (slot_type s) val cur = (x, e)
           ∧ sv' = set_at (slot_path s) x sv.
Proof.
  unfold setSlot. destruct (get_at (slot_path s) sv) as [cur|]; [|done].
  destruct (setWithProperType _ _ _ _) as [x e'] eqn:Hset. intros [= <- <-]. eauto.
Qed.

Lemma setSlot_intro s val sv cur x e :
  get_at (slot_path s) sv = Some cur →
  setWithProperType ext (slot_type s) val cur = (x, e) →
  setSlot ext s val sv = Some (set_at (slot_path s) x sv, e).
Proof. intros Hcur Hset. unfold setSlot. by rewrite Hcur, Hset. Qed.

Lemma slotsValid_set fields d id x sv :
  slotsApart fields → fields !! id = Some d → slotsValid fields sv →
  slotsValid fields (set_at (slot_path (Value d)) x sv).
Proof.
  intros Hapart Hd Hvalid id' d' Hd'. destruct (decide (id' = id)) as [->|Hne].
  - rewrite Hd in Hd'. injection Hd' as <-. destruct (Hvalid _ _ Hd) as [cur Hcur].
    exists x. by eapply get_at_set_at_eq.
  - rewrite get_at_set_at_ne; [by eapply Hvalid|].
    apply incomparable_sym. by eapply (Hapart id d id' d').
Qed.

Lemma getStructFields_slotsApart T fl v fields v' :
  getStructFields T fl [] v = (Ok fields, v') → slotsApart fields.
Proof. intros Hrun id d id' d' Hd Hd' Hne. by eapply getStructFields_slots_apart. Qed.

Lemma getStructFields_slotsValid T fl v fields v' :
  getStructFields T fl [] v = (Ok fields, v') → slotsValid fields v'.
Proof.
  intros Hrun id d Hd.
  by destruct (getStructFields_slot _ _ _ _ _ _ _ Hrun Hd) as (f & _ & _ & _ & _ & _ & ?).
Qed.

(** *** The step for one key of the query or of the form *)

(** A step that lets the loop go on either finds no slot, or writes one
    value into the slot of the key; the value depends on the section only
    through what the slot holds. *)
Lemma bindValues_None_inv location fields name values sv sv' :
  bindValues ext location fields name values sv = (None, sv') →
  (fields !! name = None ∧ sv' = sv)
  ∨ ∃ d x, fields !! name = Some d ∧ sv' = set_at (slot_path (Value d)) x sv
      ∧ ∀ sv0, get_at (slot_path (Value d)) sv0 = get_at (slot_path (Value d)) sv →
               is_Some (get_at (slot_path (Value d)) sv0) →
               bindValues ext location fields name values sv0
               = (None, set_at (slot_path (Value d)) x sv0).
Proof.
  unfold bindValues. destruct (fields !! name) as [d|] eqn:Hd; [|intros [= <-]; by left].
  destruct (CanSet (Value d)); simpl; [|done]. intros Hrun. right.
  assert (match values with
          | [] => (Some Panic, sv)
          | val :: _ =>
              match setSlot ext (Value d) val sv with
              | Some (sv0, Some err) => (Some (Failed (badRequestError err)), sv0)
              | Some (sv0, None) => (None, sv0)
              | None => (Some Panic, sv)
              end
          end = (None, sv') →
          ∃ x, sv' = set_at (slot_path (Value d)) x sv
            ∧ ∀ sv0, get_at (slot_path (Value d)) sv0 = get_at (slot_path (Value d)) sv →
                is_Some (get_at (slot_path (Value d)) sv0) →
                match values with
                | [] => (Some Panic, sv0)
                | val :: _ =>
                    match setSlot ext (Value d) val sv0 with
                    | Some (sv1, Some err) => (Some (Failed (badRequestError err)), sv1)
                    | Some (sv1, None) => (None, sv1)
                    | None => (Some Panic, sv0)
                    end
                end = (None, set_at (slot_path (Value d)) x sv0)) as Hscalar.
  { destruct values as [|val more]; [done|].
    destruct (setSlot ext (Value d) val sv) as [[sv1 [e|]]|] eqn:Hset; try done.
    intros [= <-]. apply setSlot_inv in Hset as (cur & x & Hcur & Hset & ->).
    exists x. split; [done|]. intros sv0 Hsame _.
    by rewrite (setSlot_intro _ _ _ cur x None) by congruence. }
  destruct (slot_type (Value d)) as [k ms|elem|elem ms|fs ms|] eqn:Hty;
    try (destruct (Hscalar Hrun) as (x & -> & Hx); exists d, x; by split_and!).
  destruct (bindSlice _ _ _ _ _) as [slice| |]; try done.
  injection Hrun as <-. exists d, (VSlice slice). split_and!; done.
Qed.

Lemma bindValues_valid location fields name values sv sv' :
  slotsApart fields → slotsValid fields sv →
  bindValues ext location fields name values sv = (None, sv') → slotsValid fields sv'.
Proof.
  intros Hapart Hvalid [[_ ->]|(d & x & Hd & -> & _)]%bindValues_None_inv; [done|].
  by eapply slotsValid_set.
Qed.

Lemma bindValues_swap location fields n1 vs1 n2 vs2 sv sv1 sv2 :
  slotsApart fields → slotsValid fields sv → n1 ≠ n2 →
  bindValues ext location fields n1 vs1 sv = (None, sv1) →
  bindValues ext location fields n2 vs2 sv1 = (None, sv2) →
  ∃ sv1', bindValues ext location fields n2 vs2 sv = (None, sv1')
          ∧ bindValues ext location fields n1 vs1 sv1' = (None, sv2).
Proof.
  intros Hapart Hvalid Hne H1 H2.
  pose proof (bindValues_valid _ _ _ _ _ _ Hapart Hvalid H1) as Hvalid1.
  apply bindValues_None_inv in H1 as [[Hn1 ->]|(d1 & x1 & Hd1 & -> & Hstep1)].
  { exists sv2. split; [done|]. unfold bindValues. by rewrite Hn1. }
  apply bindValues_None_inv in H2 as [[Hn2 ->]|(d2 & x2 & Hd2 & -> & Hstep2)].
  { eexists. split; [unfold bindValues; by rewrite Hn2|]. apply Hstep1; [done|by eapply Hvalid]. }
  assert (incomparable (slot_path (Value d1)) (slot_path (Value d2))) as Hinc.
  { by eapply (Hapart n2 d2 n1 d1). }
  exists (set_at (slot_path (Value d2)) x2 sv). split.
  - apply Hstep2; [|by eapply Hvalid]. symmetry. by apply get_at_set_at_ne.
  - rewrite Hstep1.
    + f_equal. by apply set_at_comm.
    + apply get_at_set_at_ne. by apply incomparable_sym.
    + rewrite get_at_set_at_ne by (by apply incomparable_sym). by eapply Hvalid.
Qed.

Lemma bindValues_loop_Nil_cons location fields name values rest sv sv' :
  bindValues_loop ext location fields ((name, values) :: rest) sv = (Nil, sv') ↔
  ∃ sv1, bindValues ext location fields name values sv = (None, sv1)
         ∧ bindValues_loop ext location fields rest sv1 = (Nil, sv').
Proof.
  simpl. destruct (bindValues ext location fields name values sv) as [[o|] sv1] eqn:Hstep.
  - split.
    + intros [= -> ->]. by apply bindValues_returns in Hstep.
    + by intros (sv1' & [=] & _).
  - split; [eauto|]. by intros (sv1' & [= <-] & ?).
Qed.

Lemma bindValues_loop_perm location fields params params' :
  params ≡ₚ params' → NoDup params.*1 → slotsApart fields →
  ∀ sv sv', slotsValid fields sv →
    bindValues_loop ext location fields params sv = (Nil, sv') →
    bindValues_loop ext location fields params' sv = (Nil, sv').
Proof.
  intros Hperm Hnodup Hapart.
  induction Hperm as [|[n vs] l l' Hperm IH|[n1 vs1] [n2 vs2] l|l l' l'' Hperm1 IH1 Hperm2 IH2];
    intros sv sv' Hvalid Hrun.
  - done.
  - apply NoDup_cons in Hnodup as [_ Hnodup].
    apply bindValues_loop_Nil_cons in Hrun as (sv1 & Hstep & Hrest).
    apply bindValues_loop_Nil_cons. exists sv1. split; [done|].
    apply IH; [done| |done]. by eapply bindValues_valid.
  - apply bindValues_loop_Nil_cons in Hrun as (sv1 & Hstep1 & Hrun).
    apply bindValues_loop_Nil_cons in Hrun as (sv2 & Hstep2 & Hrest).
    assert (n1 ≠ n2) as Hne.
    { apply NoDup_cons in Hnodup as [Hfresh _]. intros ->. apply Hfresh. simpl. left. }
    destruct (bindValues_swap _ _ _ _ _ _ _ _ _ Hapart Hvalid (not_eq_sym Hne) Hstep1 Hstep2)
      as (sv1' & Hstep2' & Hstep1').
    apply bindValues_loop_Nil_cons. exists sv1'. split; [done|].
    apply bindValues_loop_Nil_cons. by exists sv2.
  - apply IH2; [|done|by apply IH1]. by rewrite <- Hperm1.
Qed.

Lemma bindValues_loop_matched location fields params sv :
  bindValues_loop ext location fields (matched fields params) sv
  = bindValues_loop ext location fields params sv.
Proof.
  revert sv. induction params as [|[name values] rest IH]; intros sv; [done|].
  unfold matched in *. rewrite filter_cons. simpl.
  destruct (fields !! name) as [d|] eqn:Hd.
  - rewrite decide_True by done. simpl.
    destruct (bindValues ext location fields name values sv) as [[o|] sv1]; [done|]. apply IH.
  - rewrite decide_False by (by intros [??]). rewrite IH.
    unfold bindValues. by rewrite Hd.
Qed.

(** X10: the keys of the query and of the form that match no slot are
    ignored: the binder returns what it returns for the request without
    them (unlike the path binder, which reports such a key as missing). *)
Theorem unmatched_keys_ignored c T fl sv fields sv1 :
  getStructFields T fl [] sv = (Ok fields, sv1) →
  bindQuery ext c T fl sv
  = bindQuery ext (withQueryParams c (matched fields (QueryParams c))) T fl sv
  ∧ ∀ params, FormParams c = inr params →
      bindForm ext c T fl sv = bindForm ext (withFormParams c (matched fields params)) T fl sv.
Proof.
  intros Hflat. split.
  - unfold bindQuery. rewrite Hflat. simpl. by rewrite bindValues_loop_matched.
  - intros params Hparams. unfold bindForm. rewrite Hflat, Hparams. simpl.
    by rewrite bindValues_loop_matched.
Qed.

(** X11: the order in which the keys of the query or of the form are visited
    does not matter to a successful run: when the binder returns nil for
    one order of the (distinct) keys, it returns nil, with the same section,
    for every other order. *)
Theorem key_order_irrelevant c T fl sv sv2 params params' :
  NoDup params.*1 → params ≡ₚ params' →
  (QueryParams c = params →
   bindQuery ext c T fl sv = (Nil, sv2) →
   bindQuery ext (withQueryParams c params') T fl sv = (Nil, sv2))
  ∧ (FormParams c = inr params →
     bindForm ext c T fl sv = (Nil, sv2) →
     bindForm ext (withFormParams c params') T fl sv = (Nil, sv2)).
Proof.
  intros Hnodup Hperm.
  destruct (getStructFields T fl [] sv) as [[fields|e|] sv1] eqn:Hflat.
  2, 3: split; intros Hparams;
        unfold bindQuery, bindForm; rewrite ?Hflat, ?Hparams; simpl;
        repeat (case_match; try done).
  pose proof (getStructFields_slotsApart _ _ _ _ _ Hflat) as Hapart.
  pose proof (getStructFields_slotsValid _ _ _ _ _ Hflat) as Hvalid.
  split; intros Hparams.
  - unfold bindQuery. rewrite Hflat, Hparams. simpl.
    destruct (_ && _); [done|]. by apply bindValues_loop_perm.
  - unfold bindForm. rewrite Hflat, Hparams. simpl.
    repeat (destruct (_ : bool); [done|]). by apply bindValues_loop_perm.
Qed.

(** *** The path loop *)

Lemma bindPath_loop_frame_names fields names values i sv o sv' q :
  (∀ name d, name ∈ names → fields !! name = Some d → incomparable (slot_path (Value d)) q) →
  bindPath_loop ext fields names values i sv = (o, sv') →
  get_at q sv' = get_at q sv.
Proof.
  revert i sv. induction names as [|name rest IH]; intros i sv Hclear Hrun; simpl in Hrun.
  { by injection Hrun as <- <-. }
  destruct (fields !! name) as [d|] eqn:Hd; [|by injection Hrun as <- <-].
  destruct (CanSet (Value d)); simpl in Hrun; [|by injection Hrun as <- <-].
  destruct (values !! i); [|by injection Hrun as <- <-].
  assert (incomparable (slot_path (Value d)) q) by (eapply Hclear; [left|done]).
  destruct (setSlot ext (Value d) s sv) as [[sv1 [e|]]|] eqn:Hset.
  - injection Hrun as <- <-. by eapply setSlot_frame.
  - rewrite (IH (S i) sv1); [by eapply setSlot_frame| |done].
    intros n d' Hn. apply Hclear. by right.
  - by injection Hrun as <- <-.
Qed.

Lemma bindPath_loop_bound fields names values i sv sv' k name :
  slotsApart fields → NoDup names →
  bindPath_loop ext fields names values i sv = (Nil, sv') →
  names !! k = Some name →
  ∃ d val cur x, fields !! name = Some d ∧ CanSet (Value d) = true
    ∧ values !! (i + k)%nat = Some val
    ∧ get_at (slot_path (Value d)) sv = Some cur
    ∧ setWithProperType ext (slot_type (Value d)) val cur = (x, None)
    ∧ get_at (slot_path (Value d)) sv' = Some x.
Proof.
  intros Hapart. revert i sv k.
  induction names as [|n rest IH]; intros i sv k Hnodup Hrun Hk; [done|].
  apply NoDup_cons in Hnodup as [Hfresh Hnodup]. simpl in Hrun.
  destruct (fields !! n) as [d|] eqn:Hd; [|done].
  destruct (CanSet (Value d)) eqn:Hcan; simpl in Hrun; [|done].
  destruct (values !! i) as [val|] eqn:Hval; [|done].
  destruct (setSlot ext (Value d) val sv) as [[sv1 [e|]]|] eqn:Hset; try done.
  destruct k as [|k].
  - injection Hk as <-. pose proof Hset as Hinv.
    apply setSlot_inv in Hinv as (cur & x & Hcur & Hcoerce & ->).
    exists d, val, cur, x. rewrite Nat.add_0_r. split_and!; try done.
    erewrite bindPath_loop_frame_names; [by eapply get_at_set_at_eq| |done].
    intros n' d' Hn' Hd'. eapply (Hapart n d n' d'); [done..|]. by intros ->.
  - simpl in Hk. destruct (IH (S i) sv1 k Hnodup Hrun Hk)
      as (d' & val' & cur & x & Hd' & Hcan' & Hval' & Hcur & Hcoerce & Hx).
    exists d', val', cur, x. replace (i + S k)%nat with (S i + k)%nat by lia.
    split_and!; try done. rewrite <- Hcur. symmetry. eapply setSlot_frame; [done|].
    eapply (Hapart name d' n d); [done..|]. intros ->. apply Hfresh.
    by eapply list_elem_of_lookup_2.
Qed.

(** X12: a successful run of the path binder has bound every parameter: each
    (distinct) parameter name is the identifier of a settable slot, and the
    slot holds the coercion of the parameter's value into what the slot held
    after flattening. *)
Theorem path_parameters_bound c T fl sv fields sv1 sv2 i name :
  getStructFields T fl [] sv = (Ok fields, sv1) →
  bindPath ext c T fl sv = (Nil, sv2) →
  NoDup (ParamNames c) → ParamNames c !! i = Some name →
  ∃ d val cur x, fields !! name = Some d ∧ CanSet (Value d) = true
    ∧ ParamValues c !! i = Some val
    ∧ get_at (slot_path (Value d)) sv1 = Some cur
    ∧ setWithProperType ext (slot_type (Value d)) val cur = (x, None)
    ∧ get_at (slot_path (Value d)) sv2 = Some x.
Proof.
  intros Hflat Hrun Hnodup Hname. unfold bindPath in Hrun. rewrite Hflat in Hrun.
  eapply (bindPath_loop_bound _ _ _ 0%nat); eauto.
  by eapply getStructFields_slotsApart.
Qed.

(** *** The header loop *)

(** One step of the header loop that lets the loop go on. *)
Lemma bindHeader_loop_Nil_cons c name d rest sv sv' :
  bindHeader_loop ext c ((name, d) :: rest) sv = (Nil, sv') ↔
  (Header_Get c name = "" ∧ bindHeader_loop ext c rest sv = (Nil, sv'))
  ∨ (Header_Get c name ≠ "" ∧ CanSet (Value d) = true
     ∧ ∃ sv1, setSlot ext (Value d) (Header_Get c name) sv = Some (sv1, None)
              ∧ bindHeader_loop ext c rest sv1 = (Nil, sv')).
Proof.
  simpl. destruct (String.eqb (Header_Get c name) "") eqn:Hh.
  { apply String.eqb_eq in Hh. split; [by left|]. by intros [[_ ?]|[? _]]. }
  apply String.eqb_neq in Hh.
  destruct (CanSet (Value d)); simpl.
  2: { split; [done|]. by intros [[? _]|(_ & ? & _)]. }
  destruct (setSlot ext (Value d) (Header_Get c name) sv) as [[sv1 [e|]]|].
  - split; [done|]. by intros [[? _]|(_ & _ & sv1' & [=] & _)].
  - split; [right; eauto|]. by intros [[? _]|(_ & _ & sv1' & [= <-] & ?)].
  - split; [done|]. by intros [[? _]|(_ & _ & sv1' & [=] & _)].
Qed.

Lemma setSlot_swap s1 v1 s2 v2 sv sv1 sv2 :
  incomparable (slot_path s1) (slot_path s2) →
  setSlot ext s1 v1 sv = Some (sv1, None) →
  setSlot ext s2 v2 sv1 = Some (sv2, None) →
  ∃ sv1', setSlot ext s2 v2 sv = Some (sv1', None)
          ∧ setSlot ext s1 v1 sv1' = Some (sv2, None).
Proof.
  intros Hinc (cur1 & x1 & Hcur1 & Hset1 & ->)%setSlot_inv
    (cur2 & x2 & Hcur2 & Hset2 & ->)%setSlot_inv.
  rewrite get_at_set_at_ne in Hcur2 by done.
  exists (set_at (slot_path s2) x2 sv). split.
  - by apply (setSlot_intro _ _ _ cur2).
  - rewrite (setSlot_intro _ _ _ cur1 x1 None); [|by rewrite get_at_set_at_ne by (by apply incomparable_sym)|done].
    by rewrite (set_at_comm _ _ _ _ _ Hinc).
Qed.

Lemma bindHeader_loop_perm c fields entries entries' :
  entries ≡ₚ entries' → NoDup entries.*1 → slotsApart fields →
  (∀ name d, (name, d) ∈ entries → fields !! name = Some d) →
  ∀ sv sv', bindHeader_loop ext c entries sv = (Nil, sv') →
            bindHeader_loop ext c entries' sv = (Nil, sv').
Proof.
  intros Hperm Hnodup Hapart.
  induction Hperm as [|[n d] l l' Hperm IH|[n2 d2] [n1 d1] l|l l' l'' Hperm1 IH1 Hperm2 IH2];
    intros Hin sv sv' Hrun.
  - done.
  - apply NoDup_cons in Hnodup as [_ Hnodup].
    assert (∀ name d, (name, d) ∈ l → fields !! name = Some d) as Hin'.
    { intros name d' Hd'. apply Hin. by right. }
    apply bindHeader_loop_Nil_cons in Hrun as [[Hh Hrest]|(Hh & Hcan & sv1 & Hset & Hrest)];
      apply bindHeader_loop_Nil_cons; [left|right]; eauto 10.
  - assert (n1 ≠ n2) as Hne.
    { apply NoDup_cons in Hnodup as [Hfresh _]. intros ->. apply Hfresh. simpl. left. }
    assert (incomparable (slot_path (Value d1)) (slot_path (Value d2))) as Hinc.
    { eapply (Hapart n2 d2 n1 d1); [apply Hin|apply Hin|done]; [right; left|left]. }
    apply bindHeader_loop_Nil_cons in Hrun as [[Hh1 Hrun]|(Hh1 & Hcan1 & sv1 & Hset1 & Hrun)];
      apply bindHeader_loop_Nil_cons in Hrun as [[Hh2 Hrest]|(Hh2 & Hcan2 & sv2 & Hset2 & Hrest)];
      apply bindHeader_loop_Nil_cons.
    + left. split; [done|]. apply bindHeader_loop_Nil_cons. by left.
    + right. split_and!; [done..|]. exists sv2. split; [done|].
      apply bindHeader_loop_Nil_cons. by left.
    + left. split; [done|]. apply bindHeader_loop_Nil_cons. right. eauto 10.
    + destruct (setSlot_swap _ _ _ _ _ _ _ Hinc Hset1 Hset2)
        as (sv1' & Hset2' & Hset1').
      right. split_and!; [done..|]. exists sv1'. split; [done|].
      apply bindHeader_loop_Nil_cons. right. eauto 10.
  - apply IH2; [by rewrite <- Hperm1| |apply IH1; done].
    intros name d Hd. apply Hin. by rewrite Hperm1.
Qed.

Lemma bindHeader_loop_frame_entries c entries sv o sv' q :
  (∀ name d, (name, d) ∈ entries → incomparable (slot_path (Value d)) q) →
  bindHeader_loop ext c entries sv = (o, sv') →
  get_at q sv' = get_at q sv.
Proof.
  revert sv. induction entries as [|[name d] rest IH]; intros sv Hclear Hrun; simpl in Hrun.
  { by injection Hrun as <- <-. }
  assert (Hrest : ∀ name d, (name, d) ∈ rest → incomparable (slot_path (Value d)) q).
  { intros n d' Hn. apply (Hclear n). by right. }
  destruct (String.eqb (Header_Get c name) ""); [by apply IH|].
  destruct (CanSet (Value d)); simpl in Hrun; [|by injection Hrun as <- <-].
  assert (incomparable (slot_path (Value d)) q) by (apply (Hclear name); left).
  destruct (setSlot ext (Value d) (Header_Get c name) sv) as [[sv1 [e|]]|] eqn:Hset.
  - injection Hrun as <- <-. by eapply setSlot_frame.
  - rewrite (IH _ Hrest Hrun). by eapply setSlot_frame.
  - by injection Hrun as <- <-.
Qed.

Lemma bindHeader_loop_bound c fields entries sv sv' name d :
  slotsApart fields → NoDup entries.*1 →
  (∀ name d, (name, d) ∈ entries → fields !! name = Some d) →
  bindHeader_loop ext c entries sv = (Nil, sv') →
  (name, d) ∈ entries →
  if String.eqb (Header_Get c name) "" then
    get_at (slot_path (Value d)) sv' = get_at (slot_path (Value d)) sv
  else
    CanSet (Value d) = true
    ∧ ∃ cur x, get_at (slot_path (Value d)) sv = Some cur
        ∧ setWithProperType ext (slot_type (Value d)) (Header_Get c name) cur = (x, None)
        ∧ get_at (slot_path (Value d)) sv' = Some x.
Proof.
  intros Hapart. revert sv.
  induction entries as [|[n d0] rest IH]; intros sv Hnodup Hin Hrun Hd.
  { by apply elem_of_nil in Hd. }
  apply NoDup_cons in Hnodup as [Hfresh Hnodup]. simpl in Hfresh.
  assert (∀ name d, (name, d) ∈ rest → fields !! name = Some d) as Hin'.
  { intros name' d' Hd'. apply Hin. by right. }
  assert (Hframe : ∀ sv1 sv2 o, bindHeader_loop ext c rest sv1 = (o, sv2) →
            get_at (slot_path (Value d0)) sv2 = get_at (slot_path (Value d0)) sv1).
  { intros sv1 sv2 o. apply bindHeader_loop_frame_entries.
    intros n' d' Hd'. eapply (Hapart n d0 n' d'); [apply Hin; left|by apply Hin'|].
    intros ->. apply Hfresh. apply list_elem_of_fmap. by exists (n, d'). }
  apply elem_of_cons in Hd as [[= -> ->]|Hd].
  - apply bindHeader_loop_Nil_cons in Hrun as [[Hh Hrest]|(Hh & Hcan & sv1 & Hset & Hrest)].
    + rewrite Hh. simpl. by eapply Hframe.
    + rewrite (proj2 (String.eqb_neq _ _) Hh). split; [done|].
      apply setSlot_inv in Hset as (cur & x & Hcur & Hcoerce & ->).
      exists cur, x. split_and!; [done..|].
      rewrite (Hframe _ _ _ Hrest). by eapply get_at_set_at_eq.
  - assert (n ≠ name) as Hne.
    { intros ->. apply Hfresh. apply list_elem_of_fmap. by exists (name, d). }
    assert (incomparable (slot_path (Value d0)) (slot_path (Value d))) as Hinc.
    { eapply (Hapart name d n d0); [apply Hin; by right|apply Hin; left|done]. }
    apply bindHeader_loop_Nil_cons in Hrun as [[Hh Hrest]|(Hh & Hcan & sv1 & Hset & Hrest)].
    + by apply IH.
    + specialize (IH sv1 Hnodup Hin' Hrest Hd).
      rewrite <- (setSlot_frame ext _ _ _ _ _ _ Hset Hinc). done.
Qed.

(** X13: a successful run of the header binder has bound every header: for
    each identifier of the section's map, when the request has no value for
    it the slot is as the flattener left it, and otherwise the slot is
    settable and holds the coercion of the header's value into what it held
    after flattening. *)
Theorem header_values_bound c T fl sv fields sv1 sv2 id d :
  getStructFields T fl [] sv = (Ok fields, sv1) →
  bindHeader ext c T fl sv = (Nil, sv2) →
  fields !! id = Some d →
  if String.eqb (Header_Get c id) "" then
    get_at (slot_path (Value d)) sv2 = get_at (slot_path (Value d)) sv1
  else
    CanSet (Value d) = true
    ∧ ∃ cur x, get_at (slot_path (Value d)) sv1 = Some cur
        ∧ setWithProperType ext (slot_type (Value d)) (Header_Get c id) cur = (x, None)
        ∧ get_at (slot_path (Value d)) sv2 = Some x.
Proof.
  intros Hflat Hrun Hd. unfold bindHeader in Hrun. rewrite Hflat in Hrun.
  eapply (bindHeader_loop_bound c fields (map_to_list fields)); eauto.
  - by eapply getStructFields_slotsApart.
  - apply NoDup_fst_map_to_list.
  - intros name' d'. apply elem_of_map_to_list.
  - by apply elem_of_map_to_list.
Qed.

(** X14: the order in which the header binder visits the entries of its map
    (Go leaves the order of a [range] over a map open) does not matter to a
    successful run: a run of the loop over any enumeration of the map
    returns nil exactly when [bindHeader] does, with the same section. *)
Theorem header_order_irrelevant c T fl sv fields sv1 sv2 entries :
  getStructFields T fl [] sv = (Ok fields, sv1) →
  entries ≡ₚ map_to_list fields →
  bindHeader_loop ext c entries sv1 = (Nil, sv2) ↔ bindHeader ext c T fl sv = (Nil, sv2).
Proof.
  intros Hflat Hperm. unfold bindHeader. rewrite Hflat.
  pose proof (getStructFields_slotsApart _ _ _ _ _ Hflat) as Hapart.
  split; apply (bindHeader_loop_perm c fields); try done.
  - rewrite Hperm. apply NoDup_fst_map_to_list.
  - intros name d. rewrite Hperm. apply elem_of_map_to_list.
  - apply NoDup_fst_map_to_list.
  - intros name d. apply elem_of_map_to_list.
Qed.

(** *** Leaves that the request does not supply *)

Lemma slot_of_other_leaf T fl sv fields sv1 q f name d :
  getStructFields T fl [] sv = (Ok fields, sv1) →
  field_at q T = Some f → isLeaf f →
  fields !! name = Some d → identifier f ≠ Some name →
  incomparable (slot_path (Value d)) q.
Proof.
  intros Hrun Hf Hleaf Hd Hid.
  destruct (getStructFields_slot _ _ _ _ _ _ _ Hrun Hd) as (f' & Hf' & Hleaf' & Hid' & _).
  eapply leaf_paths_incomparable; eauto.
  intros Heq. rewrite Heq, Hf in Hf'. injection Hf' as <-. done.
Qed.

Lemma bindHeader_loop_frame_supplied c entries sv o sv' q :
  (∀ name d, (name, d) ∈ entries → Header_Get c name ≠ "" →
             incomparable (slot_path (Value d)) q) →
  bindHeader_loop ext c entries sv = (o, sv') →
  get_at q sv' = get_at q sv.
Proof.
  revert sv. induction entries as [|[name d] rest IH]; intros sv Hclear Hrun; simpl in Hrun.
  { by injection Hrun as <- <-. }
  assert (Hrest : ∀ name d, (name, d) ∈ rest → Header_Get c name ≠ "" →
                            incomparable (slot_path (Value d)) q).
  { intros n d' Hn. apply (Hclear n). by right. }
  destruct (String.eqb (Header_Get c name) "") eqn:Hh; [by apply IH|].
  apply String.eqb_neq in Hh.
  destruct (CanSet (Value d)); simpl in Hrun; [|by injection Hrun as <- <-].
  assert (incomparable (slot_path (Value d)) q) by (apply (Hclear name); [left|done]).
  destruct (setSlot ext (Value d) (Header_Get c name) sv) as [[sv1 [e|]]|] eqn:Hset.
  - injection Hrun as <- <-. by eapply setSlot_frame.
  - rewrite (IH _ Hrest Hrun). by eapply setSlot_frame.
  - by injection Hrun as <- <-.
Qed.

(** X15: a leaf that the request does not supply keeps its value: whatever a
    section binder returns, a leaf field of the section whose identifier is
    no path parameter name (no key of the query, no key of the form, no
    header with a value) reads after the call what it read before. *)
Theorem unsupplied_leaf_keeps_value c T fl sv q f x :
  field_at q T = Some f → isLeaf f → get_at q sv = Some x →
  (∀ o sv', (∀ id, identifier f = Some id → id ∉ ParamNames c) →
            bindPath ext c T fl sv = (o, sv') → get_at q sv' = Some x)
  ∧ (∀ o sv', (∀ id, identifier f = Some id → id ∉ (QueryParams c).*1) →
              bindQuery ext c T fl sv = (o, sv') → get_at q sv' = Some x)
  ∧ (∀ o sv', (∀ params id, FormParams c = inr params → identifier f = Some id →
                            id ∉ params.*1) →
              bindForm ext c T fl sv = (o, sv') → get_at q sv' = Some x)
  ∧ (∀ o sv', (∀ id, identifier f = Some id → Header_Get c id = "") →
              bindHeader ext c T fl sv = (o, sv') → get_at q sv' = Some x).
Proof.
  intros Hf Hleaf Hx.
  destruct (getStructFields T fl [] sv) as [r sv1] eqn:Hflat.
  pose proof (getStructFields_keeps_leaf _ _ _ _ _ _ _ _ _ Hflat Hf Hleaf Hx) as Hx1.
  assert (Hother : ∀ fields name d, r = Ok fields → fields !! name = Some d →
                     identifier f ≠ Some name → incomparable (slot_path (Value d)) q).
  { intros fields name d -> Hd Hid. by eapply slot_of_other_leaf. }
  split_and!; intros o sv' Hfree Hrun.
  - unfold bindPath in Hrun. rewrite Hflat in Hrun.
    destruct r as [fields| |]; [|by injection Hrun as <- <-..].
    erewrite bindPath_loop_frame_names; [done| |done].
    intros name d Hname Hd. eapply Hother; [done..|]. intros Hid. by apply (Hfree name).
  - unfold bindQuery in Hrun. rewrite Hflat in Hrun.
    destruct (_ && _); [by injection Hrun as <- <-|].
    destruct r as [fields| |]; [|by injection Hrun as <- <-..].
    erewrite (bindValues_loop_frame ext); [done| |done].
    intros name d Hname Hd. eapply Hother; [done..|]. intros Hid. by apply (Hfree name).
  - unfold bindForm in Hrun. rewrite Hflat in Hrun.
    repeat (destruct (_ : bool); [by injection Hrun as <- <-|]).
    destruct r as [fields| |]; [|by injection Hrun as <- <-..].
    destruct (FormParams c) as [e|params] eqn:Hparams; [by injection Hrun as <- <-|].
    erewrite (bindValues_loop_frame ext); [done| |done].
    intros name d Hname Hd. eapply Hother; [done..|]. intros Hid.
    by apply (Hfree params name).
  - unfold bindHeader in Hrun. rewrite Hflat in Hrun.
    destruct r as [fields| |]; [|by injection Hrun as <- <-..].
    erewrite bindHeader_loop_frame_supplied; [done| |done].
    intros name d Hd%elem_of_map_to_list Hh. eapply Hother; [done..|].
    intros Hid. by apply Hh, Hfree.
Qed.

(** ** More on the orchestrator *)

Lemma Bind_validated binder c fs ms v called sv' :
  Bind_loop ext binder c (TStruct fs ms) fs 0
    (false, match v with VPtr target => target | _ => None end) = (None, (called, sv')) →
  called = true ∨ callEchoDefaultBinderOnError binder = false →
  Bind ext binder (IVal (TPtr (TStruct fs ms)) v) c
  = (validated binder (IVal (TPtr (TStruct fs ms)) (VPtr sv')),
     IVal (TPtr (TStruct fs ms)) (VPtr sv')).
Proof.
  intros Hloop Hcalled. unfold Bind, validated. rewrite Hloop.
  replace (negb called && callEchoDefaultBinderOnError binder) with false.
  2: { destruct Hcalled as [->| ->]; [done|by rewrite andb_false_r]. }
  destruct (validator binder) as [Struct|]; [|done]. by destruct (Struct _).
Qed.

Lemma section_kind_ok f :
  Name f = bodyField ∨ indirectKind (Typ f) = reflect.Struct →
  negb (bool_decide (indirectKind (Typ f) = reflect.Struct))
  && negb (String.eqb (Name f) bodyField) = false.
Proof.
  intros [Hname|Hkind].
  - by rewrite Hname, andb_false_r.
  - by rewrite (bool_decide_eq_true_2 _ Hkind).
Qed.

(** The loop from a section on, when the loop before it has gone through. *)
Lemma Bind_at_section binder c fs ms sv pre f post called sv1 h x :
  fs = pre ++ f :: post →
  Bind_loop ext binder c (TStruct fs ms) pre 0 (false, Some sv) = (None, (called, Some sv1)) →
  fieldHandlers ext (Name f) = Some h →
  Name f = bodyField ∨ indirectKind (Typ f) = reflect.Struct →
  Field sv1 (length pre) = Some x →
  Bind_loop ext binder c (TStruct fs ms) fs 0 (false, Some sv)
  = match h c (TStruct fs ms) sv1 (length pre) f with
    | (Nil, structValue) =>
        Bind_loop ext binder c (TStruct fs ms) post (S (length pre)) (true, Some structValue)
    | (Failed err, structValue) =>
        (Some (Failed (badRequestError err)), (true, Some structValue))
    | (Panic, structValue) => (Some Panic, (true, Some structValue))
    end.
Proof.
  intros Hfs Hpre Hh Hkind Hx. rewrite Hfs at 2. rewrite Bind_loop_app, Hpre. simpl.
  by rewrite Hh, (section_kind_ok _ Hkind), Hx.
Qed.

(** X16: a GET request cannot bind a Body or a Form section: as soon as the
    loop of [Bind] reaches one, [Bind] returns the unsupported-method error
    (for both sections the error names the location [Body]) and leaves the
    section alone. *)
Theorem get_rejects_body_and_form binder c fs ms sv pre typeField post called sv1 :
  Method c = MethodGet →
  fs = pre ++ typeField :: post →
  Name typeField = bodyField
  ∨ (Name typeField = formField ∧ indirectKind (Typ typeField) = reflect.Struct) →
  Bind_loop ext binder c (TStruct fs ms) pre 0 (false, Some sv) = (None, (called, Some sv1)) →
  is_Some (Field sv1 (length pre)) →
  Bind ext binder (IVal (TPtr (TStruct fs ms)) (VPtr (Some sv))) c
  = (Failed (badRequestError (badRequestError
               (getUnsupportedHttpMethodError bodyField MethodGet))),
     IVal (TPtr (TStruct fs ms)) (VPtr (Some sv1))).
Proof.
  intros Hget Hfs Hname Hpre [x Hx]. unfold Bind.
  destruct Hname as [Hname|[Hname Hkind]].
  - rewrite (Bind_at_section _ _ _ _ _ _ _ _ _ _ (bindBody ext) x Hfs Hpre);
      [|by rewrite Hname|by left|done].
    unfold bindBody. by rewrite Hget.
  - rewrite (Bind_at_section _ _ _ _ _ _ _ _ _ _ (onSection (bindForm ext)) x Hfs Hpre);
      [|by rewrite Hname|by right|done].
    unfold onSection, bindForm. rewrite Hx, Hget. simpl.
    by rewrite (SetField_id _ _ _ Hx).
Qed.

(** X17: the status of an error of [Bind] is 400 even when the body could not
    be read: the internal-server error that [bindBody] makes of the read
    error comes back wrapped in a bad request. *)
Theorem body_read_failure binder c fs ms sv pre typeField post called sv1 err :
  Method c ≠ MethodGet → ContentLength c ≠ 0 → Body c = inl err →
  fs = pre ++ typeField :: post → Name typeField = bodyField →
  Bind_loop ext binder c (TStruct fs ms) pre 0 (false, Some sv) = (None, (called, Some sv1)) →
  is_Some (Field sv1 (length pre)) →
  Bind ext binder (IVal (TPtr (TStruct fs ms)) (VPtr (Some sv))) c
  = (Failed (badRequestError (internalServerError err)),
     IVal (TPtr (TStruct fs ms)) (VPtr (Some sv1))).
Proof.
  intros Hget Hlen Hbody Hfs Hname Hpre [x Hx]. unfold Bind.
  rewrite (Bind_at_section _ _ _ _ _ _ _ _ _ _ (bindBody ext) x Hfs Hpre);
    [|by rewrite Hname|by left|done].
  unfold bindBody.
  by rewrite (proj2 (String.eqb_neq _ _) Hget), (proj2 (Z.eqb_neq _ _) Hlen), Hbody.
Qed.

(** X18: a Path or Header section declared as a pointer to a record passes the
    kind check of [Bind] and then panics: the section binders hand the
    pointer itself to the flattener, whose [NumField] needs a struct. *)
Theorem pointer_section_panics binder c fs ms sv pre typeField post called sv1 elem :
  fs = pre ++ typeField :: post →
  Name typeField = pathField ∨ Name typeField = headerField →
  Typ typeField = TPtr elem → Kind elem = reflect.Struct →
  Bind_loop ext binder c (TStruct fs ms) pre 0 (false, Some sv) = (None, (called, Some sv1)) →
  is_Some (Field sv1 (length pre)) →
  Bind ext binder (IVal (TPtr (TStruct fs ms)) (VPtr (Some sv))) c
  = (Panic, IVal (TPtr (TStruct fs ms)) (VPtr (Some sv1))).
Proof.
  intros Hfs Hname Hty Hkind Hpre [x Hx]. unfold Bind.
  assert (indirectKind (Typ typeField) = reflect.Struct) as Hrec by (by rewrite Hty).
  destruct Hname as [Hname|Hname].
  - rewrite (Bind_at_section _ _ _ _ _ _ _ _ _ _ (onSection (bindPath ext)) x Hfs Hpre);
      [|by rewrite Hname|by right|done].
    unfold onSection, bindPath. rewrite Hx, Hty. simpl. by rewrite (SetField_id _ _ _ Hx).
  - rewrite (Bind_at_section _ _ _ _ _ _ _ _ _ _ (onSection (bindHeader ext)) x Hfs Hpre);
      [|by rewrite Hname|by right|done].
    unfold onSection, bindHeader. rewrite Hx, Hty. simpl. by rewrite (SetField_id _ _ _ Hx).
Qed.

Lemma Bind_loop_Failed binder c T fs i st e st' :
  callEchoDefaultBinderOnError binder = false →
  Bind_loop ext binder c T fs i st = (Some (Failed e), st') →
  ∃ inner, e = badRequestError inner.
Proof.
  intros Hfb. revert i st. induction fs as [|f fs IH]; intros i st; simpl; [done|].
  destruct (fieldHandlers ext (Name f)) as [h|]; [|apply IH].
  destruct (_ && _). { rewrite Hfb. intros [= <- _]. eauto. }
  destruct st.2 as [sv|]; [|done]. destruct (Field sv i); [|done].
  destruct (h c T sv i f) as [[|err|] sv']; [apply IH| |done].
  intros [= <- _]. eauto.
Qed.

(** X19: with the fallback off, every error that [Bind] returns is a bad
    request: whatever the target and the request, a failure of [Bind] is an
    HTTP error of status 400 that wraps the cause. *)
Theorem Bind_errors_are_bad_requests binder i c e i' :
  callEchoDefaultBinderOnError binder = false →
  Bind ext binder i c = (Failed e, i') →
  ∃ inner, e = HTTPError StatusBadRequest inner.
Proof.
  intros Hfb. unfold Bind. destruct i as [|T v]; [done|].
  destruct T as [k ms|elem|elem ms|fs ms|]; try (intros [= <- _]; by eexists).
  destruct elem as [k ms|elem|elem ms|fs ms|]; rewrite ?Hfb; try (intros [= <- _]; by eexists).
  destruct (Bind_loop _ _ _ _ _ _ _) as [[o|] [called st]] eqn:Hloop.
  - intros [= -> _]. by eapply Bind_loop_Failed.
  - rewrite andb_false_r. destruct (validator binder) as [Struct|]; [|done].
    destruct (Struct _); [|done]. intros [= <- _]. by eexists.
Qed.

(** X20: with the fallback off, [Bind] never touches a field of the target
    that is neither one of the five sections nor the sent-fields slot,
    whatever it returns; this for a target that has the sent-fields slot as
    a field of its own or embeds nothing, so that the slot is looked up
    among the target's own fields. *)
Theorem unrecognised_fields_untouched binder c fs ms sv o i' :
  ownFieldLookup fs bodySentFields →
  callEchoDefaultBinderOnError binder = false →
  Bind ext binder (IVal (TPtr (TStruct fs ms)) (VPtr (Some sv))) c = (o, i') →
  ∃ sv', i' = IVal (TPtr (TStruct fs ms)) (VPtr (Some sv'))
    ∧ ∀ j g, fs !! j = Some g → fieldHandlers ext (Name g) = None →
             Name g ≠ bodySentFields → Field sv' j = Field sv j.
Proof.
  intros _ Hfb. unfold Bind.
  destruct (Bind_loop _ _ _ _ _ _ _) as [r [called st]] eqn:Hloop.
  apply Bind_loop_spec in Hloop as (sv' & Hst & _ & _ & Hframe). simpl in Hst. subst st.
  intros Hrun. exists sv'. split.
  - destruct r as [o'|]; [by injection Hrun as _ <-|].
    rewrite Hfb, andb_false_r in Hrun. destruct (validator binder) as [Struct|].
    + destruct (Struct _); by injection Hrun as _ <-.
    + by injection Hrun as _ <-.
  - intros j g Hg Hnone Hname. apply Hframe.
    + intros k g' Hg' [h Hh] ->. simpl in Hg. rewrite Hg in Hg'. injection Hg' as <-.
      by rewrite Hnone in Hh.
    + right. intros g' [Hg' Hname']%FieldByName_Some. simpl in Hg'.
      rewrite Hg in Hg'. by injection Hg' as <-.
Qed.

(** X21: a Path, Query, Form or Header field that is not a record (or a
    pointer to one) is rejected before the target is looked at: when it is
    the first section of the target that [Bind] recognises, [Bind] returns
    the invalid-type error for its name with the fallback off, also for a
    nil target pointer. *)
Theorem non_record_section_rejected binder c fs ms target pre typeField post :
  callEchoDefaultBinderOnError binder = false →
  fs = pre ++ typeField :: post →
  Forall (unrecognised ext) pre →
  is_Some (fieldHandlers ext (Name typeField)) → Name typeField ≠ bodyField →
  indirectKind (Typ typeField) ≠ reflect.Struct →
  Bind ext binder (IVal (TPtr (TStruct fs ms)) (VPtr target)) c
  = (Failed (badRequestError
               (getInvalidTypeAtLocationError (Name typeField) structTypeString)),
     IVal (TPtr (TStruct fs ms)) (VPtr target)).
Proof.
  intros Hfb -> Hpre [h Hh] Hname Hkind. unfold Bind.
  rewrite Bind_loop_app, Bind_loop_unrecognised by done. simpl. rewrite Hh.
  rewrite (bool_decide_eq_false_2 _ Hkind), (proj2 (String.eqb_neq _ _) Hname). simpl.
  by rewrite Hfb.
Qed.

Lemma Bind_loop_withDefaultBinder binder db c T fs i st :
  callEchoDefaultBinderOnError binder = false →
  Bind_loop ext (withDefaultBinder binder db) c T fs i st = Bind_loop ext binder c T fs i st.
Proof.
  intros Hfb. revert i st. induction fs as [|f fs IH]; intros i st; simpl; [done|].
  destruct (fieldHandlers ext (Name f)) as [h|]; [|apply IH].
  rewrite Hfb. destruct (_ && _); [done|].
  destruct st.2 as [sv|]; [|done]. destruct (Field sv i); [|done].
  by destruct (h c T sv i f) as [[| |] sv'].
Qed.

(** X22: with the fallback off (as [New] leaves it), echo's default binder is
    never consulted: [Bind] returns the same outcome and the same target
    whatever the default binder would do. *)
Theorem default_binder_unused binder db i c :
  callEchoDefaultBinderOnError binder = false →
  Bind ext (withDefaultBinder binder db) i c = Bind ext binder i c.
Proof.
  intros Hfb. unfold Bind. destruct i as [|T v]; [done|].
  destruct T as [k ms|elem|elem ms|fs ms|]; try done.
  destruct elem as [k ms|elem|elem ms|fs ms|]; simpl; rewrite ?Hfb; try done.
  rewrite Bind_loop_withDefaultBinder by done.
  destruct (Bind_loop _ _ _ _ _ _ _) as [[o|] [called st]]; [done|].
  by rewrite !andb_false_r.
Qed.

(** X23: a target none of whose fields is a section is only validated: [Bind]
    reads nothing from the request and returns the verdict of the validator
    on the unchanged target; with the fallback on it hands the call to
    echo's default binder instead. *)
Theorem no_section_only_validates binder c fs ms target :
  Forall (unrecognised ext) fs →
  Bind ext binder (IVal (TPtr (TStruct fs ms)) (VPtr target)) c
  = if callEchoDefaultBinderOnError binder then
      defaultBinder binder (IVal (TPtr (TStruct fs ms)) (VPtr target)) c
    else (validated binder (IVal (TPtr (TStruct fs ms)) (VPtr target)),
          IVal (TPtr (TStruct fs ms)) (VPtr target)).
Proof.
  intros Hfs. unfold Bind, validated. rewrite Bind_loop_unrecognised by done. simpl.
  destruct (callEchoDefaultBinderOnError binder); [done|].
  destruct (validator binder) as [Struct|]; [|done]. by destruct (Struct _).
Qed.

(** The loop over sections whose handlers return nil without a write. *)
Lemma Bind_loop_skips binder c T fs i called (vs : list value) :
  (i + length fs ≤ length vs)%nat →
  Forall (λ g, fieldHandlers ext (Name g) = None
               ∨ ∃ h, fieldHandlers ext (Name g) = Some h
                      ∧ (Name g = bodyField ∨ indirectKind (Typ g) = reflect.Struct)
                      ∧ ∀ j, is_Some (vs !! j) → h c T (VStruct vs) j g = (Nil, VStruct vs)) fs →
  ∃ called', Bind_loop ext binder c T fs i (called, Some (VStruct vs))
             = (None, (called', Some (VStruct vs))).
Proof.
  intros Hlen Hfs. revert i called Hlen.
  induction Hfs as [|g fs Hg _ IH]; intros i called Hlen; simpl; [eauto|].
  simpl in Hlen. destruct Hg as [->|(h & -> & Hkind & Hskip)]; [apply IH; lia|].
  rewrite (section_kind_ok _ Hkind). simpl.
  destruct (vs !! i) as [x|] eqn:Hx.
  2: { apply lookup_ge_None in Hx. lia. }
  rewrite Hskip by eauto. apply IH. lia.
Qed.

(** X24: a request without content binds nothing into Body and Form: for a
    request that is not a GET and a target whose sections are Body sections
    (the declared content length being zero) and Form sections (the request
    not being one whose form is read), [Bind] with the fallback off leaves
    the target as it is and returns the verdict of the validator. *)
Theorem no_content_skips_body_and_form binder c fs ms vs :
  Method c ≠ MethodGet → callEchoDefaultBinderOnError binder = false →
  length vs = length fs →
  Forall (λ g, unrecognised ext g
               ∨ (Name g = bodyField ∧ ContentLength c = 0)
               ∨ (Name g = formField ∧ indirectKind (Typ g) = reflect.Struct
                  ∧ ¬ isFormRequest c)) fs →
  Bind ext binder (IVal (TPtr (TStruct fs ms)) (VPtr (Some (VStruct vs)))) c
  = (validated binder (IVal (TPtr (TStruct fs ms)) (VPtr (Some (VStruct vs)))),
     IVal (TPtr (TStruct fs ms)) (VPtr (Some (VStruct vs)))).
Proof.
  intros Hget Hfb Hlen Hfs.
  destruct (Bind_loop_skips binder c (TStruct fs ms) fs 0 false vs) as [called Hloop]; [lia| |].
  2: { eapply Bind_validated; [exact Hloop|by right]. }
  eapply Forall_impl; [exact Hfs|]. intros g [Hg|[[Hname Hzero]|(Hname & Hkind & Hform)]].
  - by left.
  - right. exists (bindBody ext). split_and!; [by rewrite Hname|by left|].
    intros j _. unfold bindBody.
    by rewrite (proj2 (String.eqb_neq _ _) Hget), Hzero.
  - right. exists (onSection (bindForm ext)). split_and!; [by rewrite Hname|by right|].
    intros j [x Hx]. unfold onSection, bindForm. simpl. rewrite Hx.
    rewrite (proj2 (String.eqb_neq _ _) Hget).
    assert ((if ContentLength c =? 0 then (Nil, x)
             else if negb (strings.HasPrefix (Header_Get c HeaderContentType) MIMEApplicationForm)
                     && negb (strings.HasPrefix (Header_Get c HeaderContentType) MIMEMultipartForm)
                  then (Nil, x)
                  else match getStructFields (Typ g) (Field_flag flagNone g) [] x with
                       | (Ok fields, sv) =>
                           match FormParams c with
                           | inl err => (Failed (badRequestError err), sv)
                           | inr values => bindValues_loop ext formField fields values sv
                           end
                       | (Err err, sv) =>
                           (Failed (badRequestError (getInvalidAnonymousFieldError formField)), sv)
                       | (Panicked, sv) => (Panic, sv)
                       end) = (Nil, x)) as ->.
    { destruct (ContentLength c =? 0) eqn:Hz; [done|]. apply Z.eqb_neq in Hz.
      destruct (strings.HasPrefix _ MIMEApplicationForm) eqn:H1.
      { destruct Hform. split; [done|by left]. }
      destruct (strings.HasPrefix _ MIMEMultipartForm) eqn:H2; [|done].
      destruct Hform. split; [done|by right]. }
    f_equal. f_equal. by apply list_insert_id.
Qed.

(** ** Absence of panics *)

Lemma bindSlice_no_panic elem values i slice :
  (i + length values ≤ length slice)%nat →
  bindSlice ext elem values i slice ≠ Panicked.
Proof.
  revert i slice. induction values as [|val rest IH]; intros i slice Hlen; simpl; [done|].
  simpl in Hlen. destruct (slice !! i) as [x|] eqn:Hx.
  2: { apply lookup_ge_None in Hx. lia. }
  destruct (setWithProperType ext elem val x) as [y [e|]]; [done|].
  apply IH. rewrite length_insert. lia.
Qed.

Lemma setSlot_valid fields id d val sv :
  slotsValid fields sv → fields !! id = Some d →
  ∃ sv' e, setSlot ext (Value d) val sv = Some (sv', e).
Proof.
  intros Hvalid Hd. destruct (Hvalid _ _ Hd) as [cur Hcur]. unfold setSlot. rewrite Hcur.
  destruct (setWithProperType _ _ _ _) as [x e]. eauto.
Qed.

Lemma setSlot_keeps_valid fields id d val sv sv' e :
  slotsApart fields → slotsValid fields sv → fields !! id = Some d →
  setSlot ext (Value d) val sv = Some (sv', e) → slotsValid fields sv'.
Proof.
  intros Hapart Hvalid Hd (cur & x & _ & _ & ->)%setSlot_inv. by eapply slotsValid_set.
Qed.

Lemma bindValues_no_panic location fields name values sv :
  slotsValid fields sv → values ≠ [] →
  (bindValues ext location fields name values sv).1 ≠ Some Panic.
Proof.
  intros Hvalid Hne. unfold bindValues.
  destruct (fields !! name) as [d|] eqn:Hd; [|done].
  destruct (CanSet (Value d)); simpl; [|done].
  assert ((match values with
           | [] => (Some Panic, sv)
           | val :: _ =>
               match setSlot ext (Value d) val sv with
               | Some (sv0, Some err) => (Some (Failed (badRequestError err)), sv0)
               | Some (sv0, None) => (None, sv0)
               | None => (Some Panic, sv)
               end
           end).1 ≠ Some Panic) as Hscalar.
  { destruct values as [|val more]; [done|].
    destruct (setSlot_valid fields name d val sv) as (sv' & e & ->); [done..|].
    by destruct e. }
  destruct (slot_type (Value d)) as [k ms|elem|elem ms|fs ms|]; try done.
  pose proof (bindSlice_no_panic elem values 0 (MakeSlice elem (length values))) as Hslice.
  destruct (bindSlice _ _ _ _ _); try done.
  destruct Hslice; [|done]. unfold MakeSlice. by rewrite length_replicate.
Qed.

Lemma bindValues_loop_no_panic location fields params sv :
  slotsApart fields → slotsValid fields sv → haveValues params →
  (bindValues_loop ext location fields params sv).1 ≠ Panic.
Proof.
  intros Hapart. revert sv.
  induction params as [|[name values] rest IH]; intros sv Hvalid Hparams; simpl; [done|].
  assert (values ≠ []) as Hne by (apply (Hparams name); left).
  pose proof (bindValues_no_panic location fields name values sv Hvalid Hne) as Hstep.
  destruct (bindValues ext location fields name values sv) as [[o|] sv1] eqn:Hrun.
  - simpl in *. congruence.
  - apply IH; [by eapply bindValues_valid|]. intros n vs Hin. apply (Hparams n). by right.
Qed.

Lemma bindPath_loop_no_panic fields names values i sv :
  slotsApart fields → slotsValid fields sv →
  (i + length names ≤ length values)%nat →
  (bindPath_loop ext fields names values i sv).1 ≠ Panic.
Proof.
  intros Hapart. revert i sv.
  induction names as [|name rest IH]; intros i sv Hvalid Hlen; simpl; [done|].
  simpl in Hlen. destruct (fields !! name) as [d|] eqn:Hd; [|done].
  destruct (CanSet (Value d)); simpl; [|done].
  destruct (values !! i) as [val|] eqn:Hval.
  2: { apply lookup_ge_None in Hval. lia. }
  destruct (setSlot_valid fields name d val sv) as (sv' & e & Hset); [done..|].
  rewrite Hset. destruct e; [done|].
  apply IH; [by eapply setSlot_keeps_valid|lia].
Qed.

Lemma bindHeader_loop_no_panic c fields entries sv :
  slotsApart fields → slotsValid fields sv →
  (∀ name d, (name, d) ∈ entries → fields !! name = Some d) →
  (bindHeader_loop ext c entries sv).1 ≠ Panic.
Proof.
  intros Hapart. revert sv.
  induction entries as [|[name d] rest IH]; intros sv Hvalid Hin; simpl; [done|].
  assert (∀ name d, (name, d) ∈ rest → fields !! name = Some d) as Hin'.
  { intros n d' Hd'. apply Hin. by right. }
  assert (fields !! name = Some d) as Hd by (apply Hin; left).
  destruct (String.eqb (Header_Get c name) ""); [by apply IH|].
  destruct (CanSet (Value d)); simpl; [|done].
  destruct (setSlot_valid fields name d (Header_Get c name) sv) as (sv' & e & Hset); [done..|].
  rewrite Hset. destruct e; [done|].
  apply IH; [by eapply setSlot_keeps_valid|done].
Qed.

Lemma flattened_slots T fl sv fields sv1 :
  getStructFields T fl [] sv = (Ok fields, sv1) → slotsApart fields ∧ slotsValid fields sv1.
Proof.
  intros Hrun. split; [by eapply getStructFields_slotsApart|by eapply getStructFields_slotsValid].
Qed.

Lemma bindPath_no_panic c T fl sv :
  (getStructFields T fl [] sv).1 ≠ Panicked →
  (length (ParamNames c) ≤ length (ParamValues c))%nat →
  (bindPath ext c T fl sv).1 ≠ Panic.
Proof.
  intros Hflat Hlen. unfold bindPath.
  destruct (getStructFields T fl [] sv) as [[fields|e|] sv1] eqn:Hrun; [|done..].
  destruct (flattened_slots _ _ _ _ _ Hrun). by apply bindPath_loop_no_panic.
Qed.

Lemma bindQuery_no_panic c T fl sv :
  (getStructFields T fl [] sv).1 ≠ Panicked → haveValues (QueryParams c) →
  (bindQuery ext c T fl sv).1 ≠ Panic.
Proof.
  intros Hflat Hparams. unfold bindQuery. destruct (_ && _); [done|].
  destruct (getStructFields T fl [] sv) as [[fields|e|] sv1] eqn:Hrun; [|done..].
  destruct (flattened_slots _ _ _ _ _ Hrun). by apply bindValues_loop_no_panic.
Qed.

Lemma bindForm_no_panic c T fl sv :
  (getStructFields T fl [] sv).1 ≠ Panicked →
  (∀ params, FormParams c = inr params → haveValues params) →
  (bindForm ext c T fl sv).1 ≠ Panic.
Proof.
  intros Hflat Hparams. unfold bindForm. repeat (destruct (_ : bool); [done|]).
  destruct (getStructFields T fl [] sv) as [[fields|e|] sv1] eqn:Hrun; [|done..].
  destruct (flattened_slots _ _ _ _ _ Hrun).
  destruct (FormParams c) as [e|params]; [done|].
  apply bindValues_loop_no_panic; [done..|]. by apply Hparams.
Qed.

Lemma bindHeader_no_panic c T fl sv :
  (getStructFields T fl [] sv).1 ≠ Panicked → (bindHeader ext c T fl sv).1 ≠ Panic.
Proof.
  intros Hflat. unfold bindHeader.
  destruct (getStructFields T fl [] sv) as [[fields|e|] sv1] eqn:Hrun; [|done..].
  destruct (flattened_slots _ _ _ _ _ Hrun).
  apply (bindHeader_loop_no_panic c fields); [done..|].
  intros name d. apply elem_of_map_to_list.
Qed.

(** X25: the section binders add no panic of their own: when the flattener
    does not panic on a section, neither does the path binder (given a
    value for every parameter name), the query and form binders (given at
    least one value for every key) nor the header binder.  Every assignment
    through reflect is guarded by [CanSet] and by the kind of the slot. *)
Theorem section_binders_do_not_panic c T fl sv :
  (getStructFields T fl [] sv).1 ≠ Panicked →
  ((length (ParamNames c) ≤ length (ParamValues c))%nat →
   (bindPath ext c T fl sv).1 ≠ Panic)
  ∧ (haveValues (QueryParams c) → (bindQuery ext c T fl sv).1 ≠ Panic)
  ∧ ((∀ params, FormParams c = inr params → haveValues params) →
     (bindForm ext c T fl sv).1 ≠ Panic)
  ∧ (bindHeader ext c T fl sv).1 ≠ Panic.
Proof.
  intros Hflat. split_and!.
  - by apply bindPath_no_panic.
  - by apply bindQuery_no_panic.
  - by apply bindForm_no_panic.
  - by apply bindHeader_no_panic.
Qed.

(** *** The flattener on a fresh record *)

Lemma Zero_struct fs ms : Zero (TStruct fs ms) = VStruct ((λ f, Zero (Typ f)) <$> fs).
Proof. done. Qed.

Lemma allocatable_loop_no_panic fs :
  Forall (λ f, (∀ fl p, allocatable (Typ f) fl = true →
                  (getStructFields (Typ f) fl p (Zero (Typ f))).1 ≠ Panicked)
               ∧ (∀ fl p, allocatable (derefType (Typ f)) fl = true →
                    (getStructFields (derefType (Typ f)) fl p (Zero (derefType (Typ f)))).1
                    ≠ Panicked)) fs →
  ∀ i fl p acc v,
    allocatable_loop allocatable fs fl = true →
    (∀ k f, fs !! k = Some f → Field v (i + k)%nat = Some (Zero (Typ f))) →
    (getStructFields_loop getStructFields fs i fl p acc v).1 ≠ Panicked.
Proof.
  induction 1 as [|f fs [IHf IHelem] _ IH]; intros i fl p acc v Halloc Hv; [done|].
  cbn [allocatable_loop] in Halloc. apply andb_true_iff in Halloc as [Hf Hrest].
  assert (Field v i = Some (Zero (Typ f))) as Hx.
  { specialize (Hv 0%nat f eq_refl). by rewrite Nat.add_0_r in Hv. }
  assert (Hnext : ∀ acc' y,
            (getStructFields_loop getStructFields fs (S i) fl p acc' (SetField v i y)).1
            ≠ Panicked).
  { intros acc' y. apply IH; [done|]. intros k g Hg.
    rewrite Field_SetField_ne by lia.
    replace (S i + k)%nat with (i + S k)%nat by lia. by apply (Hv (S k)). }
  assert (Hsame : ∀ acc',
            (getStructFields_loop getStructFields fs (S i) fl p acc' v).1 ≠ Panicked).
  { intros acc'. rewrite <- (SetField_id v i _ Hx). apply Hnext. }
  destruct (decide (indirectKind (Typ f) = reflect.Struct)) as [Hkind|Hkind].
  - rewrite (getStructFields_loop_record _ _ _ _ _ _ _ _ _ Hx Hkind).
    rewrite (bool_decide_eq_true_2 _ Hkind) in Hf.
    destruct (Typ f) as [k ms|elem|elem ms|fs' ms|] eqn:HT; try done.
    + simpl in Hf. apply andb_true_iff in Hf as [Hcan Helem].
      cbn [Zero]. rewrite Hcan. cbv zeta.
      specialize (IHelem (Field_flag fl f) (p ++ [i]) Helem). simpl in IHelem.
      destruct (getStructFields elem _ _ _) as [[tempFields|e|] sv1]; try done.
      apply Hnext.
    + specialize (IHf (Field_flag fl f) (p ++ [i]) Hf).
      rewrite Zero_struct in *. cbv zeta.
      destruct (getStructFields (TStruct fs' ms) _ _ _) as [[tempFields|e|] sv1]; try done.
      apply Hnext.
  - destruct (Anonymous f) eqn:Hanon.
    + by rewrite (getStructFields_loop_anonymous_leaf _ _ _ _ _ _ _ _ _ Hx Hkind Hanon).
    + rewrite (getStructFields_loop_leaf _ _ _ _ _ _ _ _ _ Hx Hkind Hanon). apply Hsame.
Qed.

Lemma allocatable_no_panic T fl p :
  allocatable T fl = true → (getStructFields T fl p (Zero T)).1 ≠ Panicked.
Proof.
  revert fl p. induction T as [k ms|elem _|elem ms _|fs ms IH|] using type_deref_ind;
    intros fl p Halloc; try done.
  cbn [getStructFields]. apply (allocatable_loop_no_panic fs IH); [done|].
  intros k f Hf. rewrite Zero_struct. simpl. by rewrite list_lookup_fmap, Hf.
Qed.

(** X26: on a fresh record the flattener does not panic: for the zero value
    of a record type that does not contain itself (the types that [type]
    stands for) and in which every pointer to a record that the walk meets
    can be set, [getStructFields] returns a map or the error for an
    embedded field that is not a record. *)
Theorem flattener_accepts_fresh_record T fl p :
  allocatable T fl = true →
  ∃ sv1, (∃ fields, getStructFields T fl p (Zero T) = (Ok fields, sv1))
         ∨ getStructFields T fl p (Zero T) = (Err errorInvalidAnonymousField, sv1).
Proof.
  intros Halloc. pose proof (allocatable_no_panic T fl p Halloc) as Hno.
  destruct (getStructFields T fl p (Zero T)) as [[fields|e|] sv1] eqn:Hrun; [| |done].
  - exists sv1. left. eauto.
  - exists sv1. right. by rewrite (getStructFields_error _ _ _ _ _ _ Hrun).
Qed.

(** *** Collisions of identifiers *)

Lemma getStructFields_loop_Err_anonymous fs :
  Forall (λ f, (∀ fl p v e v', getStructFields (Typ f) fl p v = (Err e, v') →
                  ∃ q g, field_at q (Typ f) = Some g ∧ Anonymous g = true ∧ isLeaf g)
               ∧ (∀ fl p v e v', getStructFields (derefType (Typ f)) fl p v = (Err e, v') →
                    ∃ q g, field_at q (derefType (Typ f)) = Some g
                           ∧ Anonymous g = true ∧ isLeaf g)) fs →
  ∀ i fl p acc v e v',
    getStructFields_loop getStructFields fs i fl p acc v = (Err e, v') →
    ∃ k f rest g, fs !! k = Some f ∧ subField f rest = Some g ∧ Anonymous g = true ∧ isLeaf g.
Proof.
  induction 1 as [|f fs [IHf IHelem] _ IH]; intros i fl p acc v e v' Hrun; [done|].
  assert (Hnext : ∀ acc' w,
            getStructFields_loop getStructFields fs (S i) fl p acc' w = (Err e, v') →
            ∃ k f0 rest g, (f :: fs) !! k = Some f0 ∧ subField f0 rest = Some g
                           ∧ Anonymous g = true ∧ isLeaf g).
  { intros acc' w Hw. apply IH in Hw as (k & f0 & rest & g & Hk & Hg).
    by exists (S k), f0, rest, g. }
  destruct (Field v i) as [x|] eqn:Hx.
  2: { by rewrite (getStructFields_loop_none _ _ _ _ _ _ _ _ Hx) in Hrun. }
  destruct (decide (indirectKind (Typ f) = reflect.Struct)) as [Hkind|Hkind].
  - rewrite (getStructFields_loop_record' _ _ _ _ _ _ _ _ _ Hx Hkind) in Hrun.
    destruct (isNilPtr (Typ f) x) as [elem|] eqn:Hnil.
    + destruct (Typ f) as [| elem' | | |] eqn:HT; try done.
      assert (elem' = elem) as -> by (destruct x as [| | | | |[?|]| | | |]; naive_solver).
      destruct (CanSet_flag _); [|done]. cbv zeta in Hrun.
      destruct (getStructFields elem _ _ _) as [[tempFields|e'|] sv1] eqn:Hsub;
        simpl in Hrun; [by eapply Hnext| |done].
      apply IHelem in Hsub as (q & g & Hq & Hg).
      exists 0%nat, f, q, g. split; [done|]. split; [|done].
      destruct q as [|j q]; [done|]. cbn [subField]. rewrite HT.
      by rewrite field_at_ptr.
    + cbv zeta in Hrun.
      destruct (getStructFields (Typ f) _ _ _) as [[tempFields|e'|] sv1] eqn:Hsub;
        simpl in Hrun; [by eapply Hnext| |done].
      apply IHf in Hsub as (q & g & Hq & Hg).
      exists 0%nat, f, q, g. split; [done|]. split; [|done].
      by destruct q.
  - destruct (Anonymous f) eqn:Hanon.
    + by exists 0%nat, f, [], f.
    + rewrite (getStructFields_loop_leaf _ _ _ _ _ _ _ _ _ Hx Hkind Hanon) in Hrun.
      by eapply Hnext.
Qed.

Lemma getStructFields_Err_anonymous T fl p v e v' :
  getStructFields T fl p v = (Err e, v') →
  ∃ q g, field_at q T = Some g ∧ Anonymous g = true ∧ isLeaf g.
Proof.
  revert fl p v e v'. induction T as [k ms|elem _|elem ms _|fs ms IH|] using type_deref_ind;
    intros fl p v e v' Hrun; try done.
  apply (getStructFields_loop_Err_anonymous fs IH) in Hrun
    as (k & f & rest & g & Hk & Hg & Hrest).
  exists (k :: rest), g. split; [|done]. rewrite field_at_cons. simpl. by rewrite Hk.
Qed.

(** C4: when flattening succeeds the map holds, for every identifier, the
    slot of the last field that declares it in declaration order (embedded
    and nested records expanded in place).  A collision is never an error:
    the flattener returns an error only when the section has an embedded
    field that is not a record, whatever the identifiers of its leaves are;
    and on a fresh section without such a field (the zero value of a record
    type, which, as every [type], does not contain itself), in which the
    pointers to records on the way can be set, flattening succeeds, with
    the map read off the declaration list from its end, however many of the
    leaves share an identifier. *)
Theorem later_declaration_wins T fl p sv :
  (∀ fields sv', getStructFields T fl p sv = (Ok fields, sv') →
     ∀ id d, fields !! id = Some d
       ↔ ∃ before after, declared T fl p = before ++ (id, d) :: after ∧ id ∉ after.*1)
  ∧ (∀ e sv', getStructFields T fl p sv = (Err e, sv') →
       e = errorInvalidAnonymousField
       ∧ ∃ q f, field_at q T = Some f ∧ Anonymous f = true ∧ isLeaf f)
  ∧ (sv = Zero T → allocatable T fl = true →
     (∀ q f, field_at q T = Some f → isLeaf f → Anonymous f = false) →
     ∃ sv', getStructFields T fl p sv
            = (Ok (list_to_map (reverse (declared T fl p))), sv')).
Proof.
  split_and!.
  - intros fields sv' Hflat id d.
    rewrite (getStructFields_declared _ _ _ _ _ _ Hflat). apply list_to_map_reverse_lookup.
  - intros e sv' Hrun. split; [by eapply getStructFields_error|].
    by eapply getStructFields_Err_anonymous.
  - intros -> Halloc Hnamed.
    pose proof (allocatable_no_panic T fl p Halloc) as Hno.
    destruct (getStructFields T fl p (Zero T)) as [[fields|e|] sv'] eqn:Hrun; [| |done].
    + exists sv'. by rewrite (getStructFields_declared _ _ _ _ _ _ Hrun).
    + apply getStructFields_Err_anonymous in Hrun as (q & f & Hf & Hanon & Hleaf).
      rewrite (Hnamed q f Hf Hleaf) in Hanon. discriminate.
Qed.

(** *** The orchestrator on a fresh target *)

Lemma bindBody_no_panic c T sv i f :
  is_Some (Field sv i) → sentFieldsTyped T → (bindBody ext c T sv i f).1 ≠ Panic.
Proof.
  intros [x Hx] Hsent. unfold bindBody. rewrite Hx.
  destruct (String.eqb _ _); [done|]. destruct (_ =? _); [done|].
  destruct (Body c) as [e|body]; [done|]. cbv zeta.
  match goal with |- context [match ?d.2 with _ => _ end] => destruct d.2; [done|] end.
  destruct (negb (bool_decide (Kind (Typ f) = reflect.Struct))); [done|].
  destruct (FieldByName T bodySentFields) as [[j g]|] eqn:Hg; [|done].
  case_bool_decide as Hkind; simpl; [|done].
  destruct (negb (CanSet_flag _)); [done|].
  destruct (json_Unmarshal_lookupTable ext body); [done|].
  by rewrite (Hsent j g Hg Hkind).
Qed.

Lemma onSection_no_panic bind c T sv i g :
  Field sv i = Some (Zero (Typ g)) →
  (bind c (Typ g) (Field_flag flagNone g) (Zero (Typ g))).1 ≠ Panic →
  (onSection bind c T sv i g).1 ≠ Panic.
Proof.
  intros Hx Hbind. unfold onSection. rewrite Hx.
  by destruct (bind _ _ _ _) as [o sv1].
Qed.

Lemma handler_no_panic c T sv i g h :
  wellFormedRequest c → sentFieldsTyped T →
  fieldHandlers ext (Name g) = Some h →
  Name g = bodyField ∧ is_Some (Field sv i)
  ∨ allocatable (Typ g) (Field_flag flagNone g) = true ∧ Field sv i = Some (Zero (Typ g)) →
  (h c T sv i g).1 ≠ Panic.
Proof.
  intros (Hpath & Hquery & Hform) Hsent Hh Hcase.
  destruct Hcase as [[Hname Hx]|[Halloc Hx]].
  { rewrite Hname in Hh. injection Hh as <-. by apply bindBody_no_panic. }
  pose proof (allocatable_no_panic _ _ [] Halloc) as Hflat.
  pose proof (bindPath_no_panic c _ _ _ Hflat Hpath) as HP.
  pose proof (bindQuery_no_panic c _ _ _ Hflat Hquery) as HQ.
  pose proof (bindForm_no_panic c _ _ _ Hflat Hform) as HF.
  pose proof (bindHeader_no_panic c _ _ _ Hflat) as HH.
  unfold fieldHandlers in Hh.
  repeat (destruct (String.eqb (Name g) _);
          [injection Hh as <-;
           first [by apply bindBody_no_panic; [rewrite Hx; eauto|done]
                 |apply onSection_no_panic; auto]|]).
  done.
Qed.

Lemma Bind_loop_no_panic binder c fs0 ms fs i called sv :
  callEchoDefaultBinderOnError binder = false →
  wellFormedRequest c → sentFieldsTyped (TStruct fs0 ms) →
  Forall (plainSection ext) fs →
  (∀ k g, fs !! k = Some g → fs0 !! (i + k)%nat = Some g) →
  (∀ k g, fs !! k = Some g → is_Some (Field sv (i + k)%nat)) →
  (∀ k g, fs !! k = Some g → is_Some (fieldHandlers ext (Name g)) →
          Name g ≠ bodyField → Field sv (i + k)%nat = Some (Zero (Typ g))) →
  (Bind_loop ext binder c (TStruct fs0 ms) fs i (called, Some sv)).1 ≠ Some Panic.
Proof.
  intros Hfb Hreq Hsent Hfs. revert i called sv.
  induction Hfs as [|g fs Hg _ IH]; intros i called sv Hidx Hshape Hzero; simpl; [done|].
  assert (Hnext : ∀ called' sv',
            (∀ j, is_Some (Field sv' j) ↔ is_Some (Field sv j)) →
            (∀ j, j ≠ i →
                  (Name g ≠ bodyField
                   ∨ ∀ g', FieldByName (TStruct fs0 ms) bodySentFields ≠ Some (j, g')) →
                  Field sv' j = Field sv j) →
            (Bind_loop ext binder c (TStruct fs0 ms) fs (S i) (called', Some sv')).1
            ≠ Some Panic).
  { intros called' sv' Hshape' Hframe. apply IH.
    - intros k g' Hg'. replace (S i + k)%nat with (i + S k)%nat by lia. by apply (Hidx (S k)).
    - intros k g' Hg'. apply Hshape'.
      replace (S i + k)%nat with (i + S k)%nat by lia. by apply (Hshape (S k) g').
    - intros k g' Hg' Hrec Hnb. rewrite Hframe.
      + replace (S i + k)%nat with (i + S k)%nat by lia. by apply (Hzero (S k)).
      + lia.
      + right. intros g'' [Hg'' Hname]%FieldByName_Some. cbn [structFields] in Hg''.
        assert (fs0 !! (S i + k)%nat = Some g') as Hi.
        { replace (S i + k)%nat with (i + S k)%nat by lia. by apply (Hidx (S k)). }
        rewrite Hi in Hg''. injection Hg'' as <-.
        by apply (recognised_not_sentFields ext) in Hrec. }
  destruct (fieldHandlers ext (Name g)) as [h|] eqn:Hh.
  2: { by apply Hnext. }
  destruct (_ && _) eqn:Hcheck. { by rewrite Hfb. }
  simpl. destruct (Hshape 0%nat g eq_refl) as [x Hx]. rewrite Nat.add_0_r in Hx. rewrite Hx.
  assert ((h c (TStruct fs0 ms) sv i g).1 ≠ Panic) as Hh1.
  { apply handler_no_panic; [done..|].
    destruct (decide (Name g = bodyField)) as [Hname|Hname]; [left; eauto|right].
    assert (indirectKind (Typ g) = reflect.Struct) as Hkind.
    { apply andb_false_iff in Hcheck as [Hc|Hc].
      - apply negb_false_iff in Hc. by apply bool_decide_eq_true_1 in Hc.
      - apply negb_false_iff, String.eqb_eq in Hc. done. }
    destruct Hg as [Hg|[Hg|[Hg|Hg]]]; [by rewrite Hg in Hh|done|done|].
    split; [done|]. specialize (Hzero 0%nat g eq_refl). rewrite Nat.add_0_r in Hzero.
    apply Hzero; [by rewrite Hh|done]. }
  destruct (h c (TStruct fs0 ms) sv i g) as [[|e|] sv'] eqn:Hrun; [|done..].
  apply Hnext.
  - intros j. by eapply handler_shape.
  - intros j Hj Hsentj. by eapply (handler_frame ext (Name g)).
Qed.

(** X27: [Bind] does not panic on a fresh target: for a pointer to the zero
    value of a record whose sections are records the flattener can walk
    (Body sections and sections that are no structs apart; none of the
    types contains itself), which has the sent-fields slot as a field of
    its own or embeds nothing, a request with a value for every path
    parameter and every key, and the fallback off, whatever the request
    holds [Bind] returns nil or an error. *)
Theorem Bind_fresh_target_does_not_panic binder c fs ms :
  ownFieldLookup fs bodySentFields →
  callEchoDefaultBinderOnError binder = false →
  wellFormedRequest c → sentFieldsTyped (TStruct fs ms) →
  Forall (plainSection ext) fs →
  (Bind ext binder (target (TStruct fs ms)) c).1 ≠ Panic.
Proof.
  intros _ Hfb Hreq Hsent Hfs. unfold Bind, target.
  pose proof (Bind_loop_no_panic binder c fs ms fs 0 false (Zero (TStruct fs ms))
                Hfb Hreq Hsent Hfs) as Hloop.
  destruct (Bind_loop _ _ _ _ _ _ _) as [[o|] [called st]] eqn:Hrun.
  - simpl. intros ->. apply Hloop; try done.
    + intros k g Hg. rewrite Zero_struct. simpl. rewrite list_lookup_fmap, Hg. eauto.
    + intros k g Hg _ _. rewrite Zero_struct. simpl. by rewrite list_lookup_fmap, Hg.
  - rewrite Hfb, andb_false_r. destruct (validator binder) as [Struct|]; [|done].
    by destruct (Struct _).
Qed.

End further.

(** ** The scenarios of the specification and of binder_test.go *)

(** Scenario A: [/users/:Name/:Id] with ["Omri Siniver"] and ["3"]. *)
Example scenario_A :
  Bind exampleExternals exampleBinder (target pathNormalTester)
    (withParams (request MethodGet) ["Name"; "Id"] ["Omri Siniver"; "3"])
  = (Nil, IVal (TPtr pathNormalTester)
            (VPtr (Some (VStruct [VStruct [VString "Omri Siniver"; VInt 3; VPtr None]])))).
Proof. vm_compute. reflexivity. Qed.

(** Scenario B: [Data=1&Data=2&Data=3] into [Data []int]. *)
Example scenario_B :
  bindQuery exampleExternals
    (withQueryParams (request MethodGet) [("Data", ["1"; "2"; "3"])])
    dataSection flagNone (Zero dataSection)
  = (Nil, VStruct [VSlice [VInt 1; VInt 2; VInt 3]]).
Proof. vm_compute. reflexivity. Qed.

(** Scenario C: the body of [TestBodySentFieldsBinder] and its presence
    queries. *)
Example scenario_C :
  ∃ structValue sent,
    Bind exampleExternals exampleBinder (target bodySentFieldsTester)
      (withBody (request MethodPost) MIMEApplicationJSON sentFieldsBody)
    = (Nil, IVal (TPtr bodySentFieldsTester) (VPtr (Some structValue)))
    ∧ Field structValue 0 = Some sentFieldsDecoded
    ∧ Field structValue 1 = Some (VMap (Some sent))
    ∧ FieldExists sent "name" = true
    ∧ FieldExists sent "age" = true
    ∧ FieldExists sent "nested" = true
    ∧ FieldExists sent "nested2" = false
    ∧ FieldExists sent "nested.nested" = true
    ∧ FieldExists sent "nested.field" = true
    ∧ FieldExists sent "nested.field2" = false
    ∧ FieldExists sent "nested.nested.field" = true.
Proof.
  exists (VStruct [sentFieldsDecoded; VMap (Some (IntoRecursiveLookupTable sentFieldsTable))]),
    (IntoRecursiveLookupTable sentFieldsTable).
  split_and!; vm_compute; reflexivity.
Qed.

(** The payload itself answers the same queries. *)
Example scenario_C_payload :
  lookupTable_FieldExists sentFieldsTable "nested.nested.field" = true
  ∧ lookupTable_FieldExists sentFieldsTable "nested.field2" = false.
Proof. split; vm_compute; reflexivity. Qed.

(** Scenario E: a target that is not a pointer. *)
Example scenario_E :
  Bind exampleExternals exampleBinder (IVal pathNormalTester (Zero pathNormalTester))
    (request MethodGet)
  = (Failed (badRequestError errorInvalidType),
     IVal pathNormalTester (Zero pathNormalTester)).
Proof. vm_compute. reflexivity. Qed.

(** The round trip of the specification: [{"k": ["1", "2"]}] into a scalar
    int field yields 1. *)
Example scalar_round_trip :
  bindQuery exampleExternals (withQueryParams (request MethodGet) [("k", ["1"; "2"])])
    scalarSection flagNone (Zero scalarSection)
  = (Nil, VStruct [VInt 1]).
Proof. vm_compute. reflexivity. Qed.

(** "Tester with unbind": the query supplies [Unbind] and [-], the field
    keeps ["BLABLA"]. *)
Example unbind_query :
  bindQuery exampleExternals
    (withQueryParams (request MethodGet)
       [("key1", ["value1"]); ("key2", ["2"]); ("Unbind", ["BLIBLI"]); ("-", ["blibli"])])
    validEmbeddedSection flagNone validEmbeddedValue
  = (Nil, VStruct [VStruct [VString "value1"; VInt 2; VString "BLABLA"]]).
Proof. vm_compute. reflexivity. Qed.

(** "Check the unbind": the path parameter [-] is a missing param. *)
Example unbind_path :
  bindPath exampleExternals
    (withParams (request MethodGet) ["key1"; "key2"; "-"] ["value1"; "2"; "BLIBLI"])
    validEmbeddedSection flagNone validEmbeddedValue
  = (Failed (badRequestError (getMissingParamAtLocationError pathField "-")),
     VStruct [VStruct [VString "value1"; VInt 2; VString "BLABLA"]]).
Proof. vm_compute. reflexivity. Qed.

(** Two embedded records with the same identifier: the declaration list has
    both, the map has the second. *)
Example collision_keeps_later :
  (declared collidingSection flagNone []).*1 = ["id"; "id"]
  ∧ ∃ fields,
      getStructFields collidingSection flagNone [] (Zero collidingSection)
      = (Ok fields, Zero collidingSection)
      ∧ FieldName <$> fields !! "id" = Some "B"
      ∧ (slot_path ∘ Value) <$> fields !! "id" = Some [1%nat; 0%nat].
Proof.
  split; [reflexivity|].
  exists (list_to_map (reverse (declared collidingSection flagNone []))).
  split_and!; vm_compute; reflexivity.
Qed.

(** The header test binds through an embedded struct and through a nil
    embedded pointer, which the flattener allocates. *)
Example header_embedded :
  Bind exampleExternals exampleBinder (target headerTester)
    (withHeaders (request MethodGet)
       [("Name", "Omri"); ("custom", "132"); ("harari", "1234"); ("yerushalmi", "0525381648")])
  = (Nil, IVal (TPtr headerTester)
            (VPtr (Some (VStruct [VStruct [VStruct [VString "1234"];
                                           VPtr (Some (VStruct [VString "0525381648"]));
                                           VString "Omri"; VInt 132]])))).
Proof. vm_compute. reflexivity. Qed.

(** Binding the same record again: the embedded pointer is no longer nil,
    the flattener passes the pointer itself to the recursive call, and
    [NumField] panics. *)
Example header_embedded_again :
  (Bind exampleExternals exampleBinder
     (IVal (TPtr headerTester)
        (VPtr (Some (VStruct [VStruct [VStruct [VString "1234"];
                                       VPtr (Some (VStruct [VString "0525381648"]));
                                       VString "Omri"; VInt 132]]))))
     (request MethodGet)).1
  = Panic.
Proof. vm_compute. reflexivity. Qed.

(** A nil pointer to a record with a section: [structValue.Field(i)] is
    called on the zero [reflect.Value]. *)
Example nil_pointer_target :
  Bind exampleExternals exampleBinder (IVal (TPtr pathNormalTester) (VPtr None))
    (request MethodGet)
  = (Panic, IVal (TPtr pathNormalTester) (VPtr None)).
Proof. vm_compute. reflexivity. Qed.

(** ** The claims at concrete inputs *)

Lemma sent_fields_slot_filled_witness :
  ∃ body data sv',
    Body (withBody (request MethodPost) MIMEApplicationJSON sentFieldsBody) = inr body
    ∧ json_Unmarshal_lookupTable exampleExternals body = inr data
    ∧ (Bind exampleExternals exampleBinder (target bodySentFieldsTester)
         (withBody (request MethodPost) MIMEApplicationJSON sentFieldsBody)).2
      = IVal (TPtr bodySentFieldsTester) (VPtr (Some sv'))
    ∧ Field sv' 1 = Some (VMap (Some (IntoRecursiveLookupTable data))).
Proof.
  apply (sent_fields_slot_filled exampleExternals exampleBinder
           (withBody (request MethodPost) MIMEApplicationJSON sentFieldsBody)
           sentFieldsFields noMethods (Zero bodySentFieldsTester)
           0%nat (field "Body" (record sentFieldsBodyFields)) sentFieldsBodyFields noMethods
           1%nat (field "BodySentFields" TRecursiveLookupTable)).
  - apply (bool_decide_unpack _). vm_compute. exact I.
  - reflexivity.
  - reflexivity.
  - reflexivity.
  - reflexivity.
  - reflexivity.
  - reflexivity.
  - vm_compute. eauto.
  - vm_compute. discriminate.
  - reflexivity.
  - vm_compute. reflexivity.
Defined.

(** Three requests on which [Bind] returns nil and leaves the sent-fields
    slot nil: the body decodes into a Body section that is a slice; the
    declared content length is zero; the fallback hands the call to the
    default binder before the Body section is reached. *)
Lemma sent_fields_slot_counterexample :
  (json_Unmarshal exampleExternals "[1,2]" (TSlice tInt noMethods) (VSlice [])).2 = None
  ∧ Bind exampleExternals exampleBinder (target bodySliceTester)
      (withBody (request MethodPost) MIMEApplicationJSON "[1,2]")
    = (Nil, IVal (TPtr bodySliceTester)
              (VPtr (Some (VStruct [VSlice [VInt 1; VInt 2]; VMap None]))))
  ∧ Bind exampleExternals exampleBinder (target bodySentFieldsTester) (request MethodPost)
    = (Nil, target bodySentFieldsTester)
  ∧ Bind exampleExternals fallbackBinder (target badPathTester)
      (withBody (request MethodPost) MIMEApplicationJSON sentFieldsBody)
    = (Nil, target badPathTester).
Proof. split_and!; vm_compute; reflexivity. Qed.

Lemma excluded_field_never_bound_witness :
  get_at [0%nat; 2%nat]
    (bindQuery exampleExternals
       (withQueryParams (request MethodGet) [("Unbind", ["BLIBLI"]); ("-", ["blibli"])])
       validEmbeddedSection flagNone validEmbeddedValue).2
  = Some (VString "BLABLA").
Proof.
  destruct (excluded_field_never_bound exampleExternals
              (withQueryParams (request MethodGet) [("Unbind", ["BLIBLI"]); ("-", ["blibli"])])
              validEmbeddedSection flagNone validEmbeddedValue [0%nat; 2%nat] unbindField)
    as (_ & Hkeep & _).
  - reflexivity.
  - vm_compute. discriminate.
  - reflexivity.
  - eapply (Hkeep (bindQuery exampleExternals)).
    + right. left.
    + apply surjective_pairing.
    + reflexivity.
Defined.

(** Two targets that are not non-nil pointers to a record and do not get the
    invalid-type error: a nil pointer to a record with a Path section, on
    which [Bind] panics, and a pointer to an int with the fallback on, for
    which [Bind] returns what the default binder returns. *)
Lemma invalid_target_counterexample :
  ¬ nonNilPointerToRecord (IVal (TPtr pathNormalTester) (VPtr None))
  ∧ (Bind exampleExternals exampleBinder (IVal (TPtr pathNormalTester) (VPtr None))
       (request MethodGet)).1 = Panic
  ∧ ¬ nonNilPointerToRecord (IVal (TPtr tInt) (VPtr (Some (VInt 0))))
  ∧ (Bind exampleExternals fallbackBinder (IVal (TPtr tInt) (VPtr (Some (VInt 0))))
       (request MethodGet)).1 = Nil.
Proof.
  split_and!; try (vm_compute; reflexivity); by intros (fs & ms & sv & [=]).
Qed.

Lemma nil_pointer_target_panics_witness :
  ¬ nonNilPointerToRecord (IVal (TPtr pathNormalTester) (VPtr None))
  ∧ Bind exampleExternals exampleBinder (IVal (TPtr pathNormalTester) (VPtr None))
      (request MethodGet)
    = (Panic, IVal (TPtr pathNormalTester) (VPtr None))
  ∧ (Bind exampleExternals exampleBinder (IVal (TPtr pathNormalTester) (VPtr None))
       (request MethodGet)).1
    ≠ Failed (badRequestError errorInvalidType).
Proof.
  apply (nil_pointer_target_panics exampleExternals exampleBinder (request MethodGet)
           (structFields pathNormalTester) noMethods []
           (field "Path" (record [field "Name" tString; field "Id" tInt;
                                  field "Unused" (TPtr tString)])) []).
  - reflexivity.
  - constructor.
  - by eexists.
  - left. reflexivity.
Defined.

Lemma later_declaration_wins_witness :
  ∃ fields sv',
    getStructFields collidingSection flagNone [] (Zero collidingSection) = (Ok fields, sv')
    ∧ fields !! "id" = Some (mkData (tagged "B" tInt "id") flagNone [1%nat; 0%nat])
    ∧ fields !! "id" ≠ Some (mkData (tagged "A" tString "id") flagNone [0%nat; 0%nat]).
Proof.
  destruct (later_declaration_wins collidingSection flagNone [] (Zero collidingSection))
    as (Hlast & _ & Hfresh).
  destruct (Hfresh eq_refl eq_refl) as [sv' Hrun].
  { intros q f Hf Hleaf.
    destruct q as [|[|[|i]] [|[|j] [|k r]]]; simpl in Hf; try discriminate;
      injection Hf as <-; try reflexivity; by destruct Hleaf. }
  eexists _, sv'. split; [exact Hrun|].
  assert ((list_to_map (reverse (declared collidingSection flagNone [])) : fieldMap) !! "id"
          = Some (mkData (tagged "B" tInt "id") flagNone [1%nat; 0%nat])) as Hid.
  { apply (Hlast _ _ Hrun).
    exists [("id", mkData (tagged "A" tString "id") flagNone [0%nat; 0%nat])], [].
    split; [reflexivity|]. apply not_elem_of_nil. }
  split; [exact Hid|]. rewrite Hid. discriminate.
Defined.

Lemma slice_slot_bound_in_order_witness :
  sliceBound exampleExternals tInt ["1"; "2"; "3"]
    (get_at [0%nat]
       (bindQuery exampleExternals
          (withQueryParams (request MethodGet) [("Data", ["1"; "2"; "3"])])
          dataSection flagNone (Zero dataSection)).2).
Proof.
  destruct (slice_slot_bound_in_order exampleExternals
              (withQueryParams (request MethodGet) [("Data", ["1"; "2"; "3"])])
              dataSection flagNone (Zero dataSection)
              {[ "Data" := dataSlot ]} (Zero dataSection) "Data" ["1"; "2"; "3"]
              dataSlot tInt noMethods) as [Hquery _].
  - vm_compute. reflexivity.
  - vm_compute. reflexivity.
  - reflexivity.
  - eapply Hquery.
    + apply (bool_decide_unpack _). vm_compute. exact I.
    + left.
    + apply surjective_pairing.
    + vm_compute. reflexivity.
Defined.

Lemma scalar_slot_takes_first_value_witness :
  bindQuery exampleExternals (withQueryParams (request MethodGet) [("k", ["1"; "2"])])
    scalarSection flagNone (Zero scalarSection)
  = bindQuery exampleExternals
      (withQueryParams (withQueryParams (request MethodGet) [("k", ["1"; "2"])])
         ([] ++ [("k", ["1"])]))
      scalarSection flagNone (Zero scalarSection).
Proof.
  apply (scalar_slot_takes_first_value exampleExternals
           (withQueryParams (request MethodGet) [("k", ["1"; "2"])])
           scalarSection flagNone (Zero scalarSection)
           {[ "k" := scalarSlot ]} (Zero scalarSection) "k" scalarSlot "1" ["2"] [] []).
  - vm_compute. reflexivity.
  - vm_compute. reflexivity.
  - vm_compute. discriminate.
  - reflexivity.
Defined.

Lemma FieldExists_dotted_path_witness :
  FieldExists (IntoRecursiveLookupTable sentFieldsTable) "nested.nested.field" = true.
Proof.
  apply (proj1 (FieldExists_dotted_path sentFieldsTable "nested" "nested" "field"
                  eq_refl eq_refl eq_refl)).
  exists {[ "field" := JBool true; "nested" := JObject {[ "field" := JBool false ]} ]},
    {[ "field" := JBool false ]}.
  split_and!; [vm_compute; reflexivity..|]. vm_compute. eauto.
Defined.


Lemma query_rejects_other_methods_witness :
  bindQuery exampleExternals (withQueryParams (request MethodPost) [("k", ["1"])])
    scalarSection flagNone (Zero scalarSection)
  = (Failed (badRequestError (getUnsupportedHttpMethodError queryField MethodPost)),
     Zero scalarSection).
Proof.
  apply (proj1 (query_rejects_other_methods exampleExternals exampleBinder
                  (request MethodPost) ltac:(discriminate) ltac:(discriminate)
                  ltac:(discriminate))).
Defined.

Lemma nil_pointer_stays_allocated_witness :
  setWithProperType exampleExternals (TPtr tInt) "abc" (VPtr None)
  = (VPtr (Some (VInt 0)), Some (NumError "ParseInt" "abc" ErrSyntax)).
Proof.
  apply (proj2 (nil_pointer_stays_allocated exampleExternals reflect.Int noMethods "abc"
                  (VInt 0) (NumError "ParseInt" "abc" ErrSyntax) eq_refl eq_refl eq_refl)).
Defined.

(** ** The further properties at concrete inputs *)

Lemma FieldExists_prefix_closed_witness :
  FieldExists (IntoRecursiveLookupTable sentFieldsTable) "nested.nested" = true.
Proof.
  apply (FieldExists_prefix_closed (IntoRecursiveLookupTable sentFieldsTable)
           "nested.nested" "field").
  vm_compute. reflexivity.
Defined.

Lemma empty_string_binds_zero_witness :
  setWithProperType exampleExternals tInt "" (VInt 7) = (VInt 0, None).
Proof.
  apply (empty_string_binds_zero exampleExternals reflect.Int noMethods (VInt 7)).
  - apply (bool_decide_unpack _). vm_compute. exact I.
  - reflexivity.
  - reflexivity.
Defined.

Lemma stored_integer_fits_kind_witness :
  ∃ n, (setWithProperType exampleExternals (TBasic reflect.Int8 noMethods) "-128" (VInt 0)).1
       = VInt n
       ∧ - 2 ^ (8 - 1) ≤ n < 2 ^ (8 - 1).
Proof.
  destruct (stored_integer_fits_kind exampleExternals reflect.Int8 noMethods "-128" (VInt 0)
              (VInt (-128)) eq_refl eq_refl) as [Hint _].
  - vm_compute. reflexivity.
  - exact (Hint 8 eq_refl).
Defined.

Lemma failed_coercion_keeps_section_witness :
  (default (VOpaque, None)
     (setSlot exampleExternals (Value scalarSlot) "x" (VStruct [VInt 5]))).1
  = VStruct [VInt 5].
Proof.
  apply (failed_coercion_keeps_section exampleExternals (Value scalarSlot) "x"
           (VStruct [VInt 5]) _ (NumError "ParseInt" "x" ErrSyntax) reflect.Int noMethods).
  - reflexivity.
  - reflexivity.
  - reflexivity.
  - vm_compute. reflexivity.
Defined.

Lemma flattener_maps_the_leaves_witness :
  is_Some (validEmbeddedFields !! "key2")
  ↔ ∃ q f, field_at q validEmbeddedSection = Some f ∧ isLeaf f ∧ identifier f = Some "key2".
Proof.
  apply (proj1 (flattener_maps_the_leaves validEmbeddedSection flagNone validEmbeddedValue
                  validEmbeddedFields validEmbeddedValue
                  ltac:(vm_compute; reflexivity)) "key2").
Defined.

Lemma unexported_leaf_not_settable_witness :
  bindValues exampleExternals queryField {[ "s" := unexportedSlot ]} "s" ["v"]
    (Zero unexportedSection)
  = (Some (Failed (badRequestError (getNotSettableParamAtLocationError queryField "s"))),
     Zero unexportedSection).
Proof.
  apply (unexported_leaf_not_settable exampleExternals unexportedSection flagNone
           (Zero unexportedSection) {[ "s" := unexportedSlot ]} (Zero unexportedSection)
           "s" unexportedSlot).
  - vm_compute. reflexivity.
  - vm_compute. reflexivity.
  - reflexivity.
  - reflexivity.
Defined.

Lemma unmatched_keys_ignored_witness :
  bindQuery exampleExternals
    (withQueryParams (request MethodGet) [("key1", ["a"]); ("other", ["b"])])
    validEmbeddedSection flagNone validEmbeddedValue
  = bindQuery exampleExternals
      (withQueryParams
         (withQueryParams (request MethodGet) [("key1", ["a"]); ("other", ["b"])])
         (matched validEmbeddedFields [("key1", ["a"]); ("other", ["b"])]))
      validEmbeddedSection flagNone validEmbeddedValue.
Proof.
  apply (proj1 (unmatched_keys_ignored exampleExternals
                  (withQueryParams (request MethodGet) [("key1", ["a"]); ("other", ["b"])])
                  validEmbeddedSection flagNone validEmbeddedValue
                  validEmbeddedFields validEmbeddedValue ltac:(vm_compute; reflexivity))).
Defined.

Lemma key_order_irrelevant_witness :
  bindQuery exampleExternals
    (withQueryParams
       (withQueryParams (request MethodGet) [("key1", ["a"]); ("key2", ["2"])])
       [("key2", ["2"]); ("key1", ["a"])])
    validEmbeddedSection flagNone validEmbeddedValue
  = (Nil, VStruct [VStruct [VString "a"; VInt 2; VString "BLABLA"]]).
Proof.
  apply (proj1 (key_order_irrelevant exampleExternals
                  (withQueryParams (request MethodGet) [("key1", ["a"]); ("key2", ["2"])])
                  validEmbeddedSection flagNone validEmbeddedValue
                  (VStruct [VStruct [VString "a"; VInt 2; VString "BLABLA"]])
                  [("key1", ["a"]); ("key2", ["2"])] [("key2", ["2"]); ("key1", ["a"])]
                  ltac:(apply (bool_decide_unpack _); vm_compute; exact I)
                  ltac:(apply perm_swap))).
  - reflexivity.
  - vm_compute. reflexivity.
Defined.

Lemma path_parameters_bound_witness :
  ∃ d val cur x,
    (list_to_map (reverse (declared pathSection flagNone [])) : fieldMap) !! "Id" = Some d
    ∧ CanSet (Value d) = true
    ∧ ParamValues (withParams (request MethodGet) ["Name"; "Id"] ["Omri Siniver"; "3"])
        !! 1%nat = Some val
    ∧ get_at (slot_path (Value d)) (Zero pathSection) = Some cur
    ∧ setWithProperType exampleExternals (slot_type (Value d)) val cur = (x, None)
    ∧ get_at (slot_path (Value d)) (VStruct [VString "Omri Siniver"; VInt 3; VPtr None])
      = Some x.
Proof.
  apply (path_parameters_bound exampleExternals
           (withParams (request MethodGet) ["Name"; "Id"] ["Omri Siniver"; "3"])
           pathSection flagNone (Zero pathSection)
           (list_to_map (reverse (declared pathSection flagNone []))) (Zero pathSection)
           (VStruct [VString "Omri Siniver"; VInt 3; VPtr None]) 1%nat "Id").
  - vm_compute. reflexivity.
  - vm_compute. reflexivity.
  - apply (bool_decide_unpack _). vm_compute. exact I.
  - reflexivity.
Defined.

Lemma header_values_bound_witness :
  CanSet (Value scalarSlot) = true
  ∧ ∃ cur x,
      get_at (slot_path (Value scalarSlot)) (Zero scalarSection) = Some cur
      ∧ setWithProperType exampleExternals (slot_type (Value scalarSlot)) "132" cur = (x, None)
      ∧ get_at (slot_path (Value scalarSlot)) (VStruct [VInt 132]) = Some x.
Proof.
  assert (H1 : getStructFields scalarSection flagNone [] (Zero scalarSection)
               = (Ok {[ "k" := scalarSlot ]}, Zero scalarSection)) by (vm_compute; reflexivity).
  assert (H2 : bindHeader exampleExternals (withHeaders (request MethodGet) [("k", "132")])
                 scalarSection flagNone (Zero scalarSection)
               = (Nil, VStruct [VInt 132])) by (vm_compute; reflexivity).
  assert (H3 : ({[ "k" := scalarSlot ]} : fieldMap) !! "k" = Some scalarSlot)
    by (vm_compute; reflexivity).
  exact (header_values_bound exampleExternals _ _ _ _ _ _ _ _ _ H1 H2 H3).
Defined.

Lemma header_order_irrelevant_witness :
  bindHeader_loop exampleExternals
    (withHeaders (request MethodGet) [("key1", "a"); ("key2", "2")])
    (reverse (map_to_list validEmbeddedFields)) validEmbeddedValue
  = (Nil, VStruct [VStruct [VString "a"; VInt 2; VString "BLABLA"]]).
Proof.
  apply (header_order_irrelevant exampleExternals
           (withHeaders (request MethodGet) [("key1", "a"); ("key2", "2")])
           validEmbeddedSection flagNone validEmbeddedValue validEmbeddedFields
           validEmbeddedValue (VStruct [VStruct [VString "a"; VInt 2; VString "BLABLA"]])
           (reverse (map_to_list validEmbeddedFields))).
  - vm_compute. reflexivity.
  - apply reverse_Permutation.
  - vm_compute. reflexivity.
Defined.

Lemma unsupplied_leaf_keeps_value_witness :
  get_at [0%nat; 1%nat]
    (bindQuery exampleExternals
       (withQueryParams (request MethodGet) [("key1", ["a"])])
       validEmbeddedSection flagNone
       (VStruct [VStruct [VString ""; VInt 7; VString "BLABLA"]])).2
  = Some (VInt 7).
Proof.
  destruct (unsupplied_leaf_keeps_value exampleExternals
              (withQueryParams (request MethodGet) [("key1", ["a"])])
              validEmbeddedSection flagNone
              (VStruct [VStruct [VString ""; VInt 7; VString "BLABLA"]])
              [0%nat; 1%nat] key2Field (VInt 7)) as (_ & Hquery & _).
  - reflexivity.
  - vm_compute. discriminate.
  - reflexivity.
  - eapply Hquery.
    + intros id Hid. vm_compute in Hid. injection Hid as <-.
      apply (bool_decide_unpack _). vm_compute. exact I.
    + apply surjective_pairing.
Defined.

Lemma get_rejects_body_and_form_witness :
  Bind exampleExternals exampleBinder (target bodySentFieldsTester) (request MethodGet)
  = (Failed (badRequestError (badRequestError
               (getUnsupportedHttpMethodError bodyField MethodGet))),
     target bodySentFieldsTester).
Proof.
  apply (get_rejects_body_and_form exampleExternals exampleBinder (request MethodGet)
           sentFieldsFields noMethods (Zero bodySentFieldsTester)
           [] (field "Body" (record sentFieldsBodyFields))
           [field "BodySentFields" TRecursiveLookupTable] false (Zero bodySentFieldsTester)).
  - reflexivity.
  - reflexivity.
  - left. reflexivity.
  - reflexivity.
  - vm_compute. eauto.
Defined.

Lemma body_read_failure_witness :
  Bind exampleExternals exampleBinder (target bodySentFieldsTester) unreadableBody
  = (Failed (badRequestError (internalServerError (ExternalError "unexpected EOF"))),
     target bodySentFieldsTester).
Proof.
  apply (body_read_failure exampleExternals exampleBinder unreadableBody
           sentFieldsFields noMethods (Zero bodySentFieldsTester)
           [] (field "Body" (record sentFieldsBodyFields))
           [field "BodySentFields" TRecursiveLookupTable] false (Zero bodySentFieldsTester)).
  - vm_compute. discriminate.
  - vm_compute. discriminate.
  - reflexivity.
  - reflexivity.
  - reflexivity.
  - reflexivity.
  - vm_compute. eauto.
Defined.

Lemma pointer_section_panics_witness :
  Bind exampleExternals exampleBinder (target pointerPathTester) (request MethodGet)
  = (Panic, target pointerPathTester).
Proof.
  apply (pointer_section_panics exampleExternals exampleBinder (request MethodGet)
           [field "Path" (TPtr (record [field "Name" tString]))] noMethods
           (Zero pointerPathTester) []
           (field "Path" (TPtr (record [field "Name" tString]))) [] false
           (Zero pointerPathTester) (record [field "Name" tString])).
  - reflexivity.
  - left. reflexivity.
  - reflexivity.
  - reflexivity.
  - reflexivity.
  - vm_compute. eauto.
Defined.

Lemma Bind_errors_are_bad_requests_witness :
  ∃ inner,
    badRequestError (badRequestError (NumError "ParseInt" "x" ErrSyntax))
    = HTTPError StatusBadRequest inner.
Proof.
  apply (Bind_errors_are_bad_requests exampleExternals exampleBinder
           (target queryWithOther)
           (withQueryParams (request MethodGet) [("k", ["x"])])
           (badRequestError (badRequestError (NumError "ParseInt" "x" ErrSyntax)))
           (target queryWithOther)).
  - reflexivity.
  - vm_compute. reflexivity.
Defined.

Lemma unrecognised_fields_untouched_witness :
  ∃ sv',
    (Bind exampleExternals exampleBinder
       (IVal (TPtr queryWithOther) (VPtr (Some (VStruct [VStruct [VInt 0]; VInt 10]))))
       (withQueryParams (request MethodGet) [("k", ["1"])])).2
    = IVal (TPtr queryWithOther) (VPtr (Some sv'))
    ∧ ∀ j g, [field "Query" scalarSection; field "Other" tInt] !! j = Some g →
             fieldHandlers exampleExternals (Name g) = None →
             Name g ≠ bodySentFields →
             Field sv' j = Field (VStruct [VStruct [VInt 0]; VInt 10]) j.
Proof.
  apply (unrecognised_fields_untouched exampleExternals exampleBinder
           (withQueryParams (request MethodGet) [("k", ["1"])])
           [field "Query" scalarSection; field "Other" tInt] noMethods
           (VStruct [VStruct [VInt 0]; VInt 10])
           (Bind exampleExternals exampleBinder
              (IVal (TPtr queryWithOther) (VPtr (Some (VStruct [VStruct [VInt 0]; VInt 10]))))
              (withQueryParams (request MethodGet) [("k", ["1"])])).1).
  - right. repeat constructor.
  - reflexivity.
  - apply surjective_pairing.
Defined.

Lemma non_record_section_rejected_witness :
  Bind exampleExternals exampleBinder (target badPathTester) (request MethodGet)
  = (Failed (badRequestError (getInvalidTypeAtLocationError "Path" structTypeString)),
     target badPathTester).
Proof.
  apply (non_record_section_rejected exampleExternals exampleBinder (request MethodGet)
           [field "Path" tInt; field "Body" (record []);
            field "BodySentFields" TRecursiveLookupTable] noMethods
           (Some (Zero badPathTester)) [] (field "Path" tInt)
           [field "Body" (record []); field "BodySentFields" TRecursiveLookupTable]).
  - reflexivity.
  - reflexivity.
  - constructor.
  - by eexists.
  - discriminate.
  - discriminate.
Defined.

Lemma default_binder_unused_witness :
  Bind exampleExternals (withDefaultBinder exampleBinder (λ i _, (Panic, i)))
    (target pathNormalTester)
    (withParams (request MethodGet) ["Name"; "Id"] ["Omri Siniver"; "3"])
  = Bind exampleExternals exampleBinder (target pathNormalTester)
      (withParams (request MethodGet) ["Name"; "Id"] ["Omri Siniver"; "3"]).
Proof.
  apply (default_binder_unused exampleExternals exampleBinder (λ i _, (Panic, i))).
  reflexivity.
Defined.

Lemma no_section_only_validates_witness :
  Bind exampleExternals exampleBinder
    (IVal (TPtr unhandledStructsTester)
       (VPtr (Some (VStruct [VStruct [VInt 10]; VStruct [VString "Roy"]]))))
    (withParams (request MethodGet) ["Name"; "Id"] ["Omri Siniver"; "3"])
  = (Nil, IVal (TPtr unhandledStructsTester)
            (VPtr (Some (VStruct [VStruct [VInt 10]; VStruct [VString "Roy"]])))).
Proof.
  apply (no_section_only_validates exampleExternals exampleBinder
           (withParams (request MethodGet) ["Name"; "Id"] ["Omri Siniver"; "3"])
           [field "ShouldNotBeHandled" (record [field "Id" tInt]);
            field "ShouldNotBeHandled2" (record [field "Name" tString])] noMethods
           (Some (VStruct [VStruct [VInt 10]; VStruct [VString "Roy"]]))).
  repeat (constructor; [reflexivity|]). constructor.
Defined.

Lemma no_content_skips_body_and_form_witness :
  Bind exampleExternals exampleBinder (target bodySentFieldsTester) (request MethodPost)
  = (Nil, target bodySentFieldsTester).
Proof.
  apply (no_content_skips_body_and_form exampleExternals exampleBinder (request MethodPost)
           sentFieldsFields noMethods
           [Zero (record sentFieldsBodyFields); VMap None]).
  - vm_compute. discriminate.
  - reflexivity.
  - reflexivity.
  - constructor; [right; left; split; reflexivity|].
    constructor; [left; reflexivity|]. constructor.
Defined.

Lemma section_binders_do_not_panic_witness :
  (bindQuery exampleExternals (withQueryParams (request MethodGet) [("k", ["x"])])
     scalarSection flagNone (Zero scalarSection)).1 ≠ Panic.
Proof.
  destruct (section_binders_do_not_panic exampleExternals
              (withQueryParams (request MethodGet) [("k", ["x"])])
              scalarSection flagNone (Zero scalarSection)) as (_ & Hquery & _).
  - vm_compute. discriminate.
  - apply Hquery. intros name values Hin.
    apply list_elem_of_singleton in Hin. injection Hin as -> ->. discriminate.
Defined.

Lemma flattener_accepts_fresh_record_witness :
  ∃ sv1,
    (∃ fields, getStructFields headerSection flagNone [] (Zero headerSection) = (Ok fields, sv1))
    ∨ getStructFields headerSection flagNone [] (Zero headerSection)
      = (Err errorInvalidAnonymousField, sv1).
Proof.
  apply (flattener_accepts_fresh_record headerSection flagNone []). reflexivity.
Defined.

Lemma Bind_fresh_target_does_not_panic_witness :
  (Bind exampleExternals exampleBinder (target headerTester)
     (withHeaders (request MethodGet) [("Name", "Omri"); ("custom", "x")])).1 ≠ Panic.
Proof.
  apply (Bind_fresh_target_does_not_panic exampleExternals exampleBinder
           (withHeaders (request MethodGet) [("Name", "Omri"); ("custom", "x")])
           [field "Header" headerSection] noMethods).
  - right. repeat constructor.
  - reflexivity.
  - split_and!.
    + simpl. lia.
    + intros name values Hin. by apply elem_of_nil in Hin.
    + intros params [= <-] name values Hin. by apply elem_of_nil in Hin.
  - intros j g Hg. vm_compute in Hg. discriminate.
  - constructor; [right; right; right; reflexivity|]. constructor.
Defined.
